(** * Code translator: the rule-based transformation pipeline

    A shallow embedding of the line-oriented source-to-source transformer
    (the result-object [transformCode] with its detector, normalizer, rule
    engine and post-processor, and the older string-returning
    [transformCode] with its rule table), together with the properties the
    specification states about them, and of the code around it: the
    language guesses and the outline of the earlier transformers, the diff
    view, the translate endpoint and the issue list, with further
    properties of the whole.

    Text is modelled as a sequence of code units below 256 ([list ascii]);
    the regular expressions of the source are kept as their source text and
    read by [Regex.parse]; they are run by a backtracking matcher that
    follows the matching order of ECMAScript regular expressions. *)

From Stdlib Require Import Ascii String List Bool Arith ZArith QArith Lia.
From Stdlib Require Import Permutation Sorted.
Import ListNotations.

Local Open Scope string_scope.
Local Open Scope list_scope.
Local Open Scope nat_scope.

(** A string literal is read as the list of its code units. *)
Abbreviation str := (list ascii).
Coercion list_ascii_of_string : string >-> list.

(** ** Strings of the host language *)
Module Js.

(** Exceptions the modelled code can raise. *)
Inductive JsError := RangeError | TypeError.

Inductive JsResult (A : Type) : Type :=
| Ok (a : A)
| Throw (e : JsError).
Arguments Ok {A} a.
Arguments Throw {A} e.

Definition bind {A B} (c : JsResult A) (f : A -> JsResult B) : JsResult B :=
  match c with
  | Ok a => f a
  | Throw e => Throw e
  end.

Definition code_of (c : ascii) : nat := nat_of_ascii c.

Definition between (lo hi n : nat) : bool := (lo <=? n) && (n <=? hi).

(** WhiteSpace and LineTerminator code units below 256: TAB, LF, VT, FF,
    CR, SP and NBSP. This is the set of [\s], [trim] and [trimEnd]. *)
Definition isSpace (c : ascii) : bool :=
  let n := code_of c in between 9 13 n || (n =? 32) || (n =? 160).

(** LineTerminator: LF and CR. *)
Definition isLineTerminator (c : ascii) : bool :=
  let n := code_of c in (n =? 10) || (n =? 13).

(** [\w] : letters, digits and underscore. *)
Definition isWord (c : ascii) : bool :=
  let n := code_of c in
  between 48 57 n || between 65 90 n || between 97 122 n || (n =? 95).

Definition lowerChar (c : ascii) : ascii :=
  let n := code_of c in
  if between 65 90 n || between 192 214 n || between 216 222 n
  then ascii_of_nat (n + 32) else c.

Definition toLowerCase (s : str) : str := map lowerChar s.

Definition eqs (a b : str) : bool :=
  if list_eq_dec ascii_dec a b then true else false.

Fixpoint startsWith (s p : str) : bool :=
  match p, s with
  | [], _ => true
  | c :: p', d :: s' => Ascii.eqb c d && startsWith s' p'
  | _ :: _, [] => false
  end.

Definition endsWith (s p : str) : bool := startsWith (rev s) (rev p).

Fixpoint includes (s p : str) : bool :=
  startsWith s p ||
  match s with
  | [] => false
  | _ :: s' => includes s' p
  end.

Fixpoint trimStart (s : str) : str :=
  match s with
  | c :: s' => if isSpace c then trimStart s' else s
  | [] => []
  end.

Definition trimEnd (s : str) : str := rev (trimStart (rev s)).

Definition trim (s : str) : str := trimEnd (trimStart s).

(** [s.split(sep)] for a one-character separator. *)
Fixpoint split (sep : ascii) (s : str) : list str :=
  match s with
  | [] => [[]]
  | c :: s' =>
      if Ascii.eqb c sep then [] :: split sep s'
      else let r := split sep s' in (c :: hd [] r) :: tl r
  end.

Fixpoint join (sep : str) (ls : list str) : str :=
  match ls with
  | [] => []
  | [l] => l
  | l :: ls' => l ++ sep ++ join sep ls'
  end.

Fixpoint repeatN (s : str) (n : nat) : str :=
  match n with
  | O => []
  | S n' => s ++ repeatN s n'
  end.

(** [s.repeat(count)] raises a RangeError on a negative count. *)
Definition repeat (s : str) (count : Z) : JsResult str :=
  if (count <? 0)%Z then Throw RangeError else Ok (repeatN s (Z.to_nat count)).

(** An optional value spliced into a template literal. *)
Definition tpl (o : option str) : str :=
  match o with
  | Some s => s
  | None => "undefined"
  end.

(** [o || d] for an optional string. *)
Definition orElse (o : option str) (d : str) : str :=
  match o with
  | Some (c :: s) => c :: s
  | _ => d
  end.

Definition nl : str := ["010"%char].
Definition dq : str := ["034"%char].

End Js.

Notation "x <- c ;; k" := (Js.bind c (fun x => k))
  (at level 61, c at next level, right associativity).

(** ** Regular expressions *)
Module Regex.

Inductive greed := Greedy | Lazy.

(** Members of a bracketed class. *)
Inductive citem :=
| IChar (c : ascii)
| IRange (lo hi : ascii)
| ISpace
| IWord.

Inductive charclass :=
| Dot                                   (* .  *)
| Space                                 (* \s *)
| NonSpace                              (* \S *)
| Word                                  (* \w *)
| Bracket (neg : bool) (items : list citem).

Inductive regex :=
| Eps
| Chr (c : ascii)
| Cls (k : charclass)
| Seq (r1 r2 : regex)
| Alt (r1 r2 : regex)
| Star (g : greed) (r : regex)
| Group (i : nat) (r : regex)           (* i-th capturing group *)
| Bol (m : bool)                        (* ^, m: multiline flag *)
| Eol (m : bool)                        (* $ *)
| WordB                                 (* \b *)
| Look (neg : bool) (r : regex)         (* (?=r) and (?!r) *)
| Behind (neg : bool) (k : charclass).  (* (?<=k) and (?<!k), one unit *)

Definition Plus (g : greed) (r : regex) : regex := Seq r (Star g r).
Definition Opt (g : greed) (r : regex) : regex :=
  match g with
  | Greedy => Alt r Eps
  | Lazy => Alt Eps r
  end.

Definition inItem (c : ascii) (i : citem) : bool :=
  match i with
  | IChar d => Ascii.eqb c d
  | IRange lo hi => Js.between (Js.code_of lo) (Js.code_of hi) (Js.code_of c)
  | ISpace => Js.isSpace c
  | IWord => Js.isWord c
  end.

Definition inClass (k : charclass) (c : ascii) : bool :=
  match k with
  | Dot => negb (Js.isLineTerminator c)
  | Space => Js.isSpace c
  | NonSpace => negb (Js.isSpace c)
  | Word => Js.isWord c
  | Bracket neg items => xorb neg (existsb (inItem c) items)
  end.

(** *** Reading a pattern from its source text *)

Fixpoint seqs (rs : list regex) : regex :=
  match rs with
  | [] => Eps
  | [r] => r
  | r :: rs' => Seq r (seqs rs')
  end.

Fixpoint alts (rs : list regex) : regex :=
  match rs with
  | [] => Eps
  | [r] => r
  | r :: rs' => Alt r (alts rs')
  end.

Definition finish (done : list regex) (cur : list regex) : regex :=
  alts (done ++ [seqs cur]).

Definition digit (c : ascii) : option nat :=
  let n := Js.code_of c in
  if Js.between 48 57 n then Some (n - 48) else None.

Fixpoint copies (n : nat) (r : regex) : list regex :=
  match n with
  | O => []
  | S n' => r :: copies n' r
  end.

(** A quantifier after an atom: [*], [+], [?], [{n,}], each optionally
    followed by [?] for the lazy form. *)
Definition quantifier (atom : regex) (s : str) : regex * str :=
  let lazy_of (s : str) : greed * str :=
    match s with
    | "?"%char :: s' => (Lazy, s')
    | _ => (Greedy, s)
    end in
  match s with
  | "*"%char :: s' => let '(g, s'') := lazy_of s' in (Star g atom, s'')
  | "+"%char :: s' => let '(g, s'') := lazy_of s' in (Plus g atom, s'')
  | "?"%char :: s' => let '(g, s'') := lazy_of s' in (Opt g atom, s'')
  | "{"%char :: d :: ","%char :: "}"%char :: s' =>
      match digit d with
      | Some n => let '(g, s'') := lazy_of s' in
                  (seqs (copies n atom ++ [Star g atom]), s'')
      | None => (atom, s)
      end
  | _ => (atom, s)
  end.

(** The character an identity or control escape stands for. *)
Definition escapeChar (c : ascii) : ascii :=
  match c with
  | "n"%char => "010"%char
  | "r"%char => "013"%char
  | "t"%char => "009"%char
  | _ => c
  end.

Definition escapeClass (c : ascii) : option charclass :=
  match c with
  | "s"%char => Some Space
  | "S"%char => Some NonSpace
  | "w"%char => Some Word
  | _ => None
  end.

(** Escapes with no meaning as an identity escape here. *)
Definition reservedEscape (c : ascii) : bool :=
  Js.isWord c && negb (existsb (Ascii.eqb c) ("nrt" : str)).

(** The inside of [[...]], up to the closing bracket. *)
Fixpoint classItems (s : str) (acc : list citem) : option (list citem * str) :=
  match s with
  | [] => None
  | c :: s1 =>
      if Ascii.eqb c "]" then Some (acc, s1)
      else if Ascii.eqb c "\" then
        match s1 with
        | e :: s2 =>
            if Ascii.eqb e "s" then classItems s2 (acc ++ [ISpace])
            else if Ascii.eqb e "w" then classItems s2 (acc ++ [IWord])
            else if reservedEscape e then None
            else classItems s2 (acc ++ [IChar (escapeChar e)])
        | [] => None
        end
      else
        match s1 with
        | d :: s2 =>
            if Ascii.eqb d "-" then
              match s2 with
              | hi :: s3 =>
                  if Ascii.eqb hi "]" then Some (acc ++ [IChar c; IChar "-"], s3)
                  else classItems s3 (acc ++ [IRange c hi])
              | [] => None
              end
            else classItems s1 (acc ++ [IChar c])
        | [] => None
        end
  end.

Inductive groupKind := Capturing | NonCapturing | Ahead (neg : bool) | Back (neg : bool).

(** What follows an opening parenthesis. *)
Definition groupKindOf (s : str) : groupKind * str :=
  if Js.startsWith s "?:" then (NonCapturing, skipn 2 s)
  else if Js.startsWith s "?=" then (Ahead false, skipn 2 s)
  else if Js.startsWith s "?!" then (Ahead true, skipn 2 s)
  else if Js.startsWith s "?<=" then (Back false, skipn 3 s)
  else if Js.startsWith s "?<!" then (Back true, skipn 3 s)
  else (Capturing, s).

Definition classOf (r : regex) : option charclass :=
  match r with
  | Chr c => Some (Bracket false [IChar c])
  | Cls k => Some k
  | _ => None
  end.

(** [parseAlt fuel m n done cur s] reads a disjunction up to its closing
    parenthesis or the end of the pattern; [n] counts the capturing
    groups opened so far, [done] holds the finished alternatives and
    [cur] the terms of the current one. *)
Fixpoint parseAlt (fuel : nat) (m : bool) (n : nat) (done cur : list regex) (s : str)
  : option (regex * nat * str) :=
  match fuel with
  | O => None
  | S fuel' =>
      let continue (n : nat) (atom : regex) (s : str) :=
        let '(t, s') := quantifier atom s in
        parseAlt fuel' m n done (cur ++ [t]) s' in
      match s with
      | [] => Some (finish done cur, n, [])
      | c :: s1 =>
          if Ascii.eqb c ")" then Some (finish done cur, n, s)
          else if Ascii.eqb c "|" then parseAlt fuel' m n (done ++ [seqs cur]) [] s1
          else if Ascii.eqb c "^" then parseAlt fuel' m n done (cur ++ [Bol m]) s1
          else if Ascii.eqb c "$" then parseAlt fuel' m n done (cur ++ [Eol m]) s1
          else if Ascii.eqb c "." then continue n (Cls Dot) s1
          else if Ascii.eqb c "[" then
            let '(neg, s2) := match s1 with
                              | d :: s2 => if Ascii.eqb d "^" then (true, s2) else (false, s1)
                              | [] => (false, s1)
                              end in
            match classItems s2 [] with
            | Some (items, s3) => continue n (Cls (Bracket neg items)) s3
            | None => None
            end
          else if Ascii.eqb c "\" then
            match s1 with
            | e :: s2 =>
                if Ascii.eqb e "b" then parseAlt fuel' m n done (cur ++ [WordB]) s2
                else match escapeClass e with
                     | Some k => continue n (Cls k) s2
                     | None => if reservedEscape e then None
                               else continue n (Chr (escapeChar e)) s2
                     end
            | [] => None
            end
          else if Ascii.eqb c "(" then
            let '(kind, s2) := groupKindOf s1 in
            let n1 := match kind with Capturing => S n | _ => n end in
            match parseAlt fuel' m n1 [] [] s2 with
            | Some (r, n2, close :: s3) =>
                match kind with
                | Capturing => continue n2 (Group n1 r) s3
                | NonCapturing => continue n2 r s3
                | Ahead neg => parseAlt fuel' m n2 done (cur ++ [Look neg r]) s3
                | Back neg =>
                    match classOf r with
                    | Some k => parseAlt fuel' m n2 done (cur ++ [Behind neg k]) s3
                    | None => None
                    end
                end
            | _ => None
            end
          else if Ascii.eqb c "*" || Ascii.eqb c "+" || Ascii.eqb c "?" then None
          else continue n (Chr c) s1
      end
  end.

(** [parse m src]: the pattern [/src/] (with flag m when [m] holds). *)
Definition parse (m : bool) (src : str) : option regex :=
  match parseAlt (S (List.length src)) m 0 [] [] src with
  | Some (r, _, []) => Some r
  | _ => None
  end.

Definition the {A} (o : option A) : match o with Some _ => A | None => unit end :=
  match o with
  | Some a => a
  | None => tt
  end.

(** *** Matching *)

(** Captures: the text of each group that took part in the match. *)
Definition caps := list (nat * str).

Fixpoint capture (i : nat) (cs : caps) : option str :=
  match cs with
  | [] => None
  | (j, s) :: cs' => if i =? j then Some s else capture i cs'
  end.

Fixpoint groupsOf (r : regex) : list nat :=
  match r with
  | Seq r1 r2 | Alt r1 r2 => groupsOf r1 ++ groupsOf r2
  | Star _ r1 | Look _ r1 => groupsOf r1
  | Group i r1 => i :: groupsOf r1
  | _ => []
  end.

Definition clear (gs : list nat) (cs : caps) : caps :=
  filter (fun e => negb (existsb (Nat.eqb (fst e)) gs)) cs.

(** A position in the subject: the units before it, nearest first, and
    the units from it on. *)
Definition outcome := (str * str * caps)%type.
Definition cont := str -> str -> caps -> option outcome.

Definition atBol (m : bool) (before : str) : bool :=
  match before with
  | [] => true
  | c :: _ => m && Js.isLineTerminator c
  end.

Definition atEol (m : bool) (after : str) : bool :=
  match after with
  | [] => true
  | c :: _ => m && Js.isLineTerminator c
  end.

Definition wordAt (s : str) : bool :=
  match s with
  | [] => false
  | c :: _ => Js.isWord c
  end.

(** The text between a position [before0] and a later one [before1]. *)
Definition consumed (before0 before1 : str) : str :=
  rev (firstn (List.length before1 - List.length before0) before1).

(** The rounds of a star whose body is matched by [step]: a greedy star
    tries one more round before leaving, a lazy one leaves first; a round
    that consumes nothing is refused. [n] bounds the number of rounds by
    the length of the text left. *)
Fixpoint rounds (step : str -> str -> caps -> cont -> option outcome)
    (g : greed) (k : cont) (n : nat) (before after : str) (cs : caps)
  : option outcome :=
  let more :=
    match n with
    | O => None
    | S n' =>
        step before after cs
          (fun b a c =>
             if List.length a <? List.length after then rounds step g k n' b a c
             else None)
    end in
  match g with
  | Greedy =>
      match more with
      | Some o => Some o
      | None => k before after cs
      end
  | Lazy =>
      match k before after cs with
      | Some o => Some o
      | None => more
      end
  end.

(** [rmatch r before after cs k]: match [r] at the position, then go on
    with [k]; alternatives are tried in the order of the pattern. The
    captures of a star's body are reset at each round. *)
Fixpoint rmatch (r : regex) (before after : str) (cs : caps) (k : cont)
  : option outcome :=
  match r with
  | Eps => k before after cs
  | Chr c =>
      match after with
      | x :: after' => if Ascii.eqb x c then k (x :: before) after' cs else None
      | [] => None
      end
  | Cls cl =>
      match after with
      | x :: after' => if inClass cl x then k (x :: before) after' cs else None
      | [] => None
      end
  | Seq r1 r2 =>
      rmatch r1 before after cs (fun b a c => rmatch r2 b a c k)
  | Alt r1 r2 =>
      match rmatch r1 before after cs k with
      | Some o => Some o
      | None => rmatch r2 before after cs k
      end
  | Star g r1 =>
      rounds (fun b a c k' => rmatch r1 b a (clear (groupsOf r1) c) k')
             g k (List.length after) before after cs
  | Group i r1 =>
      rmatch r1 before after cs
        (fun b a c => k b a ((i, consumed before b) :: c))
  | Bol m => if atBol m before then k before after cs else None
  | Eol m => if atEol m after then k before after cs else None
  | WordB =>
      if xorb (wordAt before) (wordAt after) then k before after cs else None
  | Look neg r1 =>
      match rmatch r1 before after cs (fun b a c => Some (b, a, c)) with
      | Some (_, _, c) => if neg then None else k before after c
      | None => if neg then k before after cs else None
      end
  | Behind neg cl =>
      let seen := match before with
                  | x :: _ => inClass cl x
                  | [] => false
                  end in
      if xorb neg seen then k before after cs else None
  end.

(** One attempt at a position. *)
Definition matchAt (r : regex) (before after : str) : option outcome :=
  rmatch r before after [] (fun b a c => Some (b, a, c)).

(** The matched text of an attempt made at [after] that ended at [rest]. *)
Definition matched (after rest : str) : str :=
  firstn (List.length after - List.length rest) after.

(** The leftmost match at or after a position: the text skipped, the
    text matched, the captures and the text left. *)
Fixpoint search (r : regex) (before after : str) : option (str * str * caps * str) :=
  match matchAt r before after with
  | Some (_, rest, cs) => Some ([], matched after rest, cs, rest)
  | None =>
      match after with
      | [] => None
      | x :: after' =>
          match search r (x :: before) after' with
          | Some (skipped, m, cs, rest) => Some (x :: skipped, m, cs, rest)
          | None => None
          end
      end
  end.

(** [regex.test(s)] and [s.match(regex)] as a truth value. *)
Definition test (r : regex) (s : str) : bool :=
  match search r [] s with
  | Some _ => true
  | None => false
  end.

(** [s.replace(regex, f)] without the g flag: the first match only. *)
Definition replaceFirst (r : regex) (f : str -> caps -> str) (s : str) : str :=
  match search r [] s with
  | Some (skipped, m, cs, rest) => skipped ++ f m cs ++ rest
  | None => s
  end.

(** The scan of a pattern with the g flag: [skip] units still belong to
    the match found last; after an empty match the scan steps one unit
    on. [hit] is what a match contributes, [miss] what an unmatched
    unit does. *)
Fixpoint scan {A} (r : regex) (hit : str -> caps -> A) (miss : ascii -> A)
    (before after : str) (skip : nat) : list A :=
  match skip with
  | S skip' =>
      match after with
      | [] => []
      | x :: after' => scan r hit miss (x :: before) after' skip'
      end
  | O =>
      match matchAt r before after with
      | Some (_, rest, cs) =>
          let m := matched after rest in
          hit m cs ::
            match after with
            | [] => []
            | x :: after' =>
                match m with
                | [] => miss x :: scan r hit miss (x :: before) after' 0
                | _ :: m' => scan r hit miss (x :: before) after' (List.length m')
                end
            end
      | None =>
          match after with
          | [] => []
          | x :: after' => miss x :: scan r hit miss (x :: before) after' 0
          end
      end
  end.

(** [s.replace(regex, f)] with the g flag. *)
Definition replaceAll (r : regex) (f : str -> caps -> str) (s : str) : str :=
  concat (scan r f (fun x => [x]) [] s 0).

(** [(s.match(regex) || []).length] with the g flag. *)
Definition countMatches (r : regex) (s : str) : nat :=
  list_sum (scan r (fun _ _ => 1) (fun _ => 0) [] s 0).

(** The scan as a list of events: a match with its captures, or an
    unmatched unit. *)
Definition event := (str * caps + ascii)%type.

Definition events (r : regex) (before after : str) (skip : nat) : list event :=
  scan r (fun m cs => inl (m, cs)) (fun x => inr x) before after skip.

(** The text an event stands for. *)
Definition text (e : event) : str :=
  match e with
  | inl (m, _) => m
  | inr x => [x]
  end.

Definition onEvent {A} (hit : str -> caps -> A) (miss : ascii -> A) (e : event) : A :=
  match e with
  | inl (m, cs) => hit m cs
  | inr x => miss x
  end.


(** The texts a pattern can match, whatever stands around them:
    assertions are taken to hold. *)
Inductive Lang : regex -> str -> Prop :=
| L_Eps : Lang Eps []
| L_Chr c : Lang (Chr c) [c]
| L_Cls k c : inClass k c = true -> Lang (Cls k) [c]
| L_Seq r1 r2 u v : Lang r1 u -> Lang r2 v -> Lang (Seq r1 r2) (u ++ v)
| L_AltL r1 r2 u : Lang r1 u -> Lang (Alt r1 r2) u
| L_AltR r1 r2 u : Lang r2 u -> Lang (Alt r1 r2) u
| L_Star0 g r : Lang (Star g r) []
| L_StarS g r u v : Lang r u -> Lang (Star g r) v -> Lang (Star g r) (u ++ v)
| L_Group i r u : Lang r u -> Lang (Group i r) u
| L_Bol m : Lang (Bol m) []
| L_Eol m : Lang (Eol m) []
| L_WordB : Lang WordB []
| L_Look neg r : Lang (Look neg r) []
| L_Behind neg k : Lang (Behind neg k) [].

End Regex.

(** [re src] is the pattern [/src/]; [rem src] is [/src/m]. *)
Abbreviation re src := (Regex.the (Regex.parse false src)) (only parsing).
Abbreviation rem src := (Regex.the (Regex.parse true src)) (only parsing).


(** ** The data model *)

Inductive SupportedLanguage :=
| python | javascript | typescript | java | cpp | go | rust | csharp | php | ruby.


(** The member of the enumeration a run-time language string denotes; the
    casts of the source do not check it, so any string can occur. *)
Definition known (lang : str) : option SupportedLanguage :=
  if Js.eqs lang "python" then Some python
  else if Js.eqs lang "javascript" then Some javascript
  else if Js.eqs lang "typescript" then Some typescript
  else if Js.eqs lang "java" then Some java
  else if Js.eqs lang "cpp" then Some cpp
  else if Js.eqs lang "go" then Some go
  else if Js.eqs lang "rust" then Some rust
  else if Js.eqs lang "csharp" then Some csharp
  else if Js.eqs lang "php" then Some php
  else if Js.eqs lang "ruby" then Some ruby
  else None.

Inductive ChangeType := added | removed | changed | warning | unchanged.

Record LineTransformation := {
  original : str;
  transformed : str;
  lineWarnings : list str;
  lineNumber : nat;
  changeType : ChangeType
}.

Inductive NodeType :=
| TFunction | TClass | TIf | TFor | TWhile | TImport | TVariable | TStatement
| TBlock | TComment.

(** A node of the structure tree. Nodes are objects shared between the
    tree and the stack of open nodes, so they live in a store and refer to
    their children by position in it. *)
Record ASTNode := {
  nodeType : NodeType;
  content : str;
  lineStart : nat;
  lineEnd : nat;
  children : list nat;
  language : str
}.

Record AST := {
  store : list ASTNode;
  roots : list nat
}.

Record Statistics := {
  functionsDetected : nat;
  classesDetected : nat;
  importsDetected : nat;
  linesTransformed : nat;
  mixedLanguageDetected : bool;
  normalizationApplied : bool
}.

Record TransformationResult := {
  code : str;
  lines : list LineTransformation;
  warnings : list str;
  errors : list str;
  statistics : Statistics;
  ast : AST
}.

Record MixedReport := {
  detected : bool;
  languages : list str;
  confidence : Q
}.

(** ** Mixed-language detection *)

Definition re_py_def := Eval vm_compute in re "^def\s+".
Definition re_py_import := Eval vm_compute in re "^import\s+".
Definition re_py_indent := Eval vm_compute in re "^\s+[a-z]".
Definition re_py_print := Eval vm_compute in re "print\(".
Definition re_py_colon := Eval vm_compute in rem ":\s*$".
Definition re_js_function := Eval vm_compute in re "function\s+".
Definition re_js_const := Eval vm_compute in re "const\s+".
Definition re_js_let := Eval vm_compute in re "let\s+".
Definition re_js_log := Eval vm_compute in re "console\.log".
Definition re_js_brace := Eval vm_compute in rem "{\s*$".
Definition re_java_class := Eval vm_compute in re "public\s+class".
Definition re_java_static := Eval vm_compute in re "public\s+static".
Definition re_java_semi := Eval vm_compute in rem ";$".

Definition pythonPatterns : list Regex.regex :=
  [re_py_def; re_py_import; re_py_indent; re_py_print; re_py_colon].
Definition jsPatterns : list Regex.regex :=
  [re_js_function; re_js_const; re_js_let; re_js_log; re_js_brace].
Definition javaPatterns : list Regex.regex :=
  [re_java_class; re_java_static; re_java_semi].

(** One hit for each pattern of the list that matches somewhere. *)
Definition hits (patterns : list Regex.regex) (code : str) : nat :=
  fold_left (fun n p => n + (if Regex.test p code then 1 else 0)) patterns 0.

(** The score object, in the order its keys are created. *)
Definition indicators (code : str) : list (str * nat) :=
  [("python" : str, hits pythonPatterns code);
   ("javascript" : str, hits jsPatterns code);
   ("java" : str, hits javaPatterns code)].

(** A stable sort by descending count. *)
Fixpoint insertDesc (x : str * nat) (l : list (str * nat)) : list (str * nat) :=
  match l with
  | [] => [x]
  | y :: l' => if snd y <=? snd x then x :: y :: l' else y :: insertDesc x l'
  end.

Definition sortDesc (l : list (str * nat)) : list (str * nat) :=
  fold_right insertDesc [] l.

Definition detectMixedLanguages (code : str) : MixedReport :=
  let scores := indicators code in
  let detected := 1 <? List.length (filter (fun e => 0 <? snd e) scores) in
  let languages := map fst (sortDesc (filter (fun e => 0 <? snd e) scores)) in
  {| detected := detected;
     languages := languages;
     confidence := if detected then 7 # 10 else 1 |}.

(** ** Normalization *)

Definition re_crlf := Eval vm_compute in re "\r\n".
Definition re_space_brace := Eval vm_compute in re "(\w)\s+{".
Definition re_comma_space := Eval vm_compute in re ",\s+".
Definition re_space_semi := Eval vm_compute in re "\s+;".

Definition group (i : nat) (cs : Regex.caps) : str := Js.tpl (Regex.capture i cs).

Definition preprocessCode (code : str) : str * list str :=
  let processed := Regex.replaceAll re_crlf (fun _ _ => Js.nl) code in
  let processed := Js.join Js.nl (map Js.trimEnd (Js.split "010" processed)) in
  let processed := Regex.replaceAll re_space_brace (fun _ cs => group 1 cs ++ " {") processed in
  let processed := Regex.replaceAll re_comma_space (fun _ _ => ", ") processed in
  let processed := Regex.replaceAll re_space_semi (fun _ _ => ";") processed in
  (processed, []).

Definition re_elif := Eval vm_compute in rem "^\s*elif\s+".
Definition re_missing_colon := Eval vm_compute in
  rem "^(\s*(?:if|elif|else|for|while|def|class|try|except|finally|with).+?)(\n)".
Definition re_missing_brace := Eval vm_compute in
  rem "^(\s*(?:function|if|else|for|while|class|try|catch|finally).+?)(\n(?!\s*{))".
Definition re_single_quote := Eval vm_compute in re "(?<!\\)'".
Definition re_semis := Eval vm_compute in re ";;+".
Definition re_oror := Eval vm_compute in re "\|\|".
Definition re_andand := Eval vm_compute in re "&&".

Definition isCommentLine (line : str) : bool :=
  Js.startsWith (Js.trim line) "//" || Js.startsWith (Js.trim line) "#"
  || Js.startsWith (Js.trim line) "/*".

Record Normalized := {
  normalized : str;
  normWarnings : list str
}.

(** The replacement of the missing-colon correction. *)
Definition addColon (m : str) (cs : Regex.caps) : str :=
  let content := group 1 cs in
  let newline := group 2 cs in
  if negb (Js.endsWith (Js.trim content) ":")
     && negb (Js.endsWith (Js.trim content) "{")
     && negb (Js.endsWith (Js.trim content) "else")
  then content ++ ":" ++ newline
  else m.

(** The replacement of the missing-brace correction. *)
Definition addBrace (m : str) (cs : Regex.caps) : str :=
  let content := group 1 cs in
  let newline := group 2 cs in
  if negb (Js.endsWith (Js.trim content) "{")
     && negb (Js.endsWith (Js.trim content) "else")
  then content ++ " {" ++ newline
  else m.

Definition unifyQuotes (line : str) : str :=
  if isCommentLine line then line
  else Regex.replaceAll re_single_quote (fun _ _ => Js.dq) line.

Definition normalizeCode (code : str) : Normalized :=
  let '(preprocessed, prepWarnings) := preprocessCode code in
  let normalized := preprocessed in
  let warnings := prepWarnings in
  let mixed := detectMixedLanguages normalized in
  let warnings :=
    if detected mixed
    then warnings ++ ["Mixed languages detected: " ++ Js.join ", " (languages mixed)
                        ++ ". Normalizing code..."]
    else warnings in
  let normalized := Regex.replaceAll re_elif (fun _ _ => "else if ") normalized in
  let normalized := Regex.replaceAll re_missing_colon addColon normalized in
  let normalized := Regex.replaceAll re_missing_brace addBrace normalized in
  let lines := Js.split "010" normalized in
  let normalized := Js.join Js.nl (map unifyQuotes lines) in
  let normalized := Regex.replaceAll re_semis (fun _ _ => ";") normalized in
  let normalized := Regex.replaceAll re_oror (fun _ _ => "or") normalized in
  let normalized := Regex.replaceAll re_andand (fun _ _ => "and") normalized in
  {| normalized := normalized; normWarnings := warnings |}.


(** ** Language detection *)

Definition re_indented := Eval vm_compute in re "^\s{2,}[a-z]".

(** [scores[key] = (scores[key] || 0) + n] on the score object. *)
Fixpoint bump (key : str) (n : nat) (scores : list (str * nat)) : list (str * nat) :=
  match scores with
  | [] => [(key, n)]
  | (k, v) :: scores' =>
      if Js.eqs k key then (k, v + n) :: scores' else (k, v) :: bump key n scores'
  end.

Definition when (b : bool) (key : str) (n : nat) (scores : list (str * nat)) :=
  if b then bump key n scores else scores.

Definition languageScores (code : str) : list (str * nat) :=
  let code := Js.toLowerCase code in
  let lines := Js.split "010" code in
  let has := Js.includes code in
  let scores := [] in
  let scores := when (has "def ") "python" 3 scores in
  let scores := when (has "import " || has "from ") "python" 2 scores in
  let scores := when (has "print(") "python" 2 scores in
  let scores := when (existsb (Regex.test re_indented) lines) "python" 1 scores in
  let scores := when (has "function " || has "const " || has "let ") "javascript" 3 scores in
  let scores := when (has "console.log") "javascript" 2 scores in
  let scores := when (has ": string" || has ": number" || has "interface ") "typescript" 3 scores in
  let scores := when (has "public class" || has "public static") "java" 3 scores in
  let scores := when (has "#include" || has "std::") "cpp" 3 scores in
  let scores := when (has "package " && has "func ") "go" 3 scores in
  let scores := when (has "fn " && has "let ") "rust" 3 scores in
  let scores := when (has "using " && has "namespace ") "csharp" 3 scores in
  let scores := when (has "<?php" || has "$") "php" 3 scores in
  let scores := when (has "def " && has "end") "ruby" 2 scores in
  scores.

Definition detectLanguage (code : str) : str :=
  match sortDesc (languageScores code) with
  | (lang, _) :: _ => lang
  | [] => "javascript"
  end.

(** ** The rule-substitution engine *)

Definition isOneOf (x : str) (l : list str) : bool := existsb (Js.eqs x) l.

Definition re_py_function := Eval vm_compute in
  re "^(\s*)def\s+(\w+)\s*\((.*?)\)\s*(?:->.*)?:".
Definition re_js_function_def := Eval vm_compute in
  re "^(\s*)(?:async\s+)?function\s+(\w+)\s*\((.*?)\)\s*{".

Definition transformFunctionDef (line source target : str) : str :=
  if Js.eqs source "python" then
    Regex.replaceFirst re_py_function
      (fun _ cs =>
         let indent := group 1 cs in
         let name := group 2 cs in
         let params := group 3 cs in
         match known target with
         | Some javascript | Some typescript =>
             indent ++ "function " ++ name ++ "(" ++ params ++ ") {"
         | Some java => indent ++ "public static Object " ++ name ++ "(" ++ params ++ ") {"
         | Some cpp => indent ++ "void " ++ name ++ "(" ++ params ++ ") {"
         | Some csharp => indent ++ "public static object " ++ name ++ "(" ++ params ++ ") {"
         | Some go => indent ++ "func " ++ name ++ "(" ++ params ++ ") {"
         | Some rust => indent ++ "fn " ++ name ++ "(" ++ params ++ ") {"
         | Some php => indent ++ "function " ++ name ++ "(" ++ params ++ ") {"
         | Some ruby => indent ++ "def " ++ name ++ "(" ++ params ++ ")"
         | _ => line
         end) line
  else if Js.eqs source "javascript" || Js.eqs source "typescript" then
    Regex.replaceFirst re_js_function_def
      (fun _ cs =>
         let indent := group 1 cs in
         let name := group 2 cs in
         let params := group 3 cs in
         match known target with
         | Some python => indent ++ "def " ++ name ++ "(" ++ params ++ "):"
         | Some java => indent ++ "public static Object " ++ name ++ "(" ++ params ++ ") {"
         | Some cpp => indent ++ "void " ++ name ++ "(" ++ params ++ ") {"
         | Some csharp => indent ++ "public static object " ++ name ++ "(" ++ params ++ ") {"
         | Some go => indent ++ "func " ++ name ++ "(" ++ params ++ ") {"
         | Some rust => indent ++ "fn " ++ name ++ "(" ++ params ++ ") {"
         | Some php => indent ++ "function " ++ name ++ "(" ++ params ++ ") {"
         | Some ruby => indent ++ "def " ++ name ++ "(" ++ params ++ ")"
         | _ => line
         end) line
  else line.

Definition re_py_class := Eval vm_compute in re "^(\s*)class\s+(\w+)(?:\((.*?)\))?\s*:".

(** What the class rule writes for a header, and the warning it pushes. *)
Definition classHeader (line target : str) (cs : Regex.caps) : str * list str :=
  let indent := group 1 cs in
  let name := group 2 cs in
  match known target with
  | Some javascript | Some typescript => (indent ++ "class " ++ name ++ " {", [])
  | Some java => (indent ++ "public class " ++ name ++ " {", [])
  | Some cpp => (indent ++ "class " ++ name ++ " {", [])
  | Some csharp => (indent ++ "public class " ++ name ++ " {", [])
  | Some go =>
      (indent ++ "type " ++ name ++ " struct {",
       ["Go does not have classes. Converting to struct." : str])
  | Some rust => (indent ++ "struct " ++ name ++ " {", [])
  | Some php => (indent ++ "class " ++ name ++ " {", [])
  | Some ruby => (indent ++ "class " ++ name, [])
  | None => (line, [])
  | Some python => (line, [])
  end.

(** The rewritten line and the warnings array after the call. *)
Definition transformClassDef (line source target : str) (warnings : list str)
  : str * list str :=
  if Js.eqs source "python" then
    match Regex.search re_py_class [] line with
    | Some (skipped, _, cs, rest) =>
        let '(header, pushed) := classHeader line target cs in
        (skipped ++ header ++ rest, warnings ++ pushed)
    | None => (line, warnings)
    end
  else (line, warnings).

Definition re_py_import_stmt := Eval vm_compute in
  re "^(\s*)(?:from\s+(\S+)\s+)?import\s+([\w\s,.*]+)".

Definition transformImportStatement (line source target : str) : str :=
  if Js.eqs source "python" && Js.includes line "import " then
    Regex.replaceFirst re_py_import_stmt
      (fun _ cs =>
         let indent := group 1 cs in
         let module := Regex.capture 2 cs in
         let names := group 3 cs in
         match known target with
         | Some javascript | Some typescript =>
             indent ++ "import " ++ names ++ " from '" ++ Js.orElse module "module" ++ "';"
         | Some java => indent ++ "import " ++ Js.tpl module ++ ".*;"
         | Some cpp => indent ++ "#include " ++ Js.dq ++ Js.orElse module "module.h" ++ Js.dq
         | Some go => indent ++ "import " ++ Js.dq ++ Js.orElse module "package" ++ Js.dq
         | Some csharp => indent ++ "using " ++ Js.orElse module "Namespace" ++ ";"
         | Some php => indent ++ "require('" ++ Js.orElse module "module" ++ "');"
         | Some ruby => indent ++ "require '" ++ Js.orElse module "module" ++ "'"
         | _ => line
         end) line
  else line.

Definition re_print := Eval vm_compute in re "\bprint\s*\((.*?)\)(?=;|$)".
Definition re_console_log := Eval vm_compute in re "\bconsole\.log\s*\((.*?)\)(?=;|$)".
Definition re_println := Eval vm_compute in re "System\.out\.println\s*\((.*?)\)(?=;|$)".

Definition transformPrintStatement (line source target : str) : str :=
  if Js.eqs source "python" && Js.includes line "print" then
    Regex.replaceAll re_print
      (fun m cs =>
         let args := group 1 cs in
         match known target with
         | Some javascript | Some typescript => "console.log(" ++ args ++ ")"
         | Some java => "System.out.println(" ++ args ++ ")"
         | Some cpp => "std::cout << " ++ args ++ " << std::endl;"
         | Some go => "fmt.Println(" ++ args ++ ")"
         | Some csharp => "Console.WriteLine(" ++ args ++ ");"
         | Some php => "echo " ++ args ++ ";"
         | Some ruby => "puts " ++ args
         | _ => m
         end) line
  else if (Js.eqs source "javascript" || Js.eqs source "typescript")
          && Js.includes line "console.log" then
    Regex.replaceAll re_console_log
      (fun m cs =>
         let args := group 1 cs in
         match known target with
         | Some python => "print(" ++ args ++ ")"
         | Some java => "System.out.println(" ++ args ++ ")"
         | Some cpp => "std::cout << " ++ args ++ " << std::endl;"
         | Some go => "fmt.Println(" ++ args ++ ")"
         | Some csharp => "Console.WriteLine(" ++ args ++ ");"
         | Some php => "echo " ++ args ++ ";"
         | Some ruby => "puts " ++ args
         | _ => m
         end) line
  else if Js.eqs source "java" && Js.includes line "System.out.println" then
    Regex.replaceAll re_println
      (fun m cs =>
         let args := group 1 cs in
         match known target with
         | Some python => "print(" ++ args ++ ")"
         | Some javascript | Some typescript => "console.log(" ++ args ++ ")"
         | Some cpp => "std::cout << " ++ args ++ " << std::endl;"
         | Some go => "fmt.Println(" ++ args ++ ")"
         | Some csharp => "Console.WriteLine(" ++ args ++ ");"
         | Some php => "echo " ++ args ++ ";"
         | Some ruby => "puts " ++ args
         | _ => m
         end) line
  else line.

Definition re_if := Eval vm_compute in re "^(\s*)if\s+\(?(.*?)\)?\s*:?$".
Definition re_trailing_colon := Eval vm_compute in re ":\s*$".

Definition transformConditionals (line source target : str) : str :=
  Regex.replaceFirst re_if
    (fun m cs =>
       let indent := group 1 cs in
       let condition := group 2 cs in
       let cleanCond :=
         Js.trim (Regex.replaceFirst re_trailing_colon (fun _ _ => "") condition) in
       match known target with
       | Some python => indent ++ "if " ++ cleanCond ++ ":"
       | Some javascript | Some typescript => indent ++ "if (" ++ cleanCond ++ ") {"
       | Some java => indent ++ "if (" ++ cleanCond ++ ") {"
       | Some cpp => indent ++ "if (" ++ cleanCond ++ ") {"
       | Some go => indent ++ "if " ++ cleanCond ++ " {"
       | Some csharp => indent ++ "if (" ++ cleanCond ++ ") {"
       | _ => m
       end) line.

Definition re_for_in := Eval vm_compute in re "^(\s*)for\s+(\w+)\s+in\s+([\w.]+)\s*:".

Definition transformLoops (line source target : str) : str :=
  if Js.eqs source "python" then
    Regex.replaceFirst re_for_in
      (fun m cs =>
         let indent := group 1 cs in
         let var_ := group 2 cs in
         let iter := group 3 cs in
         match known target with
         | Some javascript | Some typescript =>
             indent ++ "for (let " ++ var_ ++ " of " ++ iter ++ ") {"
         | Some java => indent ++ "for (var " ++ var_ ++ " : " ++ iter ++ ") {"
         | Some cpp => indent ++ "for (auto " ++ var_ ++ " : " ++ iter ++ ") {"
         | Some go => indent ++ "for " ++ var_ ++ " := range " ++ iter ++ " {"
         | _ => m
         end) line
  else line.

Definition re_assignment := Eval vm_compute in re "^(\s*)(\w+)\s*=\s*(.+)$".

Definition transformVariableDeclaration (line source target : str) : str :=
  Regex.replaceFirst re_assignment
    (fun m cs =>
       let indent := group 1 cs in
       let name := group 2 cs in
       let value := group 3 cs in
       if Js.eqs target "python" then indent ++ name ++ " = " ++ value
       else if isOneOf target ["javascript" : str; "typescript" : str; "java" : str;
                               "cpp" : str; "csharp" : str; "go" : str; "rust" : str;
                               "php" : str] then
         indent ++ (if Js.eqs target "python" then "" else "const " : str)
           ++ name ++ " = " ++ value
           ++ (if Js.eqs target "javascript" || Js.eqs target "typescript"
                  || Js.eqs target "java" || Js.eqs target "csharp"
               then ";" else "" : str)
       else m) line.

Definition re_True := Eval vm_compute in re "\bTrue\b".
Definition re_False := Eval vm_compute in re "\bFalse\b".
Definition re_None := Eval vm_compute in re "\bNone\b".

Definition transformBooleanConstants (line source target : str) : str :=
  if Js.eqs source "python" then
    Regex.replaceAll re_None (fun _ _ => "null")
      (Regex.replaceAll re_False (fun _ _ => "false")
         (Regex.replaceAll re_True (fun _ _ => "true") line))
  else line.

Definition re_and := Eval vm_compute in re "\band\b".
Definition re_or := Eval vm_compute in re "\bor\b".
Definition re_not := Eval vm_compute in re "\bnot\b".

Definition transformOperators (line source target : str) : str :=
  if Js.eqs source "python" && negb (Js.eqs target "python") then
    Regex.replaceAll re_not (fun _ _ => "!")
      (Regex.replaceAll re_or (fun _ _ => "||")
         (Regex.replaceAll re_and (fun _ _ => "&&") line))
  else line.

Definition isEmpty (s : str) : bool :=
  match s with
  | [] => true
  | _ => false
  end.

Definition transformStatementEndings (line source target : str) : str :=
  let needsSemicolon :=
    isOneOf target ["javascript" : str; "typescript" : str; "java" : str; "cpp" : str;
                    "csharp" : str] in
  let pythonStyle := Js.eqs source "python" in
  if needsSemicolon && pythonStyle && negb (Js.endsWith (Js.trim line) ";")
     && negb (Js.endsWith (Js.trim line) "{") && negb (Js.endsWith (Js.trim line) ":")
  then
    if negb (isEmpty (Js.trim line)) && negb (Js.startsWith (Js.trim line) "//")
       && negb (Js.startsWith (Js.trim line) "#")
    then Js.trimEnd line ++ ";"
    else line
  else line.

(** The ten rules in the order the line loop applies them; the class rule
    is the only one that writes to the warnings array. *)
Definition applyRules (line source target : str) : str * list str :=
  let t := transformFunctionDef line source target in
  let '(t, lineWarnings) := transformClassDef t source target [] in
  let t := transformImportStatement t source target in
  let t := transformPrintStatement t source target in
  let t := transformConditionals t source target in
  let t := transformLoops t source target in
  let t := transformVariableDeclaration t source target in
  let t := transformBooleanConstants t source target in
  let t := transformOperators t source target in
  let t := transformStatementEndings t source target in
  (t, lineWarnings).

Definition transformLine (line source target : str) (lineNumber : nat)
  : LineTransformation :=
  let content := Js.trim line in
  if isEmpty content || Js.startsWith content "//" || Js.startsWith content "#"
     || Js.startsWith content "/*"
  then {| original := line; transformed := line; lineWarnings := [];
          lineNumber := lineNumber; changeType := unchanged |}
  else
    let '(transformed, lineWarnings) := applyRules line source target in
    let changed_ := negb (Js.eqs transformed line) in
    {| original := line; transformed := transformed; lineWarnings := lineWarnings;
       lineNumber := lineNumber;
       changeType := if negb ((0 =? List.length lineWarnings)) then warning
                     else if changed_ then changed else unchanged |}.

(** ** Line diff *)

Record LineChange := {
  type : ChangeType;
  source : str;
  translated : str
}.

(** Truthiness of [lines[i]]: defined and not empty. *)
Definition truthy (o : option str) : bool :=
  match o with
  | Some (_ :: _) => true
  | _ => false
  end.

Definition sameAs (s : str) (o : option str) : bool :=
  match o with
  | Some t => Js.eqs s t
  | None => false
  end.

Fixpoint mapi {A B} (f : A -> nat -> B) (l : list A) (i : nat) : list B :=
  match l with
  | [] => []
  | x :: l' => f x i :: mapi f l' (S i)
  end.

Definition calculateLineChanges (sourceCode translatedCode : str) : list LineChange :=
  let sourceLines := Js.split "010" sourceCode in
  let translatedLines := Js.split "010" translatedCode in
  mapi (fun source i =>
          {| type :=
               if isEmpty source && truthy (nth_error translatedLines i) then added
               else if negb (isEmpty source) && negb (truthy (nth_error translatedLines i))
               then removed
               else if sameAs source (nth_error translatedLines i) then unchanged
               else changed;
             source := source;
             translated := Js.orElse (nth_error translatedLines i) "" |})
       sourceLines 0.

(** ** Structure tree *)

Definition nodeTypeOf (content : str) : NodeType :=
  if Js.startsWith content "function" || Js.startsWith content "def"
     || Js.startsWith content "fn" then TFunction
  else if Js.startsWith content "class" then TClass
  else if Js.startsWith content "if" then TIf
  else if Js.startsWith content "for" || Js.startsWith content "while" then TFor
  else if Js.startsWith content "import" then TImport
  else if Js.startsWith content "//" || Js.startsWith content "#" then TComment
  else TStatement.

(** The builder's variables: the node store, the top-level array and the
    stack of open nodes (top first). *)
Record Builder := {
  b_store : list ASTNode;
  b_nodes : list nat;
  b_stack : list nat
}.

(** [while (stack.length > 0 && stack[stack.length - 1].lineEnd < idx - 1)
    stack.pop()]. *)
Fixpoint popClosed (store : list ASTNode) (stack : list nat) (idx : nat)
  : Js.JsResult (list nat) :=
  match stack with
  | [] => Js.Ok []
  | top :: stack' =>
      match nth_error store top with
      | None => Js.Throw Js.TypeError
      | Some node =>
          if (Z.of_nat (lineEnd node) <? Z.of_nat idx - 1)%Z
          then popClosed store stack' idx
          else Js.Ok stack
      end
  end.

(** [node.children.push(child)] on the stored node. *)
Fixpoint pushChild (store : list ASTNode) (parent child : nat) : list ASTNode :=
  match store, parent with
  | [], _ => []
  | n :: store', O =>
      {| nodeType := nodeType n; content := content n; lineStart := lineStart n;
         lineEnd := lineEnd n; children := children n ++ [child];
         language := language n |} :: store'
  | n :: store', S parent' => n :: pushChild store' parent' child
  end.

Definition opensBlock (type : NodeType) (content : str) : bool :=
  match type with
  | TFunction | TClass | TIf => true
  | TFor => Js.endsWith content "{" || Js.endsWith content ":"
  | _ => false
  end.

Definition visitLine (language : str) (b : Builder) (line : str) (idx : nat)
  : Js.JsResult Builder :=
  let content := Js.trim line in
  if isEmpty content then Js.Ok b
  else
    let type := nodeTypeOf content in
    let node := {| nodeType := type; content := content; lineStart := idx;
                   lineEnd := idx; children := []; language := language |} in
    let id := List.length (b_store b) in
    let store := b_store b ++ [node] in
    stack <- popClosed store (b_stack b) idx ;;
    let '(store, nodes) :=
      match stack with
      | top :: _ => (pushChild store top id, b_nodes b)
      | [] => (store, b_nodes b ++ [id])
      end in
    let stack := if opensBlock type content then id :: stack else stack in
    Js.Ok {| b_store := store; b_nodes := nodes; b_stack := stack |}.

Fixpoint visitLines (language : str) (b : Builder) (lines : list str) (idx : nat)
  : Js.JsResult Builder :=
  match lines with
  | [] => Js.Ok b
  | line :: lines' =>
      b' <- visitLine language b line idx ;;
      visitLines language b' lines' (S idx)
  end.

Definition buildAST (code language : str) : Js.JsResult AST :=
  let lines := Js.split "010" code in
  b <- visitLines language {| b_store := []; b_nodes := []; b_stack := [] |} lines 0 ;;
  Js.Ok {| store := b_store b; roots := b_nodes b |}.

(** ** Post-processing *)

Definition re_open := Eval vm_compute in re "{".
Definition re_close := Eval vm_compute in re "}".
Definition re_newline_brace := Eval vm_compute in re "\n\s*{".
Definition re_semi_eol := Eval vm_compute in rem ";$".

Definition braceLanguages : list str :=
  ["javascript" : str; "typescript" : str; "java" : str; "cpp" : str; "csharp" : str;
   "go" : str; "rust" : str].

(** [lines.splice(i, 1)]. *)
Fixpoint splice1 (i : nat) (lines : list str) : list str :=
  match lines, i with
  | [], _ => []
  | _ :: lines', O => lines'
  | l :: lines', S i' => l :: splice1 i' lines'
  end.

(** The loop that drops closer-only lines from the end: [n] is [i + 1]. *)
Fixpoint removeExtra (n : nat) (lines : list str) (removed excess : Z)
  : Js.JsResult (list str) :=
  match n with
  | O => Js.Ok lines
  | S i =>
      if (removed <? excess)%Z then
        match nth_error lines i with
        | None => Js.Throw Js.TypeError
        | Some l =>
            if Js.eqs (Js.trim l) "}"
            then removeExtra i (splice1 i lines) (removed + 1)%Z excess
            else removeExtra i lines removed excess
        end
      else Js.Ok lines
  end.

Definition balanceBraces (processed : str) : Js.JsResult str :=
  let openBraces := Z.of_nat (Regex.countMatches re_open processed) in
  let closeBraces := Z.of_nat (Regex.countMatches re_close processed) in
  if (closeBraces <? openBraces)%Z then
    let missingCount := (openBraces - closeBraces)%Z in
    closers <- Js.repeat "}" missingCount ;;
    Js.Ok (processed ++ Js.nl ++ closers)
  else if (openBraces <? closeBraces)%Z then
    let lines := Js.split "010" processed in
    lines <- removeExtra (List.length lines) lines 0 (closeBraces - openBraces)%Z ;;
    Js.Ok (Js.join Js.nl lines)
  else Js.Ok processed.

(** The indentation pass; [inBlock] is the nesting level so far. *)
Fixpoint reindent (lines : list str) (inBlock : Z) : Js.JsResult (list str) :=
  match lines with
  | [] => Js.Ok []
  | line :: lines' =>
      let trimmed := Js.trim line in
      if isEmpty trimmed then
        rest <- reindent lines' inBlock ;;
        Js.Ok ([] :: rest)
      else
        let inBlock :=
          if Js.startsWith trimmed "}" || Js.startsWith trimmed "end"
          then Z.max 0 (inBlock - 1) else inBlock in
        indent <- Js.repeat "  " inBlock ;;
        let result := indent ++ trimmed in
        let inBlock :=
          if Js.endsWith trimmed "{" || Js.endsWith trimmed ":" || Js.eqs trimmed "do"
          then (inBlock + 1)%Z else inBlock in
        rest <- reindent lines' inBlock ;;
        Js.Ok (result :: rest)
  end.

Definition postProcessCode (code targetLang : str) : Js.JsResult str :=
  let processed := code in
  processed <-
    (if isOneOf targetLang braceLanguages then
       processed <- balanceBraces processed ;;
       Js.Ok (Regex.replaceAll re_newline_brace (fun _ _ => " {") processed)
     else Js.Ok processed) ;;
  let processed :=
    if Js.eqs targetLang "python" then
      let processed := Regex.replaceAll re_semi_eol (fun _ _ => "") processed in
      Js.join Js.nl (map (fun line => line) (Js.split "010" processed))
    else processed in
  let processed :=
    if Js.eqs targetLang "ruby" then
      Regex.replaceAll re_semi_eol (fun _ _ => "")
        (Regex.replaceAll re_close (fun _ _ => "")
           (Regex.replaceAll re_open (fun _ _ => "") processed))
    else processed in
  let processed :=
    if Js.eqs targetLang "go" then
      if negb (Js.includes processed "package ")
      then "package main" ++ Js.nl ++ Js.nl ++ processed
      else processed
    else processed in
  lines <- reindent (Js.split "010" processed) 0 ;;
  Js.Ok (Js.join Js.nl lines).

(** ** The orchestrator *)

(** [allWarnings.add(w)] on a set kept in insertion order. *)
Definition setAdd (w : str) (set : list str) : list str :=
  if existsb (Js.eqs w) set then set else set ++ [w].

Definition addAll (ws : list str) (set : list str) : list str :=
  fold_left (fun set w => setAdd w set) ws set.

(** [s.toLowerCase() || 'javascript']. *)
Definition languageOf (lang : str) : str :=
  Js.orElse (Some (Js.toLowerCase lang)) "javascript".

Definition countIf {A} (f : A -> bool) (l : list A) : nat := List.length (filter f l).

(** The line loop: the transformed lines, numbered from 0. *)
Definition transformLines (lines : list str) (source target : str)
  : list LineTransformation :=
  mapi (fun line i => transformLine line source target i) lines 0.

(** The text handed to the post-processor. *)
Definition rewrittenText (code source target : str) : str :=
  let lines := Js.split "010" (normalized (normalizeCode code)) in
  Js.join Js.nl (map transformed (transformLines lines source target)).

Definition isUnchanged (c : ChangeType) : bool :=
  match c with
  | unchanged => true
  | _ => false
  end.

Definition transformCode (code sourceLang targetLang : str)
  : Js.JsResult TransformationResult :=
  let source := languageOf sourceLang in
  let target := languageOf targetLang in
  if Js.eqs source target then
    let lines := Js.split "010" code in
    ast <- buildAST code source ;;
    Js.Ok {| code := code;
             lines := mapi (fun line idx =>
                              {| original := line; transformed := line;
                                 lineWarnings := []; lineNumber := idx;
                                 changeType := unchanged |}) lines 0;
             warnings := [];
             errors := [];
             statistics := {| functionsDetected := 0; classesDetected := 0;
                              importsDetected := 0; linesTransformed := 0;
                              mixedLanguageDetected := false;
                              normalizationApplied := false |};
             ast := ast |}
  else
    let mixedDetection := detectMixedLanguages code in
    let norm := normalizeCode code in
    let normalizationApplied :=
      detected mixedDetection || (0 <? List.length (normWarnings norm)) in
    let lines := Js.split "010" (normalized norm) in
    let allWarnings := addAll (normWarnings norm) [] in
    let transformedLines := transformLines lines source target in
    let statsFunc :=
      countIf (fun line => Js.includes line "def " || Js.includes line "function ") lines in
    let statsClass := countIf (fun line => Js.includes line "class ") lines in
    let statsImport := countIf (fun line => Js.includes line "import ") lines in
    let allWarnings :=
      fold_left (fun set l => addAll (lineWarnings l) set) transformedLines allWarnings in
    let finalCode := Js.join Js.nl (map transformed transformedLines) in
    cleanedCode <- postProcessCode finalCode target ;;
    ast <- buildAST cleanedCode target ;;
    Js.Ok {| code := cleanedCode;
             lines := transformedLines;
             warnings := allWarnings;
             errors := [];
             statistics :=
               {| functionsDetected := statsFunc; classesDetected := statsClass;
                  importsDetected := statsImport;
                  linesTransformed :=
                    countIf (fun l => negb (isUnchanged (changeType l))) transformedLines;
                  mixedLanguageDetected := detected mixedDetection;
                  normalizationApplied := normalizationApplied |};
             ast := ast |}.

(** ** The older string-returning transformer *)
Module Legacy.

Record TransformationRule := {
  pattern : Regex.regex;
  replacement : str -> Regex.caps -> str
}.

Definition rule (pattern : Regex.regex) (replacement : str -> Regex.caps -> str) :=
  {| pattern := pattern; replacement := replacement |}.

(** A replacement given as a constant string (none of them holds a [$]). *)
Definition const (s : str) : str -> Regex.caps -> str := fun _ _ => s.

Definition p_def := Eval vm_compute in rem "^(\s*)def\s+(\w+)\s*\((.*?)\):".
Definition p_class := Eval vm_compute in rem "^(\s*)class\s+(\w+)(\(.*?\))?:".
Definition p_if := Eval vm_compute in rem "^(\s*)if\s+(.*?):".
Definition p_elif := Eval vm_compute in rem "^(\s*)elif\s+(.*?):".
Definition p_else := Eval vm_compute in rem "^(\s*)else:".
Definition p_for := Eval vm_compute in rem "^(\s*)for\s+(\w+)\s+in\s+(.*?):".
Definition p_while := Eval vm_compute in rem "^(\s*)while\s+(.*?):".
Definition p_assign := Eval vm_compute in rem "^(\s*)(.*?)=".
Definition p_print := Eval vm_compute in re "print\s*\((.*?)\)".
Definition p_import := Eval vm_compute in re "import\s+(\w+)".
Definition p_from_import := Eval vm_compute in re "from\s+(\w+)\s+import\s+(.*)".
Definition p_True := Eval vm_compute in re "True".
Definition p_False := Eval vm_compute in re "False".
Definition p_None := Eval vm_compute in re "None".
Definition p_and := Eval vm_compute in re "and\s+".
Definition p_or := Eval vm_compute in re "or\s+".
Definition p_not := Eval vm_compute in re "not\s+".
Definition p_len := Eval vm_compute in re "len\s*\(".
Definition p_reverse := Eval vm_compute in re "\[\s*:\s*-?1\s*\]".

Definition PYTHON_TO_OTHER : list (str * list TransformationRule) :=
  [("javascript" : str,
    [rule p_def (fun _ cs => group 1 cs ++ "function " ++ group 2 cs ++ "(" ++ group 3 cs ++ ") {");
     rule p_class (fun _ cs => group 1 cs ++ "class " ++ group 2 cs ++ " {");
     rule p_if (fun _ cs => group 1 cs ++ "if (" ++ group 2 cs ++ ") {");
     rule p_elif (fun _ cs => group 1 cs ++ "} else if (" ++ group 2 cs ++ ") {");
     rule p_else (fun _ cs => group 1 cs ++ "} else {");
     rule p_for (fun _ cs => group 1 cs ++ "for (let " ++ group 2 cs ++ " of " ++ group 3 cs ++ ") {");
     rule p_while (fun _ cs => group 1 cs ++ "while (" ++ group 2 cs ++ ") {");
     rule p_assign (fun _ cs => group 1 cs ++ group 2 cs ++ ";");
     rule p_print (fun _ cs => "console.log(" ++ group 1 cs ++ ")");
     rule p_import (fun _ cs => "import " ++ group 1 cs);
     rule p_from_import (fun _ cs => "import { " ++ group 2 cs ++ " } from '" ++ group 1 cs ++ "'");
     rule p_True (const "true");
     rule p_False (const "false");
     rule p_None (const "null");
     rule p_and (const " && ");
     rule p_or (const " || ");
     rule p_not (const "!");
     rule p_len (const ".length");
     rule p_reverse (const ".reverse()")]);
   ("java" : str,
    [rule p_def (fun _ cs => group 1 cs ++ "public static Object " ++ group 2 cs ++ "(" ++ group 3 cs ++ ") {");
     rule p_class (fun _ cs => group 1 cs ++ "public class " ++ group 2 cs ++ " {");
     rule p_if (fun _ cs => group 1 cs ++ "if (" ++ group 2 cs ++ ") {");
     rule p_for (fun _ cs => group 1 cs ++ "for (Object " ++ group 2 cs ++ " : " ++ group 3 cs ++ ") {");
     rule p_print (fun _ cs => "System.out.println(" ++ group 1 cs ++ ")");
     rule p_True (const "true");
     rule p_False (const "false");
     rule p_None (const "null")]);
   ("cpp" : str,
    [rule p_def (fun _ cs => group 1 cs ++ "void " ++ group 2 cs ++ "(" ++ group 3 cs ++ ") {");
     rule p_class (fun _ cs => group 1 cs ++ "class " ++ group 2 cs ++ " {");
     rule p_print (fun _ cs => "std::cout << " ++ group 1 cs ++ " << std::endl");
     rule p_True (const "true");
     rule p_False (const "false")])].

Definition p_function := Eval vm_compute in rem "function\s+(\w+)\s*\((.*?)\)\s*\{".
Definition p_const := Eval vm_compute in re "const\s+(\w+)\s*=".
Definition p_let := Eval vm_compute in re "let\s+(\w+)\s*=".
Definition p_if_paren := Eval vm_compute in rem "if\s*\((.*?)\)\s*\{".
Definition p_else_if := Eval vm_compute in rem "else\s*if\s*\((.*?)\)\s*\{".
Definition p_else_brace := Eval vm_compute in rem "else\s*\{".
Definition p_for_of := Eval vm_compute in rem "for\s*\(\s*let\s+(\w+)\s+of\s+(.*?)\)\s*\{".
Definition p_while_paren := Eval vm_compute in rem "while\s*\((.*?)\)\s*\{".
Definition p_console_log := Eval vm_compute in re "console\.log\s*\((.*?)\)".
Definition p_import_names := Eval vm_compute in
  re ("import\s+\{\s*(.*?)\s*\}\s+from\s+['" ++ Js.dq ++ "]([^'" ++ Js.dq ++ "]+)['"
        ++ Js.dq ++ "]").
Definition p_import_default := Eval vm_compute in
  re ("import\s+(\w+)\s+from\s+['" ++ Js.dq ++ "]([^'" ++ Js.dq ++ "]+)['" ++ Js.dq ++ "]").
Definition p_closer := Eval vm_compute in rem "\}\s*(?=\n|$)".
Definition p_true := Eval vm_compute in re "true".
Definition p_false := Eval vm_compute in re "false".
Definition p_null := Eval vm_compute in re "null".
Definition p_andand := Eval vm_compute in re "&&".
Definition p_oror := Eval vm_compute in re "\|\|".
Definition p_bang := Eval vm_compute in re "!".
Definition p_length := Eval vm_compute in re "\.length".

Definition JAVASCRIPT_TO_OTHER : list (str * list TransformationRule) :=
  [("python" : str,
    [rule p_function (fun _ cs => "def " ++ group 1 cs ++ "(" ++ group 2 cs ++ "):");
     rule p_const (fun _ cs => group 1 cs ++ " =");
     rule p_let (fun _ cs => group 1 cs ++ " =");
     rule p_if_paren (fun _ cs => "if " ++ group 1 cs ++ ":");
     rule p_else_if (fun _ cs => "elif " ++ group 1 cs ++ ":");
     rule p_else_brace (const "else:");
     rule p_for_of (fun _ cs => "for " ++ group 1 cs ++ " in " ++ group 2 cs ++ ":");
     rule p_while_paren (fun _ cs => "while " ++ group 1 cs ++ ":");
     rule p_console_log (fun _ cs => "print(" ++ group 1 cs ++ ")");
     rule p_import_names (fun _ cs => "from " ++ group 2 cs ++ " import " ++ group 1 cs);
     rule p_import_default (fun _ cs => "import " ++ group 1 cs);
     rule p_closer (const "");
     rule p_true (const "True");
     rule p_false (const "False");
     rule p_null (const "None");
     rule p_andand (const "and");
     rule p_oror (const "or");
     rule p_bang (const "not ");
     rule p_length (const " len()")]);
   ("java" : str,
    [rule p_function (fun _ cs => "public static Object " ++ group 1 cs ++ "(" ++ group 2 cs ++ ") {");
     rule p_const (fun _ cs => "Object " ++ group 1 cs ++ " =");
     rule p_console_log (fun _ cs => "System.out.println(" ++ group 1 cs ++ ")");
     rule p_true (const "true");
     rule p_false (const "false")]);
   ("cpp" : str,
    [rule p_function (fun _ cs => "void " ++ group 1 cs ++ "(" ++ group 2 cs ++ ") {");
     rule p_const (fun _ cs => "auto " ++ group 1 cs ++ " =");
     rule p_console_log (fun _ cs => "std::cout << " ++ group 1 cs ++ " << std::endl;")])].

Definition p_method := Eval vm_compute in
  rem "public\s+static\s+\w+\s+(\w+)\s*\((.*?)\)\s*\{".
Definition p_for_each := Eval vm_compute in
  rem "for\s*\(\s*\w+\s+(\w+)\s*:\s*(.*?)\)\s*\{".
Definition p_println := Eval vm_compute in re "System\.out\.println\s*\((.*?)\)".

Definition JAVA_TO_OTHER : list (str * list TransformationRule) :=
  [("python" : str,
    [rule p_method (fun _ cs => "def " ++ group 1 cs ++ "(" ++ group 2 cs ++ "):");
     rule p_if_paren (fun _ cs => "if " ++ group 1 cs ++ ":");
     rule p_for_each (fun _ cs => "for " ++ group 1 cs ++ " in " ++ group 2 cs ++ ":");
     rule p_println (fun _ cs => "print(" ++ group 1 cs ++ ")");
     rule p_true (const "True");
     rule p_false (const "False");
     rule p_null (const "None")]);
   ("javascript" : str,
    [rule p_method (fun _ cs => "function " ++ group 1 cs ++ "(" ++ group 2 cs ++ ") {");
     rule p_if_paren (fun _ cs => "if (" ++ group 1 cs ++ ") {");
     rule p_for_each (fun _ cs => "for (let " ++ group 1 cs ++ " of " ++ group 2 cs ++ ") {");
     rule p_println (fun _ cs => "console.log(" ++ group 1 cs ++ ")")])].

Definition p_void := Eval vm_compute in rem "void\s+(\w+)\s*\((.*?)\)\s*\{".
Definition p_cout := Eval vm_compute in re "std::cout\s*<<\s*(.*?)\s*<<\s*std::endl;?".

Definition CPP_TO_OTHER : list (str * list TransformationRule) :=
  [("python" : str,
    [rule p_void (fun _ cs => "def " ++ group 1 cs ++ "(" ++ group 2 cs ++ "):");
     rule p_cout (fun _ cs => "print(" ++ group 1 cs ++ ")");
     rule p_if_paren (fun _ cs => "if " ++ group 1 cs ++ ":")]);
   ("javascript" : str,
    [rule p_void (fun _ cs => "function " ++ group 1 cs ++ "(" ++ group 2 cs ++ ") {");
     rule p_cout (fun _ cs => "console.log(" ++ group 1 cs ++ ")")])].

(** The table by source language. Keys are looked up among the keys
    written in the table; names an object inherits ([constructor],
    [__proto__]) are not language names and are not modelled. *)
Definition transformationMap : list (str * list (str * list TransformationRule)) :=
  [("python" : str, PYTHON_TO_OTHER);
   ("javascript" : str, JAVASCRIPT_TO_OTHER);
   ("typescript" : str, JAVASCRIPT_TO_OTHER);
   ("java" : str, JAVA_TO_OTHER);
   ("cpp" : str, CPP_TO_OTHER);
   ("c++" : str, CPP_TO_OTHER)].

Fixpoint lookup {A} (key : str) (table : list (str * A)) : option A :=
  match table with
  | [] => None
  | (k, v) :: table' => if Js.eqs k key then Some v else lookup key table'
  end.

(** [transformationMap[source]?.[target]]. *)
Definition rulesFor (source target : str) : option (list TransformationRule) :=
  match lookup source transformationMap with
  | Some byTarget => lookup target byTarget
  | None => None
  end.

Definition transformCode (sourceCode sourceLanguage targetLanguage : str) : str :=
  let source := Js.toLowerCase sourceLanguage in
  let target := Js.toLowerCase targetLanguage in
  if Js.eqs source target then sourceCode
  else
    match rulesFor source target with
    | None =>
        "// Translation from " ++ sourceLanguage ++ " to " ++ targetLanguage
          ++ " not fully supported yet" ++ Js.nl
          ++ "// Please manually review the converted code" ++ Js.nl ++ Js.nl
          ++ sourceCode
    | Some rules =>
        let transformed :=
          fold_left (fun t r => Regex.replaceAll (pattern r) (replacement r) t)
                    rules sourceCode in
        Js.join Js.nl (map Js.trimEnd (Js.split "010" transformed))
    end.

End Legacy.


(** ** The language guess of the older transformer *)
Module LegacyDetection.

Definition re_indented_line := Eval vm_compute in rem "^[ ]{2,}\S".

(** The first test that holds decides. *)
Definition detectLanguage (code : str) : str :=
  let code := Js.toLowerCase code in
  let has := Js.includes code in
  if has "def " || has "import " || Regex.test re_indented_line code then "python"
  else if has "function" || has "const " || has "let " then "javascript"
  else if has "public class" || has "private void" || has "System.out" then "java"
  else if has "#include" || has "std::" then "cpp"
  else if has "func " || has ":= " then "go"
  else if has "fn " || has "fn main" then "rust"
  else "javascript".

End LegacyDetection.

(** ** The second transformer: language guess, outline and line diff *)
Module Comprehensive.

Definition re_indent_lower := Eval vm_compute in re "^[ ]{2,}[a-z]".

Definition detectLanguage (code : str) : str :=
  let code := Js.toLowerCase code in
  let lines := Js.split "010" code in
  let has := Js.includes code in
  if has "def " || has "import " || has "from "
     || existsb (Regex.test re_indent_lower) lines then "python"
  else if has "package " && has "func " then "go"
  else if has "fn " && has "let " then "rust"
  else if has "#include" || has "std::" then "cpp"
  else if has "public class" || has "public static" then "java"
  else if has "using " && has "namespace " then "csharp"
  else if has ": string" || has ": number" || has "interface " then "typescript"
  else if has "<?php" || has "$" then "php"
  else if has "def " && has "end" then "ruby"
  else "javascript".

Inductive CodeNodeType :=
| NFunction | NClass | NIf | NFor | NWhile | NImport | NVariable | NStatement.

#[local] Unset Elimination Schemes.
Inductive CodeNode :=
| Node (type : CodeNodeType) (name : option str) (content : str)
       (lineStart lineEnd : nat) (children : list CodeNode).
#[local] Set Elimination Schemes.

Definition type (n : CodeNode) : CodeNodeType :=
  match n with Node t _ _ _ _ _ => t end.
Definition name (n : CodeNode) : option str :=
  match n with Node _ x _ _ _ _ => x end.
Definition content (n : CodeNode) : str :=
  match n with Node _ _ c _ _ _ => c end.
Definition lineStart (n : CodeNode) : nat :=
  match n with Node _ _ _ s _ _ => s end.
Definition lineEnd (n : CodeNode) : nat :=
  match n with Node _ _ _ _ e _ => e end.
Definition children (n : CodeNode) : list CodeNode :=
  match n with Node _ _ _ _ _ cs => cs end.

Definition re_name := Eval vm_compute in re "(?:function|def|class)\s+(\w+)".

(** [match?.[1] || 'unknown']. *)
Definition extractName (line : str) : str :=
  match Regex.search re_name [] line with
  | Some (_, _, cs, _) => Js.orElse (Regex.capture 1 cs) "unknown"
  | None => "unknown"
  end.

(** What the loop pushes to the root for line [i]. *)
Definition childrenAt (line : str) (i : nat) : list CodeNode :=
  let line := Js.trim line in
  (if Js.includes line "function " || Js.includes line "def "
   then [Node NFunction (Some (extractName line)) line i (i + 1) []] else [])
  ++ (if Js.includes line "class "
      then [Node NClass (Some (extractName line)) line i (i + 1) []] else []).

Definition parseToAST (code language : str) : CodeNode :=
  let lines := Js.split "010" code in
  Node NStatement None code 0 (List.length lines) (concat (mapi childrenAt lines 0)).

Inductive LineKind := normal | changed | warning.

Record LineChange := {
  kind : LineKind;
  text : str
}.

Definition calculateLineChanges (original transformed : str) : list LineChange :=
  let origLines := Js.split "010" original in
  let transLines := Js.split "010" transformed in
  let maxLen := Nat.max (List.length origLines) (List.length transLines) in
  map (fun i =>
         let origLine := Js.orElse (nth_error origLines i) "" in
         let transLine := Js.orElse (nth_error transLines i) "" in
         if Js.eqs origLine transLine
         then {| kind := normal; text := transLine |}
         else {| kind := changed; text := transLine |})
      (seq 0 maxLen).

End Comprehensive.

(** ** The diff view *)
Module DiffViewer.

(** [lineChanges[i]?.type || 'unchanged']. *)
Definition typeAt (lineChanges : list LineChange) (i : nat) : ChangeType :=
  match nth_error lineChanges i with
  | Some c => type c
  | None => unchanged
  end.

Record DiffLine := {
  type : ChangeType;
  sourceLine : str;
  translatedLine : str;
  lineNumber : nat
}.

(** One round of the loop: what it pushes for index [i]. *)
Definition diffAt (sourceLines translatedLines : list str)
    (lineChanges : list LineChange) (i : nat) : list DiffLine :=
  let sourceLine := Js.orElse (nth_error sourceLines i) "" in
  let translatedLine := Js.orElse (nth_error translatedLines i) "" in
  let changeType := typeAt lineChanges i in
  if isEmpty sourceLine && negb (isEmpty translatedLine) then
    [{| type := added; sourceLine := ""; translatedLine := translatedLine;
        lineNumber := i + 1 |}]
  else if negb (isEmpty sourceLine) && isEmpty translatedLine then
    [{| type := removed; sourceLine := sourceLine; translatedLine := "";
        lineNumber := i + 1 |}]
  else if Js.eqs sourceLine translatedLine then
    [{| type := unchanged; sourceLine := sourceLine; translatedLine := translatedLine;
        lineNumber := i + 1 |}]
  else
    [{| type := removed; sourceLine := sourceLine; translatedLine := "";
        lineNumber := i + 1 |};
     {| type := added; sourceLine := ""; translatedLine := translatedLine;
        lineNumber := i + 1 |}].

Definition computeDiff (source translated : str) : list DiffLine :=
  let sourceLines := Js.split "010" source in
  let translatedLines := Js.split "010" translated in
  let lineChanges := calculateLineChanges source translated in
  let maxLength := Nat.max (List.length sourceLines) (List.length translatedLines) in
  flat_map (diffAt sourceLines translatedLines lineChanges) (seq 0 maxLength).

Definition isAdded (d : DiffLine) : bool :=
  match type d with added => true | _ => false end.
Definition isRemoved (d : DiffLine) : bool :=
  match type d with removed => true | _ => false end.

(** The counters [added], [removed] and [unchanged] of the header. *)
Definition stats (diffs : list DiffLine) : nat * nat * nat :=
  fold_left (fun '(a, r, u) d =>
               if isAdded d then (a + 1, r, u)
               else if isRemoved d then (a, r + 1, u)
               else (a, r, u + 1))
            diffs (0, 0, 0).

End DiffViewer.

(** ** The translate endpoint *)
Module Route.

Definition chunkSize : nat := 50.

(** [s.slice(a, b)] for indices that are not negative. *)
Definition slice (s : str) (a b : nat) : str := firstn (b - a) (skipn a s).

(** What is enqueued on the stream: a delta with the text so far, or the
    completion signal. *)
Inductive Event :=
| Delta (delta fullText : str)
| Done.

(** [sendChunk] re-arms itself until the index has passed the end of the
    text; [fuel] bounds the number of calls. *)
Fixpoint sendChunk (fuel : nat) (result : TransformationResult) (index : nat)
  : option (list Event) :=
  match fuel with
  | O => None
  | S fuel' =>
      if index <? List.length (code result) then
        let chunk := slice (code result) index (index + chunkSize) in
        let index := index + chunkSize in
        match sendChunk fuel' result index with
        | Some events => Some (Delta chunk (slice (code result) 0 index) :: events)
        | None => None
        end
      else Some [Done]
  end.

Definition start (result : TransformationResult) : option (list Event) :=
  sendChunk (S (List.length (code result))) result 0.



End Route.

(** ** Warnings shown as issues *)
Module ErrorHighlighter.

Inductive Severity := SError | SWarning | SInfo.

Record CodeError := {
  lineNumber : nat;
  severity : Severity;
  message : str;
  suggestion : option str
}.

Definition classify (warning : str) : CodeError :=
  if Js.includes warning "Mixed languages" then
    {| lineNumber := 1; severity := SWarning;
       message := "Mixed language code detected";
       suggestion := Some ("Code appears to mix multiple programming languages. Check normalization." : str) |}
  else if Js.includes warning "does not have classes" then
    {| lineNumber := 1; severity := SInfo;
       message := "Language feature conversion";
       suggestion := Some warning |}
  else if Js.includes warning "Normalizing" then
    {| lineNumber := 1; severity := SInfo;
       message := "Code normalization applied";
       suggestion := Some warning |}
  else
    {| lineNumber := 1; severity := SWarning; message := warning; suggestion := None |}.

Definition extractErrorsFromWarnings (warnings : list str) : list CodeError :=
  map classify warnings.

End ErrorHighlighter.


(** ** Vocabulary of the statements *)

(** The number of occurrences of a unit in a text. *)
Definition occ (c : ascii) (s : str) : nat := count_occ ascii_dec s c.

(** The same, summed over lines. *)
Definition occs (c : ascii) (ls : list str) : nat := list_sum (map (occ c) ls).

(** A line that holds a closing brace and white space only. *)
Definition loneCloser (line : str) : bool := Js.eqs (Js.trim line) "}".

(** The number of such lines in a text. *)
Definition loneClosers (s : str) : nat := countIf loneCloser (Js.split "010" s).

(** What a continuation is owed once a text [u] of [L] was consumed. *)
Definition owes (L : str -> Prop) (before after : str) (k : Regex.cont)
    (o : Regex.outcome) : Prop :=
  exists u rest cs, after = u ++ rest /\ L u /\ k (rev u ++ before) rest cs = Some o.

(** Every open node of the tree builder is in the store. *)
Definition stored (store : list ASTNode) (stack : list nat) : Prop :=
  Forall (fun id => id < List.length store) stack.

(** The scenario texts. *)
Definition greet_py : str := "def greet(name):" ++ Js.nl ++ "    print(name)".

Definition greet_js : str :=
  "function greet(name) {" ++ Js.nl ++ "  console.log(name);" ++ Js.nl ++ "}".

Definition big_small_py : str :=
  "if x > 5:" ++ Js.nl ++ "    print(" ++ Js.dq ++ "big" ++ Js.dq ++ ")" ++ Js.nl
  ++ "else:" ++ Js.nl ++ "    print(" ++ Js.dq ++ "small" ++ Js.dq ++ ")".

(** What the orchestrator returns for [big_small_py], Python to JavaScript. *)
Definition big_small_out : str :=
  "if (x > 5: {) {" ++ Js.nl
  ++ "  console.log(" ++ Js.dq ++ "big" ++ Js.dq ++ ");" ++ Js.nl
  ++ "  else: {" ++ Js.nl
  ++ "    console.log(" ++ Js.dq ++ "small" ++ Js.dq ++ ");" ++ Js.nl
  ++ "  }}}".

(** ** Vocabulary of the further properties *)

(** A text of white space only. *)
Definition blank (s : str) : Prop := forallb Js.isSpace s = true.

(** A text without line break. *)
Definition oneLine (l : str) : Prop := ~ In "010"%char l.

(** A text that is not empty and has no white space at either end. *)
Definition tidy (t : str) : Prop := t <> [] /\ Js.trim t = t.

(** [lines[i] || '']. *)
Definition lineAt (lines : list str) (i : nat) : str := Js.orElse (nth_error lines i) "".

(** Truthiness of a string. *)
Definition nonEmpty (l : str) : bool := negb (isEmpty l).

(** An entry of the diff view whose type agrees with its texts. *)
Definition coherent (d : DiffViewer.DiffLine) : Prop :=
  (DiffViewer.type d = added /\ DiffViewer.sourceLine d = []
   /\ DiffViewer.translatedLine d <> [])
  \/ (DiffViewer.type d = removed /\ DiffViewer.sourceLine d <> []
      /\ DiffViewer.translatedLine d = [])
  \/ (DiffViewer.type d = unchanged
      /\ DiffViewer.sourceLine d = DiffViewer.translatedLine d).

(** The two warnings the orchestrator can return. *)
Definition mixedWarning (code : str) : str :=
  "Mixed languages detected: "
    ++ Js.join ", " (languages (detectMixedLanguages (fst (preprocessCode code))))
    ++ ". Normalizing code...".

Definition structWarning : str := "Go does not have classes. Converting to struct.".

(** A line whose text was rewritten or that raised a warning. *)
Definition rewritten (l : LineTransformation) : bool :=
  negb (Js.eqs (transformed l) (original l)) || negb (0 =? List.length (lineWarnings l)).

(** A line as the indentation pass leaves it: empty, or some two-space
    units followed by a text without white space at either end. *)
Definition indented (o : str) : Prop :=
  o = [] \/ exists k t, o = Js.repeatN "  " k ++ t /\ tidy t.

(** The score object as a function of the tests made on the text: the
    same updates in the same order. *)
Definition scoresFrom (def imp prt ind fc lt log ts jv cp gop fn cs ph en : bool)
  : list (str * nat) :=
  let scores := [] in
  let scores := when def "python" 3 scores in
  let scores := when imp "python" 2 scores in
  let scores := when prt "python" 2 scores in
  let scores := when ind "python" 1 scores in
  let scores := when (fc || lt) "javascript" 3 scores in
  let scores := when log "javascript" 2 scores in
  let scores := when ts "typescript" 3 scores in
  let scores := when jv "java" 3 scores in
  let scores := when cp "cpp" 3 scores in
  let scores := when gop "go" 3 scores in
  let scores := when (fn && lt) "rust" 3 scores in
  let scores := when cs "csharp" 3 scores in
  let scores := when ph "php" 3 scores in
  let scores := when (def && en) "ruby" 2 scores in
  scores.

(** The first entry of the sorted scores, or the default. *)
Definition pick (scores : list (str * nat)) : str :=
  match sortDesc scores with
  | (lang, _) :: _ => lang
  | [] => "javascript"
  end.

(** The languages the scoring detector can answer. *)
Definition detectable : list str :=
  ["python" : str; "javascript" : str; "typescript" : str; "java" : str; "cpp" : str;
   "go" : str; "csharp" : str; "php" : str].

(** A test that holds for both truth values. *)
Definition allb (f : bool -> bool) : bool := f true && f false.

(** The score a language has in a score object. *)
Definition scoreOf (scores : list (str * nat)) (lang : str) : nat :=
  match Legacy.lookup lang scores with
  | Some n => n
  | None => 0
  end.

(** The text a stream event delivers. *)
Definition deltaOf (e : Route.Event) : str :=
  match e with
  | Route.Delta d _ => d
  | Route.Done => []
  end.

(** A node with one more child. *)
Definition withChild (n : ASTNode) (child : nat) : ASTNode :=
  {| nodeType := nodeType n; content := content n; lineStart := lineStart n;
     lineEnd := lineEnd n; children := children n ++ [child];
     language := language n |}.

(** A node without its children. *)
Definition plain (n : ASTNode) : ASTNode :=
  {| nodeType := nodeType n; content := content n; lineStart := lineStart n;
     lineEnd := lineEnd n; children := []; language := language n |}.

(** The nodes of the lines from index [idx] on, one for each line that
    is not white space only. *)
Fixpoint lineNodes (language : str) (lines : list str) (idx : nat) : list ASTNode :=
  match lines with
  | [] => []
  | line :: lines' =>
      (if isEmpty (Js.trim line) then []
       else [{| nodeType := nodeTypeOf (Js.trim line); content := Js.trim line;
                lineStart := idx; lineEnd := idx; children := [];
                language := language |}])
      ++ lineNodes language lines' (S idx)
  end.

(** A node without child, or with one child: the node of the next line,
    under a line that opens a block. *)
Definition linked (st : list ASTNode) (n : ASTNode) : Prop :=
  children n = []
  \/ exists c m,
       children n = [c] /\ nth_error st c = Some m
       /\ lineStart m = S (lineStart n)
       /\ opensBlock (nodeType n) (content n) = true.

(** The state of the tree builder before line [idx]. *)
Definition wellBuilt (b : Builder) (idx : nat) : Prop :=
  Forall (fun id => exists n, nth_error (b_store b) id = Some n
                              /\ opensBlock (nodeType n) (content n) = true)
         (b_stack b)
  /\ Forall (fun n => lineEnd n = lineStart n /\ lineStart n < idx) (b_store b)
  /\ Forall (linked (b_store b)) (b_store b)
  /\ Forall (fun n => S (lineStart n) = idx -> children n = []) (b_store b)
  /\ Permutation (b_nodes b ++ concat (map children (b_store b)))
                 (seq 0 (List.length (b_store b))).

(** How two lines compare. *)
Definition compareLines (s t : str) : ChangeType :=
  if isEmpty s && nonEmpty t then added
  else if nonEmpty s && isEmpty t then removed
  else if Js.eqs s t then unchanged
  else changed.

(** A child of the outline's root: a function or class entry for one
    line of [lines], spanning that line. *)
Definition outlineEntry (lines : list str) (c : Comprehensive.CodeNode) : Prop :=
  (Comprehensive.type c = Comprehensive.NFunction
   \/ Comprehensive.type c = Comprehensive.NClass)
  /\ Comprehensive.name c = Some (Comprehensive.extractName (Comprehensive.content c))
  /\ (exists l, nth_error lines (Comprehensive.lineStart c) = Some l
                /\ Comprehensive.content c = Js.trim l)
  /\ Comprehensive.lineEnd c = Comprehensive.lineStart c + 1
  /\ Comprehensive.children c = [].

(** Replacing each pair [cc], from the left, by [w]. *)
Fixpoint squash (c : ascii) (w : str) (s : str) : str :=
  match s with
  | [] => []
  | x :: t =>
      match t with
      | y :: s' =>
          if Ascii.eqb x c && Ascii.eqb y c then w ++ squash c w s'
          else x :: squash c w t
      | [] => [x]
      end
  end.

(** No two adjacent units of the text are both [c]. *)
Fixpoint pairFree (c : ascii) (s : str) : bool :=
  match s with
  | x :: t =>
      match t with
      | y :: _ => negb (Ascii.eqb x c && Ascii.eqb y c) && pairFree c t
      | [] => true
      end
  | [] => true
  end.

(** A word: a text that is not empty and holds no white space. *)
Definition solid (w : str) : Prop :=
  w <> [] /\ forallb (fun c => negb (Js.isSpace c)) w = true.

(** * Properties *)

(** ** Lines *)
Module JsFacts.
Import Js.

Lemma split_cons sep s : exists l ls, split sep s = l :: ls.
Proof.
  destruct s as [|c s]; simpl; [now eexists; eexists|].
  destruct (Ascii.eqb c sep); now eexists; eexists.
Qed.

Lemma join_hd sep c l ls : join sep ((c :: l) :: ls) = c :: join sep (l :: ls).
Proof. destruct ls; reflexivity. Qed.

(** Splitting at line breaks and joining with line breaks gives the
    text back. *)
Lemma join_split s : join nl (split "010" s) = s.
Proof.
  induction s as [|c s IH]; [reflexivity|]. cbn [split].
  destruct (Ascii.eqb_spec c "010") as [->|Hc].
  - destruct (split_cons "010" s) as (l & ls & E). rewrite E in IH |- *.
    change (join nl ([] :: l :: ls)) with (nl ++ join nl (l :: ls)).
    now rewrite IH.
  - destruct (split_cons "010" s) as (l & ls & E). rewrite E in IH |- *.
    cbn [hd tl]. rewrite join_hd. now rewrite IH.
Qed.


Lemma occ_app c u v : occ c (u ++ v) = occ c u + occ c v.
Proof. apply count_occ_app. Qed.

Lemma occ_cons_neq c x s : x <> c -> occ c (x :: s) = occ c s.
Proof. intros H. now apply count_occ_cons_neq. Qed.

Lemma occ_concat c ls : occ c (concat ls) = occs c ls.
Proof.
  induction ls as [|l ls IH]; [reflexivity|].
  simpl. rewrite occ_app, IH. reflexivity.
Qed.

Lemma occ_space c s : isSpace c = false -> forallb isSpace s = true -> occ c s = 0.
Proof.
  intros Hc. induction s as [|x s IH]; [reflexivity|].
  intros H. cbn [forallb] in H. apply andb_prop in H. destruct H as [Hx Hs].
  rewrite occ_cons_neq; [auto | congruence].
Qed.

Lemma occ_trimStart c s : isSpace c = false -> occ c (trimStart s) = occ c s.
Proof.
  intros Hc. induction s as [|x s IH]; [reflexivity|]. cbn [trimStart].
  destruct (isSpace x) eqn:E; [|reflexivity].
  rewrite IH. symmetry. apply occ_cons_neq. congruence.
Qed.

Lemma occ_trimEnd c s : isSpace c = false -> occ c (trimEnd s) = occ c s.
Proof.
  intros Hc. unfold trimEnd, occ. rewrite count_occ_rev.
  fold (occ c (trimStart (rev s))). rewrite occ_trimStart by exact Hc.
  apply count_occ_rev.
Qed.

(** Trimming removes white space only. *)
Lemma occ_trim c s : isSpace c = false -> occ c (trim s) = occ c s.
Proof.
  intros Hc. unfold trim. now rewrite occ_trimEnd, occ_trimStart.
Qed.

Lemma occ_repeatN c s n : occ c s = 0 -> occ c (repeatN s n) = 0.
Proof.
  intros H. induction n as [|n IH]; [reflexivity|].
  simpl. now rewrite occ_app, H, IH.
Qed.

Lemma occ_join c ls : c <> "010"%char -> occ c (join nl ls) = occs c ls.
Proof.
  intros Hc. induction ls as [|l ls IH]; [reflexivity|].
  destruct ls as [|l' ls].
  - unfold occs. simpl. lia.
  - change (join nl (l :: l' :: ls)) with (l ++ nl ++ join nl (l' :: ls)).
    rewrite !occ_app, IH. unfold nl. rewrite occ_cons_neq by congruence.
    unfold occs. simpl. lia.
Qed.

Lemma occ_split c s : c <> "010"%char -> occs c (split "010" s) = occ c s.
Proof.
  intros Hc. rewrite <- occ_join by exact Hc. now rewrite join_split.
Qed.

End JsFacts.

(** ** The matcher only matches texts of the pattern *)
Module RegexFacts.
Import Regex.

(** How some patterns of the source read. *)
Example read_newline_brace :
  re_newline_brace = Seq (Chr "010") (Seq (Star Greedy (Cls Space)) (Chr "{")).
Proof. reflexivity. Qed.

Example read_single_quote :
  re_single_quote = Seq (Behind true (Bracket false [IChar "\"])) (Chr "'").
Proof. reflexivity. Qed.

Example read_semi_eol : re_semi_eol = Seq (Chr ";") (Eol true).
Proof. reflexivity. Qed.

Example read_trailing_colon :
  re_trailing_colon = Seq (Chr ":") (Seq (Star Greedy (Cls Space)) (Eol false)).
Proof. reflexivity. Qed.

(** Empty matches: after one, the scan steps one unit on. *)
Example replace_lazy_star :
  replaceAll (re "a*?") (fun _ _ => "-") "baac" = "-b-a-a-c-".
Proof. reflexivity. Qed.

Example replace_greedy_star :
  replaceAll (re "a*") (fun _ _ => "-") "baac" = "-b--c-".
Proof. reflexivity. Qed.

Lemma rounds_sound (step : str -> str -> caps -> cont -> option outcome) g r k :
  (forall before after cs k' o,
      step before after cs k' = Some o -> owes (Lang r) before after k' o) ->
  forall n before after cs o,
    rounds step g k n before after cs = Some o ->
    owes (Lang (Star g r)) before after k o.
Proof.
  intros Hstep n. induction n as [|n IH]; intros before after cs o H.
  - simpl in H. exists [], after, cs. split; [reflexivity|]. split; [constructor|].
    destruct g; [exact H|]. simpl. destruct (k before after cs); [exact H | discriminate].
  - assert (Hleave : k before after cs = Some o ->
                     owes (Lang (Star g r)) before after k o).
    { intros Hk. exists [], after, cs. repeat split; [constructor | exact Hk]. }
    assert (Hmore : step before after cs
              (fun b a c => if List.length a <? List.length after
                            then rounds step g k n b a c else None) = Some o ->
            owes (Lang (Star g r)) before after k o).
    { intros Hm. apply Hstep in Hm. destruct Hm as (u & rest & cs1 & -> & Hu & Hk).
      destruct (List.length rest <? List.length (u ++ rest)); [|discriminate].
      apply IH in Hk. destruct Hk as (v & rest' & cs2 & -> & Hv & Hk).
      exists (u ++ v), rest', cs2. split; [now rewrite app_assoc|].
      split; [now constructor|]. now rewrite rev_app_distr, <- app_assoc. }
    simpl in H. destruct g.
    + destruct (step before after cs _) eqn:E.
      * inversion H; subst. now apply Hmore.
      * now apply Hleave.
    + destruct (k before after cs) eqn:E.
      * inversion H; subst. now apply Hleave.
      * now apply Hmore.
Qed.

Lemma rmatch_sound r :
  forall before after cs kk o,
    rmatch r before after cs kk = Some o -> owes (Lang r) before after kk o.
Proof.
  induction r; intros before after cs kk o H; simpl in H.
  - exists [], after, cs. repeat split; [constructor | exact H].
  - destruct after as [|x after]; [discriminate|].
    destruct (Ascii.eqb_spec x c); [subst|discriminate].
    exists [c], after, cs. repeat split; [constructor | exact H].
  - destruct after as [|x after]; [discriminate|].
    destruct (inClass k x) eqn:E; [|discriminate].
    exists [x], after, cs. repeat split; [now constructor | exact H].
  - apply IHr1 in H. destruct H as (u & rest & cs1 & -> & Hu & H).
    apply IHr2 in H. destruct H as (v & rest' & cs2 & -> & Hv & H).
    exists (u ++ v), rest', cs2. split; [now rewrite app_assoc|].
    split; [now constructor|]. now rewrite rev_app_distr, <- app_assoc.
  - destruct (rmatch r1 before after cs kk) eqn:E.
    + inversion H; subst. apply IHr1 in E.
      destruct E as (u & rest & cs1 & -> & Hu & E).
      exists u, rest, cs1. repeat split; [now apply L_AltL | exact E].
    + apply IHr2 in H. destruct H as (u & rest & cs1 & -> & Hu & H).
      exists u, rest, cs1. repeat split; [now apply L_AltR | exact H].
  - eapply rounds_sound; [|exact H].
    intros b a c k' o' Hs. now apply IHr in Hs.
  - apply IHr in H. destruct H as (u & rest & cs1 & -> & Hu & H).
    exists u, rest, ((i, consumed before (rev u ++ before)) :: cs1).
    repeat split; [now constructor | exact H].
  - destruct (atBol m before); [|discriminate].
    exists [], after, cs. repeat split; [constructor | exact H].
  - destruct (atEol m after); [|discriminate].
    exists [], after, cs. repeat split; [constructor | exact H].
  - destruct (xorb _ _); [|discriminate].
    exists [], after, cs. repeat split; [constructor | exact H].
  - destruct (rmatch r before after cs _) as [[[b a] c]|].
    + destruct neg; [discriminate|].
      exists [], after, c. repeat split; [constructor | exact H].
    + destruct neg; [|discriminate].
      exists [], after, cs. repeat split; [constructor | exact H].
  - destruct (xorb _ _); [|discriminate].
    exists [], after, cs. repeat split; [constructor | exact H].
Qed.

(** An attempt that succeeds splits the text at the position into the
    matched text, which the pattern can match, and the text left. *)
Lemma matchAt_sound r before after b rest cs :
  matchAt r before after = Some (b, rest, cs) ->
  exists u, after = u ++ rest /\ Lang r u /\ matched after rest = u.
Proof.
  intros H. apply rmatch_sound in H.
  destruct H as (u & rest' & cs' & -> & Hu & H). inversion H; subst.
  exists u. repeat split; [exact Hu|].
  unfold matched. rewrite length_app, Nat.add_sub.
  rewrite firstn_app, Nat.sub_diag, firstn_all. simpl. apply app_nil_r.
Qed.

Lemma scan_events {A} r (hit : str -> caps -> A) miss after :
  forall before skip,
    scan r hit miss before after skip
    = map (onEvent hit miss) (events r before after skip).
Proof.
  unfold events. induction after as [|x after IH]; intros before skip.
  - destruct skip; simpl; [|reflexivity].
    destruct (matchAt r before []) as [[[b rest] cs]|]; reflexivity.
  - destruct skip; simpl; [|apply IH].
    destruct (matchAt r before (x :: after)) as [[[b rest] cs]|]; simpl.
    + destruct (matched (x :: after) rest); simpl; now rewrite IH.
    + now rewrite IH.
Qed.

(** The events of a scan spell the text scanned, and each match is a
    text of the pattern. *)
Lemma events_spec r after :
  forall before skip,
    skip <= List.length after ->
    concat (map text (events r before after skip)) = skipn skip after
    /\ Forall (fun e => match e with inl (m, _) => Lang r m | inr _ => True end)
              (events r before after skip).
Proof.
  unfold events. induction after as [|x after IH]; intros before skip Hs.
  - destruct skip; [|simpl in Hs; lia]. simpl.
    destruct (matchAt r before []) as [[[b rest] cs]|] eqn:E; simpl; [|now split].
    apply matchAt_sound in E. destruct E as (u & Hu & HL & ->).
    symmetry in Hu. apply app_eq_nil in Hu. destruct Hu as [-> ->].
    split; [reflexivity | now repeat constructor].
  - destruct skip; simpl.
    + destruct (matchAt r before (x :: after)) as [[[b rest] cs]|] eqn:E; simpl.
      * apply matchAt_sound in E. destruct E as (u & Hu & HL & ->).
        destruct u as [|y u]; simpl in *.
        -- destruct (IH (x :: before) 0) as [H1 H2]; [lia|].
           simpl in H1. rewrite H1. split; [reflexivity | now repeat constructor].
        -- inversion Hu; subst.
           destruct (IH (y :: before) (List.length u)) as [H1 H2].
           { rewrite length_app. lia. }
           rewrite H1. rewrite skipn_app, skipn_all, Nat.sub_diag. simpl.
           split; [reflexivity | now constructor].
      * destruct (IH (x :: before) 0) as [H1 H2]; [lia|].
        simpl in H1. rewrite H1. split; [reflexivity | now constructor].
    + apply IH. simpl in Hs. lia.
Qed.

Lemma eqs_true a b : Js.eqs a b = true -> a = b.
Proof. unfold Js.eqs. destruct (list_eq_dec ascii_dec a b); [auto | discriminate]. Qed.

Lemma eqs_refl a : Js.eqs a a = true.
Proof. unfold Js.eqs. destruct (list_eq_dec ascii_dec a a); [auto | contradiction]. Qed.


Lemma list_sum_cons a l : list_sum (a :: l) = a + list_sum l.
Proof. reflexivity. Qed.

(** A one-unit pattern with the g flag counts the occurrences of the
    unit. *)
Lemma countMatches_chr c s : countMatches (Chr c) s = occ c s.
Proof.
  unfold countMatches. generalize (@nil ascii) as before.
  induction s as [|x s IH]; intros before; [reflexivity|].
  cbn [scan]. unfold matchAt. cbn [rmatch].
  destruct (Ascii.eqb_spec x c) as [->|Hx].
  - unfold matched. cbn [List.length]. rewrite Nat.sub_succ_l, Nat.sub_diag by lia.
    cbn [firstn List.length]. rewrite list_sum_cons, IH.
    unfold occ. now rewrite count_occ_cons_eq.
  - rewrite list_sum_cons, IH. unfold occ. now rewrite count_occ_cons_neq.
Qed.

(** A replacement that keeps the count of a unit in every match keeps
    it in the text. *)
Lemma replaceAll_occ c r f s :
  (forall u cs, Lang r u -> occ c (f u cs) = occ c u) ->
  occ c (replaceAll r f s) = occ c s.
Proof.
  intros Hf. unfold replaceAll. rewrite scan_events.
  destruct (events_spec r s [] 0) as [H1 H2]; [lia|]. simpl in H1.
  rewrite <- H1 at 2. clear H1. rewrite !JsFacts.occ_concat.
  induction H2 as [|e es He Hes IH]; [reflexivity|].
  unfold occs in *. simpl. rewrite IH. f_equal.
  destruct e as [[m cs]|x]; simpl; [now apply Hf | reflexivity].
Qed.

Lemma Lang_star_cls g k w :
  Lang (Star g (Cls k)) w -> forallb (inClass k) w = true.
Proof.
  intros H. remember (Star g (Cls k)) as r eqn:E.
  induction H; try discriminate; [reflexivity|].
  inversion E; subst. inversion H as [| |k' c Hc| | | | | | | | | | |]; subst.
  simpl. rewrite Hc. now apply IHLang2.
Qed.

End RegexFacts.



(** ** Post-processing *)
Module PostFacts.
Import Js.

Lemma occ_repeat_self c n : occ c (repeatN [c] n) = n.
Proof.
  induction n as [|n IH]; [reflexivity|].
  cbn [repeatN]. rewrite JsFacts.occ_app, IH.
  unfold occ. now rewrite count_occ_cons_eq.
Qed.

Lemma splice1_spec c i lines l :
  nth_error lines i = Some l ->
  occs c (splice1 i lines) + occ c l = occs c lines
  /\ S (List.length (splice1 i lines)) = List.length lines.
Proof.
  revert i. induction lines as [|x lines IH]; intros i H.
  - destruct i; discriminate.
  - destruct i as [|i]; simpl in H.
    + inversion H; subst. unfold occs. simpl. split; lia.
    + destruct (IH i H) as [H1 H2]. unfold occs in *. simpl. split; lia.
Qed.

(** A line that trims to a lone closer holds one closer and no opener. *)
Lemma closer_line l :
  eqs (trim l) "}" = true -> occ "}" l = 1 /\ occ "{" l = 0.
Proof.
  intros H. apply RegexFacts.eqs_true in H.
  rewrite <- (JsFacts.occ_trim "}" l), <- (JsFacts.occ_trim "{" l) by reflexivity.
  rewrite H. split; reflexivity.
Qed.

Lemma firstn_splice1 i : forall lines, firstn i (splice1 i lines) = firstn i lines.
Proof.
  induction i as [|i IH]; intros lines; [reflexivity|].
  destruct lines as [|x lines]; [reflexivity|]. simpl. now rewrite IH.
Qed.

Lemma firstn_snoc i : forall lines (l : str),
    nth_error lines i = Some l -> firstn (S i) lines = firstn i lines ++ [l].
Proof.
  induction i as [|i IH]; intros lines l H; destruct lines as [|x lines];
    try discriminate; simpl in H.
  - now inversion H.
  - transitivity (x :: firstn (S i) lines); [reflexivity|].
    rewrite (IH lines l H). reflexivity.
Qed.

Lemma countIf_app {A} (f : A -> bool) u v : countIf f (u ++ v) = countIf f u + countIf f v.
Proof. unfold countIf. now rewrite filter_app, length_app. Qed.

(** The removal loop ends; it drops lone closers only, as many as the
    excess asks for and the lines it visits provide. *)
Lemma removeExtra_spec n :
  forall lines removed excess,
    n <= List.length lines ->
    exists lines',
      removeExtra n lines removed excess = Ok lines'
      /\ occs "}" lines'
         + Nat.min (Z.to_nat (excess - removed)) (countIf loneCloser (firstn n lines))
         = occs "}" lines
      /\ occs "{" lines' = occs "{" lines.
Proof.
  induction n as [|i IH]; intros lines removed excess Hn.
  - exists lines. cbn [firstn]. unfold countIf at 1. simpl. repeat split; lia.
  - cbn [removeExtra]. destruct (Z.ltb_spec removed excess) as [Hlt|Hge].
    + destruct (nth_error lines i) as [l|] eqn:E.
      2:{ apply nth_error_None in E. lia. }
      rewrite (firstn_snoc i lines l E), countIf_app.
      unfold countIf at 2. cbn [filter]. fold (loneCloser l).
      destruct (loneCloser l) eqn:Et.
      * destruct (splice1_spec "}" i lines l E) as [C1 C2].
        destruct (splice1_spec "{" i lines l E) as [O1 _].
        destruct (closer_line l Et) as [L1 L2].
        destruct (IH (splice1 i lines) (removed + 1)%Z excess) as (ls & R & A & B).
        { lia. }
        rewrite firstn_splice1 in A.
        exists ls. cbn [List.length]. repeat split; [exact R | lia | lia].
      * destruct (IH lines removed excess) as (ls & R & A & B); [lia|].
        exists ls. cbn [List.length]. repeat split; [exact R | lia | lia].
    + exists lines. repeat split; lia.
Qed.

Lemma countOpen s : Regex.countMatches re_open s = occ "{" s.
Proof. apply RegexFacts.countMatches_chr. Qed.

Lemma countClose s : Regex.countMatches re_close s = occ "}" s.
Proof. apply RegexFacts.countMatches_chr. Qed.

(** Balancing never fails and keeps the openers; missing closers are
    appended, closers in excess are dropped as far as lone closers
    provide. *)
Lemma balanceBraces_spec p :
  exists out,
    balanceBraces p = Ok out
    /\ occ "{" out = occ "{" p
    /\ occ "}" out + Nat.min (occ "}" p - occ "{" p) (loneClosers p)
       = Nat.max (occ "{" p) (occ "}" p).
Proof.
  unfold balanceBraces. rewrite countOpen, countClose.
  destruct (Z.ltb_spec (Z.of_nat (occ "}" p)) (Z.of_nat (occ "{" p))) as [Hlt|Hge].
  - unfold repeat. destruct (Z.ltb_spec (Z.of_nat (occ "{" p) - Z.of_nat (occ "}" p)) 0);
      [lia|].
    cbn [bind]. eexists. split; [reflexivity|].
    rewrite !JsFacts.occ_app.
    change ("}" : str) with (["}"%char]).
    rewrite occ_repeat_self.
    rewrite (JsFacts.occ_repeatN "{" ["}"%char]) by reflexivity.
    unfold nl. simpl (occ _ ["010"%char]). split; lia.
  - destruct (Z.ltb_spec (Z.of_nat (occ "{" p)) (Z.of_nat (occ "}" p))) as [Hlt|Hge'].
    + destruct (removeExtra_spec (List.length (split "010" p)) (split "010" p) 0
                  (Z.of_nat (occ "}" p) - Z.of_nat (occ "{" p))%Z)
        as (ls & R & A & B); [lia|].
      rewrite R. cbn [bind]. eexists. split; [reflexivity|].
      rewrite !JsFacts.occ_join by congruence.
      rewrite JsFacts.occ_split in A, B by congruence.
      rewrite firstn_all in A. fold (loneClosers p) in A.
      split; lia.
    + eexists. split; [reflexivity|]. split; lia.
Qed.

Lemma newline_brace_occ c u :
  c = "{"%char \/ c = "}"%char ->
  Regex.Lang re_newline_brace u -> occ c (" {" : str) = occ c u.
Proof.
  intros Hc H. unfold re_newline_brace in H.
  inversion H as [| | |r1 r2 u1 u2 H1 H2| | | | | | | | | |]; subst.
  inversion H1; subst.
  inversion H2 as [| | |r1 r2 v1 v2 H3 H4| | | | | | | | | |]; subst.
  inversion H4; subst.
  apply RegexFacts.Lang_star_cls in H3. cbn [Regex.inClass] in H3.
  rewrite !JsFacts.occ_app.
  destruct Hc as [-> | ->];
    rewrite (JsFacts.occ_space _ v1) by (reflexivity || assumption); reflexivity.
Qed.

(** The indentation pass never fails and changes white space only. *)
Lemma reindent_spec lines :
  forall inBlock,
    (0 <= inBlock)%Z ->
    exists out,
      reindent lines inBlock = Ok out
      /\ forall c, isSpace c = false -> occs c out = occs c lines.
Proof.
  induction lines as [|line lines IH]; intros inBlock Hz.
  - exists []. split; [reflexivity | reflexivity].
  - cbn [reindent]. destruct (isEmpty (trim line)) eqn:Ee.
    + destruct (IH inBlock Hz) as (out & R & C). rewrite R. cbn [bind].
      eexists. split; [reflexivity|]. intros c Hc.
      unfold occs in *. cbn [map]. rewrite !RegexFacts.list_sum_cons, (C c Hc).
      rewrite <- (JsFacts.occ_trim c line) by exact Hc.
      destruct (trim line); [reflexivity | discriminate].
    + remember (if startsWith (trim line) "}" || startsWith (trim line) "end"
                then Z.max 0 (inBlock - 1) else inBlock) as level eqn:EL.
      assert (Hl : (0 <= level)%Z).
      { destruct (startsWith (trim line) "}" || startsWith (trim line) "end"); lia. }
      clear EL. unfold repeat. destruct (Z.ltb_spec level 0); [lia|]. cbn [bind].
      remember (if endsWith (trim line) "{" || endsWith (trim line) ":"
                   || eqs (trim line) "do"
                then (level + 1)%Z else level) as level' eqn:EL'.
      assert (Hl' : (0 <= level')%Z).
      { destruct (endsWith (trim line) "{" || endsWith (trim line) ":"
                  || eqs (trim line) "do"); lia. }
      clear EL'.
      destruct (IH level' Hl') as (out & R & C). rewrite R. cbn [bind].
      eexists. split; [reflexivity|]. intros c Hc.
      unfold occs in *. cbn [map]. rewrite !RegexFacts.list_sum_cons, (C c Hc).
      rewrite JsFacts.occ_app, JsFacts.occ_trim by exact Hc.
      rewrite JsFacts.occ_repeatN; [reflexivity|].
      apply JsFacts.occ_space; [exact Hc | reflexivity].
Qed.

Lemma brace_target t :
  isOneOf t braceLanguages = true ->
  eqs t "python" = false /\ eqs t "ruby" = false.
Proof.
  unfold isOneOf, braceLanguages. cbn [existsb]. intros H.
  repeat match type of H with
         | (eqs t ?l || _) = true =>
             let E := fresh "E" in
             destruct (eqs t l) eqn:E;
             [apply RegexFacts.eqs_true in E; subst t; split; reflexivity
             | cbn [orb] in H]
         end.
  discriminate.
Qed.

(** Post-processing never fails. *)
Lemma postProcessCode_total p t : exists out, postProcessCode p t = Ok out.
Proof.
  unfold postProcessCode.
  assert (H : exists q, (if isOneOf t braceLanguages
                         then processed <- balanceBraces p ;;
                              Ok (Regex.replaceAll re_newline_brace (fun _ _ => " {" : str)
                                    processed)
                         else Ok p) = Ok q).
  { destruct (isOneOf t braceLanguages); [|now eexists].
    destruct (balanceBraces_spec p) as (out & R & _). rewrite R. now eexists. }
  destruct H as (q & ->). cbn [bind].
  match goal with
  | |- context [reindent ?ls 0] =>
      destruct (reindent_spec ls 0%Z) as (out & R & _); [lia|]; rewrite R
  end.
  now eexists.
Qed.

(** For a brace-delimited target the post-processed text keeps the
    openers of the rewritten text; its closers are those of the balanced
    text. *)
Lemma postProcessCode_braces p t :
  isOneOf t braceLanguages = true ->
  exists out,
    postProcessCode p t = Ok out
    /\ occ "{" out = occ "{" p
    /\ occ "}" out + Nat.min (occ "}" p - occ "{" p) (loneClosers p)
       = Nat.max (occ "{" p) (occ "}" p).
Proof.
  intros Ht. destruct (brace_target t Ht) as [Hpy Hrb].
  unfold postProcessCode. rewrite Ht, Hpy, Hrb.
  destruct (balanceBraces_spec p) as (q & R & Q1 & Q2). rewrite R. cbn [bind].
  set (q1 := Regex.replaceAll re_newline_brace _ q).
  assert (K : forall c, c = "{"%char \/ c = "}"%char -> occ c q1 = occ c q).
  { intros c Hc. apply RegexFacts.replaceAll_occ.
    intros u cs Hu. now apply newline_brace_occ. }
  set (q2 := if eqs t "go" then _ else q1).
  assert (G : forall c, c = "{"%char \/ c = "}"%char -> occ c q2 = occ c q1).
  { intros c Hc. unfold q2. destruct (eqs t "go"); [|reflexivity].
    destruct (negb _); [|reflexivity].
    rewrite !JsFacts.occ_app. destruct Hc as [-> | ->]; reflexivity. }
  destruct (reindent_spec (split "010" q2) 0%Z) as (out & R' & C); [lia|].
  rewrite R'. cbn [bind]. eexists. split; [reflexivity|].
  assert (F : forall c, c = "{"%char \/ c = "}"%char ->
                        occ c (join nl out) = occ c q).
  { intros c Hc. rewrite JsFacts.occ_join by (destruct Hc; subst; congruence).
    rewrite C by (destruct Hc; subst; reflexivity).
    rewrite JsFacts.occ_split by (destruct Hc; subst; congruence).
    now rewrite G, K. }
  rewrite !F by auto. split; assumption.
Qed.

End PostFacts.

(** ** The structure tree is always built *)
Module AstFacts.
Import Js.

Lemma popClosed_spec store idx :
  forall stack,
    stored store stack ->
    exists stack', popClosed store stack idx = Ok stack' /\ stored store stack'.
Proof.
  induction stack as [|top stack IH]; intros H.
  - exists []. split; [reflexivity | constructor].
  - inversion H as [|? ? Htop Hrest]; subst. cbn [popClosed].
    destruct (nth_error store top) as [node|] eqn:E.
    2:{ apply nth_error_None in E. lia. }
    destruct (_ <? _)%Z; [now apply IH|].
    exists (top :: stack). split; [reflexivity | exact H].
Qed.

Lemma pushChild_length child :
  forall st parent, List.length (pushChild st parent child) = List.length st.
Proof.
  intros st. induction st as [|n st IH]; intros parent; [reflexivity|].
  destruct parent; simpl; [reflexivity | now rewrite IH].
Qed.

Lemma stored_more store store' stack :
  List.length store <= List.length store' -> stored store stack -> stored store' stack.
Proof.
  intros Hl H. eapply Forall_impl; [|exact H]. simpl. intros. lia.
Qed.

Lemma visitLine_spec lang b line idx :
  stored (b_store b) (b_stack b) ->
  exists b', visitLine lang b line idx = Ok b' /\ stored (b_store b') (b_stack b').
Proof.
  intros H. unfold visitLine.
  destruct (isEmpty (trim line)); [now exists b|].
  match goal with
  | |- context [popClosed ?st (b_stack b) idx] =>
      destruct (popClosed_spec st idx (b_stack b)) as (stack & R & Hs)
  end.
  { eapply stored_more; [|exact H]. rewrite length_app. lia. }
  rewrite R. cbn [bind].
  destruct stack as [|top stack].
  - destruct (opensBlock _ _); eexists; (split; [reflexivity|]); cbn [b_store b_stack].
    + constructor; [|constructor]. rewrite length_app. simpl. lia.
    + constructor.
  - destruct (opensBlock _ _); eexists; (split; [reflexivity|]); cbn [b_store b_stack].
    + constructor.
      * rewrite pushChild_length, length_app. simpl. lia.
      * eapply stored_more; [|exact Hs]. rewrite pushChild_length. lia.
    + eapply stored_more; [|exact Hs]. rewrite pushChild_length. lia.
Qed.

Lemma visitLines_spec lang lines :
  forall b idx,
    stored (b_store b) (b_stack b) ->
    exists b', visitLines lang b lines idx = Ok b'.
Proof.
  induction lines as [|line lines IH]; intros b idx H.
  - now exists b.
  - cbn [visitLines]. destruct (visitLine_spec lang b line idx H) as (b' & R & H').
    rewrite R. cbn [bind]. now apply IH.
Qed.

Lemma buildAST_total code lang : exists tree, buildAST code lang = Ok tree.
Proof.
  unfold buildAST.
  match goal with
  | |- context [visitLines lang ?b ?ls 0] =>
      destruct (visitLines_spec lang ls b 0) as (b' & R)
  end.
  { constructor. }
  rewrite R. now eexists.
Qed.

End AstFacts.

(** ** The orchestrator *)

Lemma mapi_length {A B} (f : A -> nat -> B) l : forall i, List.length (mapi f l i) = List.length l.
Proof. induction l as [|x l IH]; intros i; simpl; [reflexivity | now rewrite IH]. Qed.

Lemma mapi_nth {A B} (f : A -> nat -> B) l :
  forall k i, nth_error (mapi f l k) i = option_map (fun x => f x (k + i)) (nth_error l i).
Proof.
  induction l as [|x l IH]; intros k i.
  - now destruct i.
  - destruct i as [|i]; simpl.
    + now rewrite Nat.add_0_r.
    + rewrite IH. now rewrite Nat.add_succ_r.
Qed.

Lemma mapi_numbered {A} (f : A -> nat -> LineTransformation) l :
  (forall x i, lineNumber (f x i) = i) ->
  forall k, map lineNumber (mapi f l k) = seq k (List.length l).
Proof.
  intros Hf. induction l as [|x l IH]; intros k; simpl; [reflexivity|].
  now rewrite Hf, IH.
Qed.

Lemma transformLine_number line source target i :
  lineNumber (transformLine line source target i) = i.
Proof.
  unfold transformLine. destruct (_ || _); [reflexivity|].
  destruct (applyRules line source target). reflexivity.
Qed.

(** A call between different languages returns the post-processed
    rewritten text and an empty error list. *)
Lemma transformCode_runs code0 sourceLang targetLang :
  Js.eqs (languageOf sourceLang) (languageOf targetLang) = false ->
  forall out,
    postProcessCode (rewrittenText code0 (languageOf sourceLang) (languageOf targetLang))
                    (languageOf targetLang) = Js.Ok out ->
    exists r, transformCode code0 sourceLang targetLang = Js.Ok r
              /\ code r = out /\ errors r = []
              /\ map lineNumber (lines r) = seq 0 (List.length (lines r)).
Proof.
  intros Hne out Hout. unfold transformCode. rewrite Hne.
  unfold rewrittenText in Hout. rewrite Hout. cbn [Js.bind].
  destruct (AstFacts.buildAST_total out (languageOf targetLang)) as (tree & ->).
  cbn [Js.bind]. eexists. repeat split. cbn [lines]. unfold transformLines.
  rewrite mapi_length. apply mapi_numbered. intros. apply transformLine_number.
Qed.

(** The fast path for equal languages. *)
Lemma transformCode_same code0 sourceLang targetLang :
  Js.eqs (languageOf sourceLang) (languageOf targetLang) = true ->
  exists r, transformCode code0 sourceLang targetLang = Js.Ok r
            /\ code r = code0 /\ warnings r = [] /\ errors r = []
            /\ linesTransformed (statistics r) = 0
            /\ map lineNumber (lines r) = seq 0 (List.length (lines r)).
Proof.
  intros He. unfold transformCode. rewrite He.
  destruct (AstFacts.buildAST_total code0 (languageOf sourceLang)) as (tree & ->).
  cbn [Js.bind]. eexists. repeat split. cbn [lines].
  rewrite mapi_length. now apply mapi_numbered.
Qed.


(** ** Normalization of already-clean text *)



(** ** Detection *)

Lemma hits_count patterns text :
  hits patterns text = countIf (fun p => Regex.test p text) patterns.
Proof.
  unfold hits, countIf.
  assert (G : forall n, fold_left (fun n p => n + (if Regex.test p text then 1 else 0))
                                  patterns n
                        = n + List.length (filter (fun p => Regex.test p text) patterns)).
  { induction patterns as [|p ps IH]; intros n; simpl; [lia|].
    rewrite IH. destruct (Regex.test p text); simpl; lia. }
  apply G.
Qed.

Lemma insertDesc_in x y l : In x (insertDesc y l) -> x = y \/ In x l.
Proof.
  induction l as [|z l IH]; simpl.
  - intros [H|[]]; auto.
  - destruct (snd z <=? snd y); simpl; intros H.
    + destruct H as [H|[H|H]]; auto.
    + destruct H as [H|H]; auto. destruct (IH H); auto.
Qed.

Lemma sortDesc_in x l : In x (sortDesc l) -> In x l.
Proof.
  induction l as [|y l IH]; simpl; [auto|].
  intros H. apply insertDesc_in in H. destruct H; auto.
Qed.

(** * The claims *)

Ltac evaluate := vm_compute; reflexivity.

(** C1. Identity: when source and target language are equal, compared
    case-insensitively, [transformCode] returns the input text unchanged
    as the result's code, with an empty warnings list and zero
    linesTransformed. *)
Theorem identity_fast_path (text sourceLang targetLang : str) :
  Js.toLowerCase sourceLang = Js.toLowerCase targetLang ->
  exists r, transformCode text sourceLang targetLang = Js.Ok r
            /\ code r = text /\ warnings r = []
            /\ linesTransformed (statistics r) = 0.
Proof.
  intros H.
  destruct (transformCode_same text sourceLang targetLang) as (r & R & C & W & _ & L & _).
  - unfold languageOf. rewrite H. apply RegexFacts.eqs_refl.
  - now exists r.
Qed.

Lemma identity_fast_path_witness :
  Js.toLowerCase "Python" = Js.toLowerCase "python"
  /\ exists r, transformCode greet_py "Python" "python" = Js.Ok r
               /\ code r = greet_py /\ warnings r = []
               /\ linesTransformed (statistics r) = 0.
Proof.
  split; [reflexivity|].
  apply (identity_fast_path greet_py "Python" "python"). reflexivity.
Defined.

(** C2. The function scenario: [def greet(name):] with an indented
    [print(name)], from Python to JavaScript, becomes exactly
    [function greet(name) {], [  console.log(name);] and [}]. *)
Theorem greet_python_to_javascript :
  exists r, transformCode greet_py "python" "javascript" = Js.Ok r
            /\ code r = greet_js.
Proof.
  eexists. split; evaluate.
Qed.




(** C4 fails as stated: a closer that does not stand alone on its line is
    kept, so [x}] from Python to JavaScript comes out as [x};]. *)
Lemma inline_closer_stays_unbalanced :
  isOneOf (languageOf "javascript") braceLanguages = true
  /\ exists r, transformCode "x}" "python" "javascript" = Js.Ok r
               /\ code r = "x};"
               /\ Regex.countMatches re_open (code r) = 0
               /\ Regex.countMatches re_close (code r) = 1.
Proof.
  split; [reflexivity|].
  eexists. split; [evaluate|].
  repeat split; evaluate.
Qed.

(** C4, amended. For a brace-delimited target different from the source,
    the post-processed code has as many opening braces as the rewritten
    text and never more opening than closing braces; the two counts are
    equal exactly when the closing braces the rewritten text has in
    excess, if any, are covered by lines that hold a lone closing brace
    (only such lines are removed). *)
Theorem braces_after_post_processing (text sourceLang targetLang : str) r :
  isOneOf (languageOf targetLang) braceLanguages = true ->
  languageOf sourceLang <> languageOf targetLang ->
  transformCode text sourceLang targetLang = Js.Ok r ->
  let rewritten := rewrittenText text (languageOf sourceLang) (languageOf targetLang) in
  Regex.countMatches re_open (code r) = Regex.countMatches re_open rewritten
  /\ Regex.countMatches re_open (code r) <= Regex.countMatches re_close (code r)
  /\ (Regex.countMatches re_open (code r) = Regex.countMatches re_close (code r)
      <-> Regex.countMatches re_close rewritten
          <= Regex.countMatches re_open rewritten + loneClosers rewritten).
Proof.
  intros Ht Hne R rewritten.
  destruct (PostFacts.postProcessCode_braces rewritten _ Ht) as (out & P & A & B).
  destruct (transformCode_runs text sourceLang targetLang) with (out := out)
    as (r' & R' & Hc & _).
  - unfold Js.eqs. destruct (list_eq_dec ascii_dec _ _); [contradiction | reflexivity].
  - exact P.
  - rewrite R in R'. inversion R'; subst r'. rewrite Hc.
    rewrite !PostFacts.countOpen, !PostFacts.countClose. repeat split; lia.
Qed.

Lemma braces_after_post_processing_witness :
  exists r, transformCode greet_py "python" "javascript" = Js.Ok r
    /\ Regex.countMatches re_open (code r)
       = Regex.countMatches re_open (rewrittenText greet_py (languageOf "python")
                                                   (languageOf "javascript"))
    /\ Regex.countMatches re_open (code r) <= Regex.countMatches re_close (code r)
    /\ (Regex.countMatches re_open (code r) = Regex.countMatches re_close (code r)
        <-> Regex.countMatches re_close (rewrittenText greet_py (languageOf "python")
                                                       (languageOf "javascript"))
            <= Regex.countMatches re_open (rewrittenText greet_py (languageOf "python")
                                                         (languageOf "javascript"))
               + loneClosers (rewrittenText greet_py (languageOf "python")
                                            (languageOf "javascript"))).
Proof.
  eexists. split; [evaluate|].
  apply (braces_after_post_processing greet_py "python" "javascript").
  - reflexivity.
  - vm_compute. discriminate.
  - evaluate.
Defined.

(** C5 on the code: the class rule pushes its warning for Go only. A
    Python class header translated to Rust becomes a struct and the
    result carries no warning at all, whereas the same header translated
    to Go carries the struct warning. *)
Theorem rust_struct_without_warning :
  (forall line ws, snd (transformClassDef line "python" "rust" ws) = ws)
  /\ (forall line ws,
         Regex.test re_py_class line = true ->
         snd (transformClassDef line "python" "go" ws)
         = ws ++ ["Go does not have classes. Converting to struct." : str])
  /\ (exists r, transformCode "class Foo:" "python" "rust" = Js.Ok r
                /\ code r = "struct Foo {" ++ Js.nl ++ "}"
                /\ warnings r = [])
  /\ (exists r, transformCode "class Foo:" "python" "go" = Js.Ok r
                /\ code r = "package main" ++ Js.nl ++ Js.nl ++ "type Foo struct {"
                            ++ Js.nl ++ "}"
                /\ warnings r = ["Go does not have classes. Converting to struct." : str]).
Proof.
  assert (Krust : known "rust" = Some rust) by reflexivity.
  assert (Kgo : known "go" = Some go) by reflexivity.
  split; [|split; [|split]].
  - intros line ws. unfold transformClassDef. rewrite RegexFacts.eqs_refl.
    destruct (Regex.search re_py_class [] line) as [[[[skipped m] cs] rest]|];
      [|reflexivity].
    unfold classHeader. rewrite Krust. cbn [snd]. apply app_nil_r.
  - intros line ws H. unfold Regex.test in H.
    unfold transformClassDef. rewrite RegexFacts.eqs_refl.
    destruct (Regex.search re_py_class [] line) as [[[[skipped m] cs] rest]|];
      [|discriminate].
    unfold classHeader. rewrite Kgo. reflexivity.
  - eexists. split; [evaluate|]. split; evaluate.
  - eexists. split; [evaluate|]. split; evaluate.
Qed.





(** C8 fails as stated: a text with the fingerprints of Go and of PHP, as
    [detectLanguage] scores them, is not flagged as mixed. *)
Lemma go_with_php_not_detected :
  languageScores "package main func f() <?php" = [("go" : str, 3); ("php" : str, 3)]
  /\ detected (detectMixedLanguages "package main func f() <?php") = false
  /\ languages (detectMixedLanguages "package main func f() <?php") = [].
Proof. repeat split; evaluate. Qed.

(** C8, amended. [detectMixedLanguages] scores three languages only,
    Python, JavaScript and Java: each score is the number of that
    language's patterns that match somewhere in the text, one hit per
    pattern; detected holds exactly when at least two of the three scores
    are nonzero, and only these three languages are ever reported. *)
Theorem detectMixedLanguages_scores (text : str) :
  let py := countIf (fun p => Regex.test p text) pythonPatterns in
  let js := countIf (fun p => Regex.test p text) jsPatterns in
  let jv := countIf (fun p => Regex.test p text) javaPatterns in
  indicators text = [("python" : str, py); ("javascript" : str, js); ("java" : str, jv)]
  /\ (detected (detectMixedLanguages text) = true
      <-> (0 < py /\ 0 < js) \/ (0 < py /\ 0 < jv) \/ (0 < js /\ 0 < jv))
  /\ incl (languages (detectMixedLanguages text))
          ["python" : str; "javascript" : str; "java" : str].
Proof.
  intros py js jv.
  assert (I : indicators text
              = [("python" : str, py); ("javascript" : str, js); ("java" : str, jv)]).
  { unfold indicators. now rewrite !hits_count. }
  split; [exact I|]. split.
  - unfold detectMixedLanguages. cbn [detected]. rewrite I. cbn [filter snd].
    destruct (Nat.ltb_spec 0 py), (Nat.ltb_spec 0 js), (Nat.ltb_spec 0 jv);
      cbn [List.length Nat.ltb Nat.leb]; split; intros D; try discriminate;
      try reflexivity; try lia; tauto.
  - unfold detectMixedLanguages. cbn [languages]. rewrite I.
    intros l Hl. apply in_map_iff in Hl. destruct Hl as ([l' n] & <- & Hl).
    apply sortDesc_in in Hl. apply filter_In in Hl. destruct Hl as [Hl _].
    simpl in Hl. simpl. intuition congruence.
Qed.

(** C9 on the code: the normalizer appends [ {] to the [if] and [else]
    headers, the conditional rule then takes [x > 5: {] for the condition
    and nothing rewrites [else:]; the output is not an if/else in brace
    form. The print lines do get their terminators. *)
Theorem if_else_python_to_javascript :
  normalized (normalizeCode big_small_py)
  = "if x > 5: {" ++ Js.nl ++ "    print(" ++ Js.dq ++ "big" ++ Js.dq ++ ")" ++ Js.nl
    ++ "else: {" ++ Js.nl ++ "    print(" ++ Js.dq ++ "small" ++ Js.dq ++ ")"
  /\ exists r, transformCode big_small_py "python" "javascript" = Js.Ok r
               /\ code r = big_small_out
               /\ Js.includes (code r) "if (x > 5) {" = false
               /\ Js.includes (code r) "} else {" = false.
Proof.
  split; [evaluate|].
  eexists. split; [evaluate|].
  repeat split; evaluate.
Qed.

(** C10. The line diff has exactly one entry per line of the before
    text, aligned by index: entry [i] carries the [i]-th before line and
    the [i]-th after line (or the empty string); lines of the after text
    beyond the last before line have no entry at all, so none is
    reported as added. *)
Theorem calculateLineChanges_per_source_line (before after : str) :
  let sourceLines := Js.split "010" before in
  let translatedLines := Js.split "010" after in
  List.length (calculateLineChanges before after) = List.length sourceLines
  /\ (forall i e,
         nth_error (calculateLineChanges before after) i = Some e ->
         nth_error sourceLines i = Some (source e)
         /\ translated e = Js.orElse (nth_error translatedLines i) "")
  /\ (forall i,
         List.length sourceLines <= i ->
         nth_error (calculateLineChanges before after) i = None).
Proof.
  intros sourceLines translatedLines. unfold calculateLineChanges.
  fold sourceLines. fold translatedLines. split; [apply mapi_length|]. split.
  - intros i e H. rewrite mapi_nth in H.
    destruct (nth_error sourceLines i) as [src|]; [|discriminate].
    simpl in H. inversion H; subst. simpl. split; reflexivity.
  - intros i Hi. rewrite mapi_nth.
    apply nth_error_None in Hi. now rewrite Hi.
Qed.


(** * Further properties *)

(** ** Lemmas *)

Module TextFacts.
Import Js.

Lemma trimStart_blank u s : blank u -> trimStart (u ++ s) = trimStart s.
Proof.
  unfold blank. induction u as [|c u IH]; simpl; [reflexivity|].
  intros H. apply andb_prop in H. destruct H as [Hc Hu]. rewrite Hc. auto.
Qed.

Lemma trimStart_split s : exists u, blank u /\ s = u ++ trimStart s.
Proof.
  induction s as [|c s (u & Hu & E)]; [now exists []|]. cbn [trimStart].
  destruct (isSpace c) eqn:Ec.
  - exists (c :: u). split; [unfold blank; simpl; now rewrite Ec|].
    simpl. now f_equal.
  - now exists [].
Qed.

Lemma trimStart_head s c t : trimStart s = c :: t -> isSpace c = false.
Proof.
  induction s as [|x s IH]; cbn [trimStart]; [discriminate|].
  destruct (isSpace x) eqn:Ex; [exact IH|].
  intros H. inversion H; subst. exact Ex.
Qed.

Lemma trimStart_fixed c t : isSpace c = false -> trimStart (c :: t) = c :: t.
Proof. intros H. cbn [trimStart]. now rewrite H. Qed.

Lemma trimStart_idem s : trimStart (trimStart s) = trimStart s.
Proof.
  destruct (trimStart s) as [|c t] eqn:E; [reflexivity|].
  apply trimStart_fixed. eapply trimStart_head. exact E.
Qed.

Lemma blank_rev u : blank u -> blank (rev u).
Proof.
  unfold blank. rewrite !forallb_forall. intros H x Hx. apply H. now apply in_rev.
Qed.

Lemma blank_app u v : blank u -> blank v -> blank (u ++ v).
Proof. unfold blank. rewrite forallb_app. now intros -> ->. Qed.

Lemma trimEnd_blank s u : blank u -> trimEnd (s ++ u) = trimEnd s.
Proof.
  intros H. unfold trimEnd. rewrite rev_app_distr.
  now rewrite trimStart_blank by now apply blank_rev.
Qed.

Lemma trimEnd_split s : exists u, blank u /\ s = trimEnd s ++ u.
Proof.
  destruct (trimStart_split (rev s)) as (u & Hu & E).
  exists (rev u). split; [now apply blank_rev|].
  unfold trimEnd. rewrite <- rev_app_distr, <- E. now rewrite rev_involutive.
Qed.

Lemma trimEnd_idem s : trimEnd (trimEnd s) = trimEnd s.
Proof. unfold trimEnd. now rewrite rev_involutive, trimStart_idem. Qed.

(** The last unit of a text trimmed at the end is no white space. *)
Lemma trimEnd_last s t c : trimEnd s = t ++ [c] -> isSpace c = false.
Proof.
  unfold trimEnd. intros H. apply (f_equal (@rev ascii)) in H.
  rewrite rev_involutive, rev_app_distr in H. simpl in H.
  eapply trimStart_head. exact H.
Qed.

Lemma trimEnd_fixed t c : isSpace c = false -> trimEnd (t ++ [c]) = t ++ [c].
Proof.
  intros H. unfold trimEnd. rewrite rev_app_distr. simpl. rewrite H.
  simpl. now rewrite rev_involutive.
Qed.

Lemma trimEnd_nil s : trimEnd s = [] <-> blank s.
Proof.
  split.
  - intros H. destruct (trimEnd_split s) as (u & Hu & E). rewrite H in E. now subst.
  - intros H. rewrite <- (app_nil_l s). rewrite trimEnd_blank by exact H. reflexivity.
Qed.

(** Trimming at the end keeps the first unit when it is no white space. *)
Lemma trimEnd_cons c s : isSpace c = false -> trimEnd (c :: s) = c :: trimEnd s.
Proof.
  intros Hc. destruct (trimEnd_split s) as (u & Hu & E).
  rewrite E at 1. change (c :: trimEnd s ++ u) with ((c :: trimEnd s) ++ u).
  rewrite trimEnd_blank by exact Hu.
  destruct (trimEnd s) as [|x t] eqn:Et.
  - change [c] with ([] ++ [c]). now apply trimEnd_fixed.
  - destruct (@exists_last _ (x :: t)) as (t' & a & E'); [discriminate|].
    rewrite E' in *. change (c :: t' ++ [a]) with ((c :: t') ++ [a]).
    apply trimEnd_fixed. eapply trimEnd_last. exact Et.
Qed.

Lemma trim_nil s : trim s = [] <-> blank s.
Proof.
  unfold trim. rewrite trimEnd_nil. split; intros H.
  - destruct (trimStart_split s) as (u & Hu & E). rewrite E. now apply blank_app.
  - destruct (trimStart_split s) as (u & Hu & E). rewrite E in H.
    unfold blank in *. rewrite forallb_app in H. now apply andb_prop in H.
Qed.

(** A trimmed text that is not empty starts and ends with a unit that
    is no white space. *)
Lemma trim_head s c t : trim s = c :: t -> isSpace c = false.
Proof.
  unfold trim. intros H.
  destruct (trimStart s) as [|x r] eqn:E; [discriminate|].
  pose proof (trimStart_head _ _ _ E) as Hx.
  rewrite trimEnd_cons in H by exact Hx. now inversion H; subst.
Qed.

Lemma trim_idem s : trim (trim s) = trim s.
Proof.
  destruct (trim s) as [|c t] eqn:E; [reflexivity|].
  pose proof (trim_head _ _ _ E) as Hc.
  unfold trim at 1. rewrite trimStart_fixed by exact Hc.
  rewrite <- E. unfold trim. apply trimEnd_idem.
Qed.

(** White space before a text does not change what trimming gives. *)
Lemma trim_blank u s : blank u -> trim (u ++ s) = trim s.
Proof. intros H. unfold trim. now rewrite trimStart_blank. Qed.

Lemma trim_blank_end s u : blank u -> trim (s ++ u) = trim s.
Proof.
  intros H. destruct (trimStart_split s) as (v & Hv & E).
  unfold trim.
  destruct (trimStart s) as [|c t] eqn:Es.
  - rewrite app_nil_r in E. subst v.
    assert (B : blank (s ++ u)) by now apply blank_app.
    apply trim_nil in B. unfold trim in B. rewrite B. reflexivity.
  - rewrite E, <- app_assoc, trimStart_blank by exact Hv.
    pose proof (trimStart_head _ _ _ Es) as Hc.
    change ((c :: t) ++ u) with (c :: (t ++ u)). rewrite trimStart_fixed by exact Hc.
    change (c :: (t ++ u)) with ((c :: t) ++ u). now rewrite trimEnd_blank.
Qed.

Lemma blank_repeatN u n : blank u -> blank (repeatN u n).
Proof. intros H. induction n; simpl; [reflexivity | now apply blank_app]. Qed.

End TextFacts.

Module LineFacts.
Import Js.

Lemma split_single l : oneLine l -> split "010" l = [l].
Proof.
  unfold oneLine. induction l as [|c l IH]; intros H; [reflexivity|].
  cbn [split]. destruct (Ascii.eqb_spec c "010") as [->|Hc].
  - exfalso. apply H. now left.
  - rewrite IH; [reflexivity|]. intros Hin. apply H. now right.
Qed.

Lemma split_app_nl l s : oneLine l -> split "010" (l ++ nl ++ s) = l :: split "010" s.
Proof.
  unfold oneLine. induction l as [|c l IH]; intros H; [reflexivity|].
  change ((c :: l) ++ nl ++ s) with (c :: (l ++ nl ++ s)).
  cbn [split]. destruct (Ascii.eqb_spec c "010") as [->|Hc].
  - exfalso. apply H. now left.
  - rewrite IH; [reflexivity|]. intros Hin. apply H. now right.
Qed.

(** Joining lines that hold no line break and splitting again gives
    the lines back. *)
Lemma split_join ls :
  ls <> [] -> Forall oneLine ls -> split "010" (join nl ls) = ls.
Proof.
  induction ls as [|l ls IH]; intros Hne H; [contradiction|].
  inversion H as [|? ? Hl Hls]; subst.
  destruct ls as [|l' ls].
  - now apply split_single.
  - change (join nl (l :: l' :: ls)) with (l ++ nl ++ join nl (l' :: ls)).
    rewrite split_app_nl by exact Hl. f_equal. apply IH; [discriminate | exact Hls].
Qed.

Lemma split_oneLine s : Forall oneLine (split "010" s).
Proof.
  induction s as [|c s IH]; [constructor; [intros []|constructor]|].
  cbn [split]. destruct (Ascii.eqb_spec c "010") as [->|Hc].
  - constructor; [intros []|exact IH].
  - destruct (JsFacts.split_cons "010" s) as (l & ls & E). rewrite E in *.
    inversion IH as [|? ? Hl Hls]; subst. cbn [hd tl]. constructor; [|exact Hls].
    intros [H|H]; [congruence | now apply Hl].
Qed.

Lemma split_nonempty s : split "010" s <> [].
Proof. destruct (JsFacts.split_cons "010" s) as (l & ls & ->). discriminate. Qed.

Lemma split_length s : List.length (split "010" s) = S (occ "010" s).
Proof.
  induction s as [|c s IH]; [reflexivity|].
  cbn [split]. destruct (Ascii.eqb_spec c "010") as [->|Hc].
  - cbn [List.length]. rewrite IH. unfold occ. now rewrite count_occ_cons_eq.
  - destruct (JsFacts.split_cons "010" s) as (l & ls & E). rewrite E in *.
    cbn [hd tl List.length] in *. rewrite IH. unfold occ.
    now rewrite count_occ_cons_neq.
Qed.

Lemma oneLine_app u v : oneLine u -> oneLine v -> oneLine (u ++ v).
Proof. unfold oneLine. intros Hu Hv H. apply in_app_or in H. tauto. Qed.

Lemma oneLine_trimStart s : oneLine s -> oneLine (trimStart s).
Proof.
  unfold oneLine. intros H Hin. apply H.
  destruct (TextFacts.trimStart_split s) as (u & _ & E). rewrite E.
  apply in_or_app. now right.
Qed.

Lemma oneLine_trimEnd s : oneLine s -> oneLine (trimEnd s).
Proof.
  unfold oneLine. intros H Hin. apply H.
  destruct (TextFacts.trimEnd_split s) as (u & _ & E). rewrite E.
  apply in_or_app. now left.
Qed.

Lemma oneLine_trim s : oneLine s -> oneLine (trim s).
Proof. intros H. unfold trim. now apply oneLine_trimEnd, oneLine_trimStart. Qed.

Lemma oneLine_repeatN u n : oneLine u -> oneLine (repeatN u n).
Proof.
  intros H. induction n as [|n IH]; simpl; [intros []|now apply oneLine_app].
Qed.

Lemma startsWith_spec p : forall s, startsWith s p = true <-> exists v, s = p ++ v.
Proof.
  induction p as [|c p IH]; intros s.
  - destruct s; simpl; split; eauto.
  - destruct s as [|d s]; simpl.
    + split; [discriminate | intros (v & H); discriminate].
    + rewrite andb_true_iff, IH. split.
      * intros [Hc (v & ->)]. apply Ascii.eqb_eq in Hc. subst. now exists v.
      * intros (v & H). inversion H; subst. split; [apply Ascii.eqb_refl | now exists v].
Qed.

Lemma includes_spec p s : includes s p = true <-> exists u v, s = u ++ p ++ v.
Proof.
  induction s as [|c s IH].
  - cbn [includes]. rewrite orb_false_r, startsWith_spec. split.
    + intros (v & H). now exists [], v.
    + intros (u & v & H). symmetry in H. apply app_eq_nil in H. destruct H as [-> H].
      apply app_eq_nil in H. destruct H as [-> ->]. now exists [].
  - cbn [includes]. rewrite orb_true_iff, startsWith_spec, IH. split.
    + intros [(v & H)|(u & v & H)]; [now exists [], v|].
      exists (c :: u), v. simpl. now f_equal.
    + intros (u & v & H). destruct u as [|x u]; [left; now exists v|].
      right. inversion H; subst. now exists u, v.
Qed.

Lemma endsWith_spec s p : endsWith s p = true <-> exists u, s = u ++ p.
Proof.
  unfold endsWith. rewrite startsWith_spec. split.
  - intros (v & H). exists (rev v). apply (f_equal (@rev ascii)) in H.
    rewrite rev_involutive, rev_app_distr, rev_involutive in H. exact H.
  - intros (u & ->). exists (rev u). now rewrite rev_app_distr.
Qed.

End LineFacts.

Module RouteFacts.
Import Route.

Lemma firstn_plus {A} (l : list A) a b :
  firstn (a + b) l = firstn a l ++ firstn b (skipn a l).
Proof.
  revert l. induction a as [|a IH]; intros l; [reflexivity|].
  destruct l as [|x l]; simpl; [now rewrite firstn_nil | now rewrite IH].
Qed.

Lemma slice_chunk s index : slice s index (index + chunkSize) = firstn chunkSize (skipn index s).
Proof. unfold slice. now rewrite Nat.add_comm, Nat.add_sub. Qed.

Lemma slice_prefix s n : slice s 0 n = firstn n s.
Proof. unfold slice. now rewrite Nat.sub_0_r. Qed.

Lemma sendChunk_spec result :
  forall fuel index,
    List.length (code result) - index < fuel ->
    exists events,
      sendChunk fuel result index = Some (events ++ [Done])
      /\ concat (map deltaOf events) = skipn index (code result)
      /\ forall i e,
           nth_error events i = Some e ->
           exists d,
             e = Delta d (firstn index (code result)
                          ++ concat (map deltaOf (firstn (S i) events)))
             /\ 0 < List.length d <= chunkSize
             /\ (S i < List.length events -> List.length d = chunkSize).
Proof.
  induction fuel as [|fuel IH]; intros index Hf; [lia|].
  cbn [sendChunk]. destruct (Nat.ltb_spec index (List.length (code result))) as [Hlt|Hge].
  - destruct (IH (index + chunkSize)) as (events & E & C & P).
    { unfold chunkSize. lia. }
    rewrite E. rewrite slice_chunk, slice_prefix.
    exists (Delta (firstn chunkSize (skipn index (code result)))
                  (firstn (index + chunkSize) (code result)) :: events).
    split; [reflexivity|]. split.
    + cbn [map concat deltaOf]. rewrite C.
      rewrite <- (firstn_skipn chunkSize (skipn index (code result))) at 2.
      f_equal. rewrite skipn_skipn. f_equal. lia.
    + intros i e Hi. destruct i as [|i].
      * cbn [nth_error] in Hi. injection Hi as <-.
        exists (firstn chunkSize (skipn index (code result))). split; [|split].
        -- f_equal. cbn [firstn map concat deltaOf]. rewrite app_nil_r.
           apply firstn_plus.
        -- rewrite length_firstn, length_skipn. unfold chunkSize. lia.
        -- intros Hl. cbn [List.length] in Hl.
           destruct events as [|e' events']; [simpl in Hl; lia|].
           destruct (P 0 e' eq_refl) as (d' & Ee & Hd' & _).
           apply (f_equal deltaOf) in Ee. cbn [deltaOf] in Ee.
           cbn [map concat] in C. rewrite Ee in C.
           assert (L : 0 < List.length (skipn (index + chunkSize) (code result))).
           { rewrite <- C, length_app. lia. }
           rewrite length_skipn in L.
           rewrite length_firstn, length_skipn. unfold chunkSize in *. lia.
      * cbn [nth_error] in Hi. destruct (P i e Hi) as (d & -> & Hd & Hl).
        exists d. split; [|split; [exact Hd|]].
        -- f_equal. rewrite firstn_plus, <- app_assoc. reflexivity.
        -- intros H. apply Hl. cbn [List.length] in H. lia.
  - exists []. split; [reflexivity|]. split.
    + simpl. symmetry. apply skipn_all2. lia.
    + intros i e Hi. destruct i; discriminate.
Qed.

End RouteFacts.

Module DiffFacts.
Import DiffViewer.

Lemma orElse_some l : Js.orElse (Some l) "" = l.
Proof. now destruct l. Qed.

Lemma lineAt_cons l ls i : lineAt (l :: ls) (S i) = lineAt ls i.
Proof. reflexivity. Qed.

Lemma lineAt_head l ls : lineAt (l :: ls) 0 = l.
Proof. apply orElse_some. Qed.

Lemma lineAt_beyond ls i : List.length ls <= i -> lineAt ls i = [].
Proof. intros H. unfold lineAt. apply nth_error_None in H. now rewrite H. Qed.

(** Reading the indices [0 .. n-1] of an array of [n] or fewer lines
    gives the lines, then empty strings. *)
Lemma lineAt_seq ls :
  forall n, List.length ls <= n ->
            map (lineAt ls) (seq 0 n) = ls ++ List.repeat [] (n - List.length ls).
Proof.
  induction ls as [|l ls IH]; intros n Hn.
  - cbn [List.length app]. rewrite Nat.sub_0_r. clear Hn.
    generalize 0. induction n as [|n IHn]; intros k; [reflexivity|].
    cbn [seq map List.repeat]. rewrite IHn. f_equal.
    apply lineAt_beyond. simpl. lia.
  - destruct n as [|n]; [simpl in Hn; lia|].
    cbn [seq map]. rewrite lineAt_head, <- seq_shift, map_map.
    cbn [List.length Nat.sub app]. f_equal.
    rewrite <- IH by (simpl in Hn; lia). apply map_ext. intros i. apply lineAt_cons.
Qed.

Lemma mapi_seq {B} (f : str -> nat -> B) ls :
  forall k, mapi f ls k
            = map (fun i => f (lineAt ls (i - k)) i) (seq k (List.length ls)).
Proof.
  induction ls as [|l ls IH]; intros k; [reflexivity|].
  cbn [mapi List.length seq map]. rewrite Nat.sub_diag, lineAt_head. f_equal.
  rewrite IH. apply map_ext_in. intros i Hi. apply in_seq in Hi.
  replace (i - k) with (S (i - S k)) by lia. now rewrite lineAt_cons.
Qed.

Lemma filter_blank_tail ls k : filter nonEmpty (ls ++ List.repeat [] k) = filter nonEmpty ls.
Proof.
  rewrite filter_app. induction k as [|k IH]; [apply app_nil_r|]. exact IH.
Qed.

Lemma diffAt_source sl tl lc i :
  filter nonEmpty (map sourceLine (diffAt sl tl lc i)) = filter nonEmpty [lineAt sl i].
Proof.
  unfold diffAt. fold (lineAt sl i). fold (lineAt tl i).
  destruct (lineAt sl i) as [|c s] eqn:Es, (lineAt tl i) as [|d t] eqn:Et;
    cbn [isEmpty negb andb]; try reflexivity.
  destruct (Js.eqs (c :: s) (d :: t)); reflexivity.
Qed.

Lemma diffAt_translated sl tl lc i :
  filter nonEmpty (map translatedLine (diffAt sl tl lc i)) = filter nonEmpty [lineAt tl i].
Proof.
  unfold diffAt. fold (lineAt sl i). fold (lineAt tl i).
  destruct (lineAt sl i) as [|c s] eqn:Es, (lineAt tl i) as [|d t] eqn:Et;
    cbn [isEmpty negb andb]; try reflexivity.
  destruct (Js.eqs (c :: s) (d :: t)) eqn:E; [|reflexivity].
  apply RegexFacts.eqs_true in E. now rewrite E.
Qed.

Lemma flat_map_filter {A B} (g : nat -> list A) (f : A -> B) (h : nat -> B) P idxs :
  (forall i, filter P (map f (g i)) = filter P [h i]) ->
  filter P (map f (flat_map g idxs)) = filter P (map h idxs).
Proof.
  intros H. induction idxs as [|i idxs IH]; [reflexivity|].
  cbn [flat_map map]. rewrite map_app, filter_app, H, IH.
  change (h i :: map h idxs) with ([h i] ++ map h idxs). now rewrite filter_app.
Qed.

Lemma diffAt_coherent sl tl lc i : Forall coherent (diffAt sl tl lc i).
Proof.
  unfold diffAt. fold (lineAt sl i). fold (lineAt tl i).
  destruct (lineAt sl i) as [|c s] eqn:Es, (lineAt tl i) as [|d t] eqn:Et;
    cbn [isEmpty negb andb].
  - rewrite RegexFacts.eqs_refl. constructor; [|constructor]. right. right. now split.
  - constructor; [|constructor]. left. repeat split. discriminate.
  - constructor; [|constructor]. right. left. repeat split. discriminate.
  - destruct (Js.eqs (c :: s) (d :: t)) eqn:E.
    + apply RegexFacts.eqs_true in E. constructor; [|constructor].
      right. right. now split.
    + constructor; [|constructor; [|constructor]].
      * right. left. repeat split. discriminate.
      * left. repeat split. discriminate.
Qed.

Lemma diffAt_number sl tl lc i :
  Forall (fun d => lineNumber d = i + 1) (diffAt sl tl lc i).
Proof.
  unfold diffAt. repeat (destruct (_ : bool)); repeat constructor.
Qed.

Lemma diffAt_length sl tl lc i : 1 <= List.length (diffAt sl tl lc i) <= 2.
Proof.
  unfold diffAt. repeat (destruct (_ : bool)); simpl; lia.
Qed.

Ltac triple :=
  match goal with
  | |- (?a, ?b, ?c) = (?a', ?b', ?c') =>
      replace a with a' by lia; replace b with b' by lia; replace c with c' by lia;
      reflexivity
  end.

Lemma stats_count diffs :
  forall a r u,
    fold_left (fun '(a, r, u) d =>
                 if isAdded d then (a + 1, r, u)
                 else if isRemoved d then (a, r + 1, u)
                 else (a, r, u + 1)) diffs (a, r, u)
    = (a + countIf isAdded diffs, r + countIf isRemoved diffs,
       u + countIf (fun d => negb (isAdded d) && negb (isRemoved d)) diffs).
Proof.
  unfold countIf. induction diffs as [|d diffs IH]; intros a r u.
  - simpl. now rewrite !Nat.add_0_r.
  - assert (X : isAdded d = true -> isRemoved d = false).
    { unfold isAdded, isRemoved. destruct (type d); congruence. }
    cbn [fold_left filter]. destruct (isAdded d) eqn:Ea.
    + rewrite IH, X by reflexivity. cbn [negb andb List.length]. triple.
    + destruct (isRemoved d) eqn:Er; rewrite IH; cbn [negb andb List.length]; triple.
Qed.

Lemma computeDiff_spec (before after : str) :
  let n := Nat.max (List.length (Js.split "010" before))
                   (List.length (Js.split "010" after)) in
  let diffs := computeDiff before after in
  Forall coherent diffs
  /\ Forall (fun d => 1 <= lineNumber d <= n) diffs
  /\ n <= List.length diffs <= 2 * n.
Proof.
  intros n diffs. unfold diffs, computeDiff. fold n.
  set (sl := Js.split "010" before). set (tl := Js.split "010" after).
  set (lc := calculateLineChanges before after).
  assert (G : forall k m,
             let ds := flat_map (diffAt sl tl lc) (seq k m) in
             Forall coherent ds
             /\ Forall (fun d => k + 1 <= lineNumber d <= k + m) ds
             /\ m <= List.length ds <= 2 * m).
  { intros k m. revert k. induction m as [|m IH]; intros k.
    - simpl. repeat split; constructor.
    - cbn [seq flat_map]. destruct (IH (S k)) as (C & N & L).
      split; [|split].
      + apply Forall_app. split; [apply diffAt_coherent | exact C].
      + apply Forall_app. split.
        * eapply Forall_impl; [|apply diffAt_number].
          simpl. intros d ->. lia.
        * eapply Forall_impl; [|exact N]. simpl. intros d Hd. lia.
      + rewrite length_app.
        pose proof (diffAt_length sl tl lc k). lia. }
  destruct (G 0 n) as (C & N & L). repeat split; try assumption; try lia.
Qed.

End DiffFacts.

Module OrchestratorFacts.

(** The fields of the result of a call between different languages. *)
Lemma transformCode_different code0 sourceLang targetLang :
  Js.eqs (languageOf sourceLang) (languageOf targetLang) = false ->
  let source := languageOf sourceLang in
  let target := languageOf targetLang in
  let norm := normalizeCode code0 in
  let ls := Js.split "010" (normalized norm) in
  exists r,
    transformCode code0 sourceLang targetLang = Js.Ok r
    /\ lines r = transformLines ls source target
    /\ warnings r
       = fold_left (fun set l => addAll (lineWarnings l) set)
                   (transformLines ls source target) (addAll (normWarnings norm) [])
    /\ postProcessCode (rewrittenText code0 source target) target = Js.Ok (code r)
    /\ buildAST (code r) target = Js.Ok (ast r)
    /\ linesTransformed (statistics r)
       = countIf (fun l => negb (isUnchanged (changeType l)))
                 (transformLines ls source target).
Proof.
  intros Hne source target norm ls. unfold transformCode.
  rewrite Hne. fold source target norm. fold ls.
  destruct (PostFacts.postProcessCode_total (rewrittenText code0 source target) target)
    as (out & Hout).
  pose proof Hout as Hout'. unfold rewrittenText in Hout'. fold norm ls in Hout'.
  rewrite Hout'. cbn [Js.bind].
  destruct (AstFacts.buildAST_total out target) as (tree & Htree). rewrite Htree.
  cbn [Js.bind]. eexists. split; [reflexivity|]. cbn [lines warnings code ast statistics
    linesTransformed]. repeat split; assumption.
Qed.

(** The fields of the result of the fast path. *)
Lemma transformCode_equal code0 sourceLang targetLang :
  Js.eqs (languageOf sourceLang) (languageOf targetLang) = true ->
  exists r,
    transformCode code0 sourceLang targetLang = Js.Ok r
    /\ code r = code0
    /\ lines r = mapi (fun line idx =>
                         {| original := line; transformed := line; lineWarnings := [];
                            lineNumber := idx; changeType := unchanged |})
                      (Js.split "010" code0) 0
    /\ warnings r = []
    /\ buildAST code0 (languageOf sourceLang) = Js.Ok (ast r)
    /\ linesTransformed (statistics r) = 0.
Proof.
  intros He. unfold transformCode. rewrite He.
  destruct (AstFacts.buildAST_total code0 (languageOf sourceLang)) as (tree & Htree).
  rewrite Htree. cbn [Js.bind]. eexists. split; [reflexivity|].
  cbn [lines warnings code ast]. repeat split.
Qed.

Lemma map_mapi {A B C} (g : B -> C) (f : A -> nat -> B) (h : A -> C) l :
  (forall x i, g (f x i) = h x) -> forall k, map g (mapi f l k) = map h l.
Proof.
  intros H. induction l as [|x l IH]; intros k; [reflexivity|].
  cbn [mapi map]. now rewrite H, IH.
Qed.

Lemma transformLine_original line source target i :
  original (transformLine line source target i) = line.
Proof.
  unfold transformLine. destruct (_ || _); [reflexivity|].
  destruct (applyRules line source target). reflexivity.
Qed.

(** A line counts as transformed when its text was rewritten or it
    raised a warning. *)
Lemma transformLine_counted line source target i :
  negb (isUnchanged (changeType (transformLine line source target i)))
  = rewritten (transformLine line source target i).
Proof.
  unfold transformLine, rewritten. destruct (_ || _).
  - cbn [changeType transformed original lineWarnings isUnchanged].
    now rewrite RegexFacts.eqs_refl.
  - destruct (applyRules line source target) as [t ws].
    cbn [changeType transformed original lineWarnings].
    destruct ws as [|w ws]; cbn [List.length Nat.eqb negb];
      [|now rewrite orb_true_r].
    destruct (Js.eqs t line); reflexivity.
Qed.

Lemma transformLines_counted ls source target :
  countIf (fun l => negb (isUnchanged (changeType l))) (transformLines ls source target)
  = countIf rewritten (transformLines ls source target).
Proof.
  unfold transformLines, countIf. generalize 0 as k.
  induction ls as [|l ls IH]; intros k; [reflexivity|].
  cbn [mapi filter]. rewrite transformLine_counted.
  destruct (rewritten _); cbn [List.length]; now rewrite IH.
Qed.

Lemma kept_lines_not_rewritten ls :
  forall k,
    countIf rewritten
            (mapi (fun line idx =>
                     {| original := line; transformed := line; lineWarnings := [];
                        lineNumber := idx; changeType := unchanged |}) ls k) = 0.
Proof.
  unfold countIf. induction ls as [|l ls IH]; intros k; [reflexivity|].
  cbn [mapi filter]. unfold rewritten at 1.
  cbn [transformed original lineWarnings List.length Nat.eqb negb].
  rewrite RegexFacts.eqs_refl. apply IH.
Qed.


Lemma known_go t : known t = Some go -> t = "go".
Proof.
  unfold known.
  repeat match goal with
         | |- (if Js.eqs t ?l then _ else _) = _ -> _ =>
             let E := fresh "E" in
             destruct (Js.eqs t l) eqn:E;
             [try discriminate; intros _; now apply RegexFacts.eqs_true in E|]
         end.
  discriminate.
Qed.

(** The only warning a line can raise is the struct warning, for a
    Python source and the target Go. *)
Lemma transformLine_warnings line source target i :
  lineWarnings (transformLine line source target i) = []
  \/ (lineWarnings (transformLine line source target i) = [structWarning]
      /\ target = "go" /\ source = "python").
Proof.
  unfold transformLine. destruct (_ || _); [now left|].
  unfold applyRules.
  destruct (transformClassDef (transformFunctionDef line source target) source target [])
    as [t ws] eqn:E.
  cbn [lineWarnings]. unfold transformClassDef in E.
  destruct (Js.eqs source "python") eqn:Es; [|inversion E; now left].
  apply RegexFacts.eqs_true in Es.
  destruct (Regex.search re_py_class [] _) as [[[[skipped m] cs] rest]|];
    [|inversion E; now left].
  unfold classHeader in E.
  destruct (known target) as [[]|] eqn:Ek; inversion E; subst; try now left.
  right. repeat split. now apply known_go.
Qed.

Lemma existsb_eqs w set : existsb (Js.eqs w) set = true <-> In w set.
Proof.
  rewrite existsb_exists. split.
  - intros (x & Hx & E). apply RegexFacts.eqs_true in E. now subst.
  - intros H. exists w. split; [exact H | apply RegexFacts.eqs_refl].
Qed.

Lemma setAdd_spec (P : str -> Prop) w set :
  NoDup set -> Forall P set -> P w ->
  NoDup (setAdd w set) /\ Forall P (setAdd w set).
Proof.
  intros Hn Hf Hw. unfold setAdd.
  destruct (existsb (Js.eqs w) set) eqn:E; [now split|].
  split.
  - apply NoDup_app; [exact Hn | repeat constructor; intros [] | ].
    intros x Hx [<-|[]]. apply existsb_eqs in Hx. congruence.
  - apply Forall_app. split; [exact Hf | now repeat constructor].
Qed.

Lemma addAll_spec (P : str -> Prop) ws :
  forall set, NoDup set -> Forall P set -> Forall P ws ->
              NoDup (addAll ws set) /\ Forall P (addAll ws set).
Proof.
  unfold addAll. induction ws as [|w ws IH]; intros set Hn Hf Hw; [now split|].
  inversion Hw; subst. cbn [fold_left].
  destruct (setAdd_spec P w set Hn Hf) as [Hn' Hf']; [assumption|]. now apply IH.
Qed.

(** What [transformCode] returns as warnings: no warning twice, and
    none but the mixed-language warning and the struct warning. *)
Lemma warnings_spec code0 sourceLang targetLang :
  exists r,
    transformCode code0 sourceLang targetLang = Js.Ok r
    /\ NoDup (warnings r)
    /\ Forall (fun w => w = mixedWarning code0
                        \/ (w = structWarning /\ languageOf targetLang = "go"
                            /\ languageOf sourceLang = "python"))
              (warnings r).
Proof.
  destruct (Js.eqs (languageOf sourceLang) (languageOf targetLang)) eqn:E.
  - destruct (transformCode_equal code0 _ _ E) as (r & R & _ & _ & W & _).
    exists r. rewrite W. split; [exact R|]. split; constructor.
  - destruct (transformCode_different code0 _ _ E) as (r & R & _ & W & _).
    exists r. split; [exact R|]. rewrite W. clear W R.
    set (P := fun w => w = mixedWarning code0
                       \/ (w = structWarning /\ languageOf targetLang = "go"
                           /\ languageOf sourceLang = "python")).
    assert (H0 : NoDup (addAll (normWarnings (normalizeCode code0)) [])
                 /\ Forall P (addAll (normWarnings (normalizeCode code0)) [])).
    { apply addAll_spec; [constructor | constructor |].
      unfold normalizeCode, preprocessCode. cbn [normWarnings app].
      destruct (detected _); [|constructor].
      constructor; [|constructor]. left. reflexivity. }
    destruct H0 as [Hn Hf]. revert Hn Hf.
    generalize (addAll (normWarnings (normalizeCode code0)) []) as set.
    unfold transformLines. generalize 0 as k.
    induction (Js.split "010" (normalized (normalizeCode code0))) as [|l ls IH];
      intros k set Hn Hf; [now split|].
    cbn [mapi fold_left].
    destruct (addAll_spec P (lineWarnings (transformLine l (languageOf sourceLang)
                                             (languageOf targetLang) k)) set Hn Hf)
      as [Hn' Hf'].
    { destruct (transformLine_warnings l (languageOf sourceLang)
                  (languageOf targetLang) k) as [->|(-> & Ht & Hs)];
        [constructor|]. constructor; [|constructor]. right. now repeat split. }
    now apply IH.
Qed.

End OrchestratorFacts.

Module IndentFacts.
Import Js.

Lemma isEmpty_nil (s : str) : isEmpty s = true <-> s = [].
Proof. destruct s; simpl; split; congruence. Qed.

Lemma tidy_trim l : trim l <> [] -> tidy (trim l).
Proof. intros H. split; [exact H | apply TextFacts.trim_idem]. Qed.

Lemma blank_indent k : blank (repeatN "  " k).
Proof. apply TextFacts.blank_repeatN. reflexivity. Qed.

(** What the indentation pass writes for a line: nothing for a line of
    white space, else the trimmed line after two-space units. *)
Lemma reindent_lines lines :
  forall inBlock,
    (0 <= inBlock)%Z ->
    exists out,
      reindent lines inBlock = Ok out
      /\ Forall2 (fun l o => (trim l = [] /\ o = [])
                             \/ (trim l <> [] /\ exists k, o = repeatN "  " k ++ trim l))
                 lines out.
Proof.
  induction lines as [|line lines IH]; intros inBlock Hz.
  - exists []. split; [reflexivity | constructor].
  - cbn [reindent]. destruct (isEmpty (trim line)) eqn:Ee.
    + destruct (IH inBlock Hz) as (out & R & F). rewrite R. cbn [bind].
      eexists. split; [reflexivity|]. constructor; [|exact F].
      left. split; [now apply isEmpty_nil | reflexivity].
    + remember (if startsWith (trim line) "}" || startsWith (trim line) "end"
                then Z.max 0 (inBlock - 1) else inBlock) as level eqn:EL.
      assert (Hl : (0 <= level)%Z).
      { destruct (startsWith (trim line) "}" || startsWith (trim line) "end"); lia. }
      clear EL. unfold repeat. destruct (Z.ltb_spec level 0); [lia|]. cbn [bind].
      remember (if endsWith (trim line) "{" || endsWith (trim line) ":"
                   || eqs (trim line) "do"
                then (level + 1)%Z else level) as level' eqn:EL'.
      assert (Hl' : (0 <= level')%Z).
      { destruct (endsWith (trim line) "{" || endsWith (trim line) ":"
                  || eqs (trim line) "do"); lia. }
      clear EL'.
      destruct (IH level' Hl') as (out & R & F). rewrite R. cbn [bind].
      eexists. split; [reflexivity|]. constructor; [|exact F].
      right. split; [|now eexists].
      intros Hn. apply isEmpty_nil in Hn. congruence.
Qed.

(** The pass changes nothing in lines it has written. *)
Lemma reindent_again lines :
  forall inBlock out, reindent lines inBlock = Ok out -> reindent out inBlock = Ok out.
Proof.
  induction lines as [|line lines IH]; intros inBlock out H.
  - inversion H. reflexivity.
  - cbn [reindent] in H. destruct (isEmpty (trim line)) eqn:Ee.
    + destruct (reindent lines inBlock) as [rest|] eqn:R; [|discriminate].
      cbn [bind] in H. inversion H; subst. cbn [reindent].
      change (isEmpty (trim [])) with true. cbv iota.
      now rewrite (IH _ _ R).
    + destruct (repeat "  " _) as [indent|] eqn:Ei; [|discriminate].
      cbn [bind] in H.
      destruct (reindent lines _) as [rest|] eqn:R; [|discriminate].
      cbn [bind] in H. inversion H; subst. cbn [reindent].
      assert (B : blank indent).
      { unfold repeat in Ei. destruct (_ <? 0)%Z; [discriminate|].
        inversion Ei. apply blank_indent. }
      rewrite (TextFacts.trim_blank _ _ B), TextFacts.trim_idem, Ee, Ei.
      cbn [bind]. now rewrite (IH _ _ R).
Qed.

Lemma Forall2_length' {A B} (R : A -> B -> Prop) l l' :
  Forall2 R l l' -> List.length l = List.length l'.
Proof. induction 1; simpl; congruence. Qed.

(** The lines the pass has written, joined and split again, are the
    same lines. *)
Lemma reindent_split lines inBlock out :
  (0 <= inBlock)%Z -> lines <> [] -> Forall oneLine lines ->
  reindent lines inBlock = Ok out ->
  split "010" (join nl out) = out /\ Forall indented out.
Proof.
  intros Hz Hne Hl R.
  destruct (reindent_lines lines inBlock Hz) as (out' & R' & F).
  rewrite R in R'. inversion R'; subst out'. clear R'.
  assert (G : Forall oneLine out /\ Forall indented out).
  { clear R Hne. induction F as [|l o ls os Hlo F IH]; [split; constructor|].
    inversion Hl; subst. destruct (IH H2) as [I1 I2].
    destruct Hlo as [(_ & ->)|(Ht & k & ->)].
    - split; constructor; try assumption; [intros [] | now left].
    - split; constructor; try assumption.
      + apply LineFacts.oneLine_app; [apply LineFacts.oneLine_repeatN|].
        * intros [H|[H|[]]]; discriminate.
        * now apply LineFacts.oneLine_trim.
      + right. exists k, (trim l). split; [reflexivity | now apply tidy_trim]. }
  destruct G as [G1 G2]. split; [|exact G2].
  apply LineFacts.split_join; [|exact G1].
  apply Forall2_length' in F. destruct out; [|discriminate].
  destruct lines; [contradiction | discriminate].
Qed.

(** Post-processing ends with the indentation pass over some text. *)
Lemma postProcessCode_reindents p t :
  exists q ls,
    reindent (split "010" q) 0 = Ok ls
    /\ postProcessCode p t = Ok (join nl ls)
    /\ (isOneOf t braceLanguages = false -> eqs t "python" = false ->
        eqs t "ruby" = false -> q = p)
    /\ (eqs t "ruby" = true ->
        exists p', q = Regex.replaceAll re_semi_eol (fun _ _ => "")
                       (Regex.replaceAll re_close (fun _ _ => "")
                          (Regex.replaceAll re_open (fun _ _ => "") p')))
    /\ (eqs t "go" = true -> includes q "package " = true).
Proof.
  unfold postProcessCode.
  assert (H : exists q, (if isOneOf t braceLanguages
                         then processed <- balanceBraces p ;;
                              Ok (Regex.replaceAll re_newline_brace (fun _ _ => " {" : str)
                                    processed)
                         else Ok p) = Ok q
                        /\ (isOneOf t braceLanguages = false -> q = p)).
  { destruct (isOneOf t braceLanguages); [|now eexists].
    destruct (PostFacts.balanceBraces_spec p) as (out & R & _). rewrite R.
    eexists. split; [reflexivity | discriminate]. }
  destruct H as (q & -> & Hq). cbn [bind].
  match goal with
  | |- context [reindent (split "010" ?x) 0] =>
      destruct (PostFacts.reindent_spec (split "010" x) 0%Z) as (out & R & _); [lia|];
      exists x, out; rewrite R
  end.
  split; [reflexivity|]. split; [reflexivity|]. split; [|split].
  - intros Hb Hp Hr. rewrite Hp, Hr.
    assert (Hg : eqs t "go" = false).
    { unfold isOneOf, braceLanguages in Hb. cbn [existsb] in Hb.
      repeat (apply orb_false_elim in Hb; destruct Hb as [? Hb]).
      repeat match goal with
             | H : _ || _ = false |- _ => apply orb_false_elim in H; destruct H
             end.
      assumption. }
    rewrite Hg. now apply Hq.
  - intros Hr. rewrite Hr. apply RegexFacts.eqs_true in Hr. subst t.
    cbn [eqs]. change (eqs "ruby" "go") with false. cbv iota. now eexists.
  - intros Hg. rewrite Hg.
    match goal with
    | |- includes (if negb (includes ?x _) then _ else _) _ = true =>
        set (q2 := x)
    end.
    destruct (includes q2 "package ") eqn:E; cbn [negb]; [exact E|].
    apply LineFacts.includes_spec. exists []. eexists. reflexivity.
Qed.

End IndentFacts.

Module EraseFacts.
Import Regex.

Lemma erase_scan c s :
  forall before,
    occ c (concat (scan (Chr c) (fun _ _ => []) (fun x => [x]) before s 0)) = 0.
Proof.
  induction s as [|x s IH]; intros before; [reflexivity|].
  cbn [scan]. unfold matchAt. cbn [rmatch].
  destruct (Ascii.eqb_spec x c) as [->|Hx].
  - unfold matched. cbn [List.length]. rewrite Nat.sub_succ_l, Nat.sub_diag by lia.
    cbn [firstn List.length concat app]. apply IH.
  - cbn [concat]. rewrite JsFacts.occ_app, IH.
    unfold occ. rewrite count_occ_cons_neq by exact Hx. reflexivity.
Qed.

(** Replacing every occurrence of a unit by nothing leaves none. *)
Lemma replaceAll_erase c s : occ c (replaceAll (Chr c) (fun _ _ => []) s) = 0.
Proof. apply erase_scan. Qed.

Lemma Lang_chr c u : Lang (Chr c) u -> u = [c].
Proof. intros H. now inversion H. Qed.

(** Erasing a unit keeps the count of every other unit. *)
Lemma replaceAll_erase_other c d s :
  d <> c -> occ d (replaceAll (Chr c) (fun _ _ => []) s) = occ d s.
Proof.
  intros Hd. apply RegexFacts.replaceAll_occ. intros u cs Hu.
  apply Lang_chr in Hu. subst u. unfold occ.
  rewrite count_occ_cons_neq by congruence. reflexivity.
Qed.

Lemma semi_eol_occ c s :
  c <> ";"%char -> occ c (replaceAll re_semi_eol (fun _ _ => []) s) = occ c s.
Proof.
  intros Hc. apply RegexFacts.replaceAll_occ. intros u cs Hu.
  unfold re_semi_eol in Hu.
  inversion Hu as [| | |r1 r2 u1 u2 H1 H2| | | | | | | | | |]; subst.
  inversion H1; subst. inversion H2; subst. cbn [app]. unfold occ.
  rewrite count_occ_cons_neq by congruence. reflexivity.
Qed.

End EraseFacts.

Module DetectFacts.

Lemma allb_spec f : allb f = true -> forall b, f b = true.
Proof.
  unfold allb. intros H b. apply andb_prop in H. destruct H. now destruct b.
Qed.

(** Whatever the tests on the text give, the answer is a detectable
    language. *)
Lemma pick_detectable :
  forall def imp prt ind fc lt log ts jv cp gop fn cs ph en,
    isOneOf (pick (scoresFrom def imp prt ind fc lt log ts jv cp gop fn cs ph en))
            detectable = true.
Proof.
  assert (H : allb (fun def => allb (fun imp => allb (fun prt => allb (fun ind =>
              allb (fun fc => allb (fun lt => allb (fun log => allb (fun ts =>
              allb (fun jv => allb (fun cp => allb (fun gop => allb (fun fn =>
              allb (fun cs => allb (fun ph => allb (fun en =>
                isOneOf (pick (scoresFrom def imp prt ind fc lt log ts jv cp gop fn
                                          cs ph en)) detectable)))))))))))))))
              = true) by (vm_compute; reflexivity).
  intros def imp prt ind fc lt log ts jv cp gop fn cs ph en.
  apply (allb_spec _) with (b := def) in H. apply (allb_spec _) with (b := imp) in H.
  apply (allb_spec _) with (b := prt) in H. apply (allb_spec _) with (b := ind) in H.
  apply (allb_spec _) with (b := fc) in H. apply (allb_spec _) with (b := lt) in H.
  apply (allb_spec _) with (b := log) in H. apply (allb_spec _) with (b := ts) in H.
  apply (allb_spec _) with (b := jv) in H. apply (allb_spec _) with (b := cp) in H.
  apply (allb_spec _) with (b := gop) in H. apply (allb_spec _) with (b := fn) in H.
  apply (allb_spec _) with (b := cs) in H. apply (allb_spec _) with (b := ph) in H.
  apply (allb_spec _) with (b := en) in H. exact H.
Qed.

Lemma languageScores_from text :
  let has := Js.includes (Js.toLowerCase text) in
  languageScores text
  = scoresFrom (has "def ") (has "import " || has "from ") (has "print(")
               (existsb (Regex.test re_indented)
                        (Js.split "010" (Js.toLowerCase text)))
               (has "function " || has "const ") (has "let ") (has "console.log")
               (has ": string" || has ": number" || has "interface ")
               (has "public class" || has "public static")
               (has "#include" || has "std::")
               (has "package " && has "func ")
               (has "fn ") (has "using " && has "namespace ")
               (has "<?php" || has "$") (has "end").
Proof. reflexivity. Qed.

Lemma insertDesc_perm x l : Permutation (insertDesc x l) (x :: l).
Proof.
  induction l as [|y l IH]; [reflexivity|]. cbn [insertDesc].
  destruct (snd y <=? snd x); [reflexivity|].
  rewrite IH. apply perm_swap.
Qed.

(** Sorting keeps the entries. *)
Lemma sortDesc_perm l : Permutation (sortDesc l) l.
Proof.
  induction l as [|x l IH]; [reflexivity|].
  cbn [sortDesc fold_right]. fold (sortDesc l). rewrite insertDesc_perm. now constructor.
Qed.

Lemma insertDesc_sorted x l :
  StronglySorted (fun a b => snd b <= snd a) l ->
  StronglySorted (fun a b => snd b <= snd a) (insertDesc x l).
Proof.
  induction 1 as [|y l Hl IH Hy]; [repeat constructor|]. cbn [insertDesc].
  destruct (Nat.leb_spec (snd y) (snd x)) as [Hle|Hgt].
  - constructor; [now constructor|]. constructor; [exact Hle|].
    eapply Forall_impl; [|exact Hy]. simpl. intros. lia.
  - constructor; [exact IH|].
    apply (Permutation_Forall (Permutation_sym (insertDesc_perm x l))).
    constructor; [lia | exact Hy].
Qed.

(** The sorted entries are in descending order of score. *)
Lemma sortDesc_sorted l : StronglySorted (fun a b => snd b <= snd a) (sortDesc l).
Proof.
  induction l as [|x l IH]; [constructor|].
  cbn [sortDesc fold_right]. fold (sortDesc l). now apply insertDesc_sorted.
Qed.

(** The first sorted entry has the highest score. *)
Lemma sortDesc_head l e rest :
  sortDesc l = e :: rest -> In e l /\ forall e', In e' l -> snd e' <= snd e.
Proof.
  intros H. pose proof (sortDesc_perm l) as P. pose proof (sortDesc_sorted l) as S.
  rewrite H in P, S. split.
  - apply (Permutation_in _ P). now left.
  - intros e' He'. apply (Permutation_in _ (Permutation_sym P)) in He'.
    inversion S as [|? ? _ Hall]; subst. destruct He' as [<-|He']; [lia|].
    rewrite Forall_forall in Hall. now apply Hall.
Qed.

Lemma lookup_in {A} (table : list (str * A)) k v :
  NoDup (map fst table) -> In (k, v) table -> Legacy.lookup k table = Some v.
Proof.
  induction table as [|[k' v'] table IH]; intros Hn Hin; [destruct Hin|].
  inversion Hn as [|? ? Hk Hn']; subst. cbn [Legacy.lookup].
  destruct Hin as [E|Hin].
  - inversion E; subst. now rewrite RegexFacts.eqs_refl.
  - destruct (Js.eqs k' k) eqn:E; [|now apply IH].
    apply RegexFacts.eqs_true in E. subst k'. exfalso. apply Hk.
    apply in_map_iff. now exists (k, v).
Qed.

Lemma sorted_map {A B} (R : A -> A -> Prop) (R' : B -> B -> Prop) (f : A -> B) l :
  (forall a b, In a l -> In b l -> R a b -> R' (f a) (f b)) ->
  StronglySorted R l -> StronglySorted R' (map f l).
Proof.
  intros H S. induction S as [|a l S IH Ha]; [constructor|].
  cbn [map]. constructor.
  - apply IH. intros x y Hx Hy. apply H; now right.
  - apply Forall_map. rewrite Forall_forall in *. intros b Hb.
    apply H; [now left | now right | now apply Ha].
Qed.

(** The keys of the scored entries, sorted: each key once, in
    descending order of score. *)
Lemma sorted_keys scores :
  NoDup (map fst scores) ->
  let keys := map fst (sortDesc (filter (fun e => 0 <? snd e) scores)) in
  Permutation keys (map fst (filter (fun e => 0 <? snd e) scores))
  /\ NoDup keys
  /\ StronglySorted (fun a b => scoreOf scores b <= scoreOf scores a) keys.
Proof.
  intros Hn keys.
  assert (P : Permutation keys (map fst (filter (fun e => 0 <? snd e) scores))).
  { apply Permutation_map, sortDesc_perm. }
  assert (F : NoDup (map fst (filter (fun e => 0 <? snd e) scores))).
  { clear P keys. induction scores as [|[k v] scores IH]; [constructor|].
    inversion Hn as [|? ? Hk Hn']; subst. cbn [filter snd].
    destruct (0 <? v); [|now apply IH]. cbn [map fst]. constructor; [|now apply IH].
    intros Hin. apply Hk. apply in_map_iff in Hin. destruct Hin as (e & <- & He).
    apply filter_In in He. apply in_map. tauto. }
  split; [exact P|]. split.
  - apply (Permutation_NoDup (Permutation_sym P) F).
  - apply (sorted_map (fun a b => snd b <= snd a)); [|apply sortDesc_sorted].
    intros [ka va] [kb vb] Ha Hb Hab.
    apply (Permutation_in _ (sortDesc_perm _)) in Ha, Hb.
    apply filter_In in Ha, Hb. destruct Ha as [Ha _], Hb as [Hb _].
    unfold scoreOf. cbn [fst snd] in *.
    now rewrite (lookup_in _ _ _ Hn Ha), (lookup_in _ _ _ Hn Hb).
Qed.

End DetectFacts.

Module LowerFacts.
Import Js.

Lemma lowerChar_not_S x : lowerChar x <> "S"%char.
Proof. destruct x as [[] [] [] [] [] [] [] []]; vm_compute; discriminate. Qed.

(** A text in lower case holds no upper-case [S], so no text that
    has one occurs in it. *)
Lemma lower_excludes text u v :
  includes (toLowerCase text) (u ++ "S" ++ v) = false.
Proof.
  destruct (includes (toLowerCase text) (u ++ "S" ++ v)) eqn:E; [|reflexivity].
  apply LineFacts.includes_spec in E. destruct E as (a & b & E).
  assert (H : In "S"%char (toLowerCase text)).
  { rewrite E. apply in_or_app. right. apply in_or_app. left.
    apply in_or_app. right. now left. }
  unfold toLowerCase in H. apply in_map_iff in H. destruct H as (x & Hx & _).
  now apply lowerChar_not_S in Hx.
Qed.

End LowerFacts.

Module TreeFacts.
Import Js.

Lemma pushChild_nth child :
  forall st parent i,
    nth_error (pushChild st parent child) i
    = if i =? parent then option_map (fun n => withChild n child) (nth_error st i)
      else nth_error st i.
Proof.
  induction st as [|n st IH]; intros parent i.
  - assert (E : pushChild [] parent child = []) by now destruct parent.
    rewrite E. destruct (i =? parent); destruct i; reflexivity.
  - destruct parent as [|parent], i as [|i]; try reflexivity.
    cbn [pushChild nth_error]. rewrite IH. reflexivity.
Qed.

Lemma pushChild_plain child :
  forall st parent, map plain (pushChild st parent child) = map plain st.
Proof.
  induction st as [|n st IH]; intros parent; [reflexivity|].
  destruct parent; cbn [pushChild map]; [reflexivity | now rewrite IH].
Qed.

Lemma pushChild_children child :
  forall st parent,
    parent < List.length st ->
    Permutation (concat (map children (pushChild st parent child)))
                (child :: concat (map children st)).
Proof.
  induction st as [|n st IH]; intros parent Hp; [simpl in Hp; lia|].
  destruct parent as [|parent]; cbn [pushChild map concat children].
  - rewrite <- app_assoc. apply Permutation_sym.
    apply (Permutation_middle (children n) (concat (map children st)) child).
  - rewrite IH by (simpl in Hp; lia). apply Permutation_sym, Permutation_middle.
Qed.

(** What is left of the stack of open nodes: entries of the stack, and
    on top a node that ends on the line before, if any. *)
Lemma popClosed_result st idx :
  forall stack stack',
    popClosed st stack idx = Ok stack' ->
    (forall P : nat -> Prop, Forall P stack -> Forall P stack')
    /\ match stack' with
       | top :: _ => exists node, nth_error st top = Some node /\ idx <= S (lineEnd node)
       | [] => True
       end.
Proof.
  induction stack as [|top stack IH]; intros stack' H.
  - inversion H. split; [auto | exact I].
  - cbn [popClosed] in H. destruct (nth_error st top) as [node|] eqn:E; [|discriminate].
    destruct (Z.ltb_spec (Z.of_nat (lineEnd node)) (Z.of_nat idx - 1)) as [Hlt|Hge].
    + destruct (IH _ H) as [HP Htop]. split; [|exact Htop].
      intros P HF. inversion HF; subst. now apply HP.
    + inversion H; subst. split; [auto|]. exists node. split; [exact E | lia].
Qed.

Lemma linked_more st st' n :
  (forall c m, nth_error st c = Some m ->
               exists m', nth_error st' c = Some m' /\ lineStart m' = lineStart m) ->
  linked st n -> linked st' n.
Proof.
  intros H [L|(c & m & Hc & Hm & Hl & Ho)]; [now left|].
  right. destruct (H c m Hm) as (m' & Hm' & E). exists c, m'. rewrite E. now repeat split.
Qed.

Lemma Forall_nth {A} (P : A -> Prop) l :
  Forall P l <-> forall i x, nth_error l i = Some x -> P x.
Proof.
  rewrite Forall_forall. split.
  - intros H i x Hi. apply H. eapply nth_error_In. exact Hi.
  - intros H x Hx. apply In_nth_error in Hx. destruct Hx as (i & Hi). eapply H. exact Hi.
Qed.

(** The builder's state stays well built over a line. *)
Lemma visitLine_wellBuilt lang b line idx :
  wellBuilt b idx ->
  exists b',
    visitLine lang b line idx = Ok b'
    /\ wellBuilt b' (S idx)
    /\ map plain (b_store b') = map plain (b_store b) ++ lineNodes lang [line] idx.
Proof.
  intros (I1 & I2 & I3 & I4 & I5). unfold visitLine. cbn [lineNodes].
  destruct (isEmpty (trim line)) eqn:Ee.
  - exists b. split; [reflexivity|]. split; [|now rewrite app_nil_r].
    repeat split; try assumption.
    + eapply Forall_impl; [|exact I2]. simpl. intros n [H1 H2]. split; [exact H1 | lia].
    + rewrite Forall_forall in *. intros n Hn Hs. destruct (I2 n Hn). lia.
  - set (node := {| nodeType := nodeTypeOf (trim line); content := trim line;
                    lineStart := idx; lineEnd := idx; children := [];
                    language := lang |}).
    set (st0 := b_store b) in *. set (id := List.length st0).
    assert (S1 : stored (st0 ++ [node]) (b_stack b)).
    { eapply Forall_impl; [|exact I1]. simpl. intros i (n & Hn & _).
      rewrite length_app. simpl.
      assert (i < List.length st0) by (apply nth_error_Some; congruence). lia. }
    destruct (AstFacts.popClosed_spec (st0 ++ [node]) idx (b_stack b) S1)
      as (stack & R & _).
    rewrite R. cbn [bind].
    destruct (popClosed_result _ _ _ _ R) as [HP Htop].
    pose proof (HP _ I1) as J1.
    assert (app_old : forall c m, nth_error st0 c = Some m ->
                                  nth_error (st0 ++ [node]) c = Some m).
    { intros c m Hc. rewrite nth_error_app1; [exact Hc|].
      apply nth_error_Some. congruence. }
    assert (app_new : nth_error (st0 ++ [node]) id = Some node).
    { unfold id. rewrite nth_error_app2, Nat.sub_diag by lia. reflexivity. }
    destruct stack as [|top rest].
    + (* the node is a root *)
      eexists. split; [reflexivity|]. split; [|cbn [b_store]; rewrite map_app; reflexivity].
      unfold wellBuilt. cbn [b_store b_nodes b_stack]. split; [|split; [|split; [|split]]].
      * destruct (opensBlock (nodeTypeOf (trim line)) (trim line)) eqn:Eo;
          [|constructor]. constructor; [|constructor].
        exists node. split; [exact app_new | exact Eo].
      * apply Forall_app. split.
        -- eapply Forall_impl; [|exact I2]. simpl. intros n [H1 H2]. split; [exact H1|lia].
        -- constructor; [|constructor]. simpl. split; [reflexivity | lia].
      * apply Forall_app. split.
        -- eapply Forall_impl; [|exact I3]. intros n. apply linked_more.
           intros c m Hc. exists m. split; [now apply app_old | reflexivity].
        -- constructor; [|constructor]. now left.
      * apply Forall_app. split.
        -- rewrite Forall_forall in *. intros n Hn Hs. destruct (I2 n Hn). lia.
        -- constructor; [|constructor]. reflexivity.
      * rewrite map_app, concat_app, length_app. cbn [map concat children app List.length].
        rewrite app_nil_r, Nat.add_1_r, seq_S. cbn [Nat.add]. fold id.
        rewrite <- app_assoc, (Permutation_app_comm [id]), app_assoc.
        now apply Permutation_app_tail.
    + (* the node is the child of the node of the line before *)
      destruct Htop as (tnode & Ht & Hend).
      inversion J1 as [|? ? (tn & Ht0 & Hopen) J1']; subst.
      rewrite (app_old _ _ Ht0) in Ht. inversion Ht; subst tnode. clear Ht.
      assert (Htl : top < id) by (apply nth_error_Some; congruence).
      rewrite Forall_nth in I2. destruct (I2 _ _ Ht0) as [Te Tl].
      assert (Ts : S (lineStart tn) = idx) by lia.
      rewrite Forall_nth in I4. pose proof (I4 _ _ Ht0 Ts) as Tc.
      set (st2 := pushChild (st0 ++ [node]) top id).
      assert (N2 : forall i,
                 nth_error st2 i
                 = if i =? top then Some (withChild tn id)
                   else nth_error (st0 ++ [node]) i).
      { intros i. unfold st2. rewrite pushChild_nth.
        destruct (Nat.eqb_spec i top) as [->|]; [|reflexivity].
        now rewrite (app_old _ _ Ht0). }
      assert (old2 : forall c m, nth_error st0 c = Some m ->
                                 exists m', nth_error st2 c = Some m'
                                            /\ lineStart m' = lineStart m
                                            /\ nodeType m' = nodeType m
                                            /\ content m' = content m).
      { intros c m Hc. rewrite N2. destruct (Nat.eqb_spec c top) as [->|].
        - rewrite Ht0 in Hc. inversion Hc; subst. eexists. split; [reflexivity|].
          repeat split.
        - exists m. split; [now apply app_old | repeat split]. }
      assert (new2 : nth_error st2 id = Some node).
      { rewrite N2. destruct (Nat.eqb_spec id top); [lia | exact app_new]. }
      assert (cases : forall i n, nth_error st2 i = Some n ->
                                  (i = top /\ n = withChild tn id)
                                  \/ (i = id /\ n = node)
                                  \/ (i <> top /\ nth_error st0 i = Some n)).
      { intros i n Hi. rewrite N2 in Hi. destruct (Nat.eqb_spec i top) as [->|Hne].
        - left. inversion Hi. now split.
        - right. destruct (Nat.lt_ge_cases i id) as [Hlt|Hge].
          + right. split; [exact Hne|]. rewrite nth_error_app1 in Hi by exact Hlt.
            exact Hi.
          + left. rewrite nth_error_app2 in Hi by exact Hge.
            destruct (i - List.length st0) as [|k] eqn:Ek; [|destruct k; discriminate].
            inversion Hi. split; [unfold id; lia | reflexivity]. }
      eexists. split; [reflexivity|].
      split; [|cbn [b_store]; fold st2; unfold st2;
               rewrite pushChild_plain, map_app; reflexivity].
      unfold wellBuilt. cbn [b_store b_nodes b_stack]. fold st2.
      split; [|split; [|split; [|split]]].
      * assert (K : Forall (fun i => exists n, nth_error st2 i = Some n
                                               /\ opensBlock (nodeType n) (content n) = true)
                           (top :: rest)).
        { eapply Forall_impl; [|exact J1]. simpl. intros i (n & Hn & Ho).
          destruct (old2 _ _ Hn) as (m' & Hm' & _ & E1 & E2).
          exists m'. rewrite E1, E2. now split. }
        destruct (opensBlock (nodeTypeOf (trim line)) (trim line)) eqn:Eo; [|exact K].
        constructor; [|exact K]. exists node. split; [exact new2 | exact Eo].
      * apply Forall_nth. intros i n Hi.
        destruct (cases i n Hi) as [(-> & ->)|[(-> & ->)|(Hne & Hn)]].
        -- simpl. split; [exact Te | lia].
        -- simpl. split; [reflexivity | lia].
        -- destruct (I2 _ _ Hn). split; [assumption | lia].
      * apply Forall_nth. intros i n Hi. rewrite Forall_nth in I3.
        destruct (cases i n Hi) as [(-> & ->)|[(-> & ->)|(Hne & Hn)]].
        -- right. exists id, node. cbn [withChild children lineStart nodeType content].
           rewrite Tc. repeat split; [exact new2 | simpl; lia | exact Hopen].
        -- now left.
        -- eapply linked_more; [|exact (I3 _ _ Hn)].
           intros c m Hc. destruct (old2 _ _ Hc) as (m' & Hm' & E & _). now exists m'.
      * apply Forall_nth. intros i n Hi Hs.
        destruct (cases i n Hi) as [(-> & ->)|[(-> & ->)|(Hne & Hn)]].
        -- simpl in Hs. lia.
        -- reflexivity.
        -- destruct (I2 _ _ Hn). lia.
      * unfold st2. rewrite AstFacts.pushChild_length, length_app. cbn [List.length].
        rewrite Nat.add_1_r, seq_S. cbn [Nat.add]. fold id.
        rewrite pushChild_children by (rewrite length_app; simpl; lia).
        rewrite map_app, concat_app. cbn [map concat children app].
        rewrite app_nil_r. rewrite <- Permutation_middle.
        unfold id. rewrite <- I5. apply Permutation_cons_append.
Qed.

Lemma lineNodes_cons lang line lines idx :
  lineNodes lang (line :: lines) idx
  = lineNodes lang [line] idx ++ lineNodes lang lines (S idx).
Proof. cbn [lineNodes]. now rewrite app_nil_r. Qed.

Lemma visitLines_wellBuilt lang lines :
  forall b idx,
    wellBuilt b idx ->
    exists b',
      visitLines lang b lines idx = Ok b'
      /\ wellBuilt b' (idx + List.length lines)
      /\ map plain (b_store b') = map plain (b_store b) ++ lineNodes lang lines idx.
Proof.
  induction lines as [|line lines IH]; intros b idx H.
  - exists b. cbn [lineNodes List.length]. rewrite Nat.add_0_r, app_nil_r.
    split; [reflexivity|]. split; [exact H | reflexivity].
  - cbn [visitLines].
    destruct (visitLine_wellBuilt lang b line idx H) as (b1 & R1 & W1 & P1).
    rewrite R1. cbn [bind].
    destruct (IH b1 (S idx) W1) as (b2 & R2 & W2 & P2).
    exists b2. split; [exact R2|]. split.
    + cbn [List.length]. now rewrite Nat.add_succ_r.
    + rewrite P2, P1, <- app_assoc. now rewrite <- lineNodes_cons.
Qed.

(** The tree of a text. *)
Lemma buildAST_spec text lang :
  exists tree,
    buildAST text lang = Ok tree
    /\ map plain (store tree) = lineNodes lang (split "010" text) 0
    /\ Forall (linked (store tree)) (store tree)
    /\ Permutation (roots tree ++ concat (map children (store tree)))
                   (seq 0 (List.length (store tree))).
Proof.
  unfold buildAST.
  destruct (visitLines_wellBuilt lang (split "010" text)
              {| b_store := []; b_nodes := []; b_stack := [] |} 0)
    as (b & R & (_ & _ & L & _ & P) & N).
  { repeat split; constructor. }
  rewrite R. cbn [bind]. eexists. split; [reflexivity|].
  cbn [store roots]. repeat split; assumption.
Qed.

End TreeFacts.

Module DiffLineFacts.

Lemma mapi_ext {A B} (f g : A -> nat -> B) l :
  (forall x i, f x i = g x i) -> forall k, mapi f l k = mapi g l k.
Proof.
  intros H. induction l as [|x l IH]; intros k; [reflexivity|].
  cbn [mapi]. now rewrite H, IH.
Qed.

Lemma mapi_self {B} (F : str -> option str -> B) ls :
  forall prefix,
    mapi (fun src i => F src (nth_error (prefix ++ ls) i)) ls (List.length prefix)
    = map (fun l => F l (Some l)) ls.
Proof.
  induction ls as [|l ls IH]; intros prefix; [reflexivity|].
  cbn [mapi map]. rewrite nth_error_app2, Nat.sub_diag by lia. cbn [nth_error].
  f_equal. specialize (IH (prefix ++ [l])).
  rewrite <- app_assoc, length_app, Nat.add_1_r in IH. exact IH.
Qed.

End DiffLineFacts.

Module OutlineFacts.
Import Comprehensive.

Lemma childrenAt_entries line i :
  Forall (fun c => lineStart c = i /\ content c = Js.trim line
                   /\ (type c = NFunction \/ type c = NClass)
                   /\ name c = Some (extractName (content c))
                   /\ lineEnd c = i + 1 /\ children c = [])
         (childrenAt line i).
Proof.
  unfold childrenAt. apply Forall_app. split.
  - destruct (_ || _); constructor; [|constructor]. cbn. repeat split. now left.
  - destruct (Js.includes _ _); constructor; [|constructor]. cbn. repeat split. now right.
Qed.

Lemma outline_from ls :
  forall k,
    let cs := concat (mapi childrenAt ls k) in
    Forall (fun c => k <= lineStart c
                     /\ (exists l, nth_error ls (lineStart c - k) = Some l
                                   /\ content c = Js.trim l)
                     /\ (type c = NFunction \/ type c = NClass)
                     /\ name c = Some (extractName (content c))
                     /\ lineEnd c = lineStart c + 1 /\ children c = []) cs
    /\ StronglySorted (fun a b => lineStart a <= lineStart b) cs.
Proof.
  induction ls as [|l ls IH]; intros k; [split; constructor|].
  cbn [mapi concat]. destruct (IH (S k)) as [F Hsorted]. cbv zeta. split.
  - apply Forall_app. split.
    + eapply Forall_impl; [|apply childrenAt_entries]. cbv beta.
      intros c (Hs & Hc & Ht & Hn & He & Hk).
      split; [lia|]. split; [exists l; rewrite Hs, Nat.sub_diag; now split|].
      repeat split; try assumption. lia.
    + eapply Forall_impl; [|exact F]. cbv beta.
      intros c (Hs & (x & Hx & Hc) & Rest). split; [lia|]. split; [|exact Rest].
      exists x. split; [|exact Hc].
      replace (lineStart c - k) with (S (lineStart c - S k)) by lia. exact Hx.
  - assert (G : forall u v, StronglySorted (fun a b => lineStart a <= lineStart b) u ->
                            StronglySorted (fun a b => lineStart a <= lineStart b) v ->
                            (forall a b, In a u -> In b v -> lineStart a <= lineStart b) ->
                            StronglySorted (fun a b => lineStart a <= lineStart b) (u ++ v)).
    { induction u as [|a u IHu]; intros v Hu Hv H; [exact Hv|].
      inversion Hu; subst. cbn [app]. constructor.
      - apply IHu; [assumption | assumption |]. intros. apply H; [now right | assumption].
      - apply Forall_app. split; [assumption|].
        apply Forall_forall. intros b Hb. apply H; [now left | assumption]. }
    apply G; [| exact Hsorted |].
    + pose proof (childrenAt_entries l k) as E. unfold childrenAt in *.
      destruct (_ || _), (Js.includes (Js.trim l) "class "); cbn [app] in *;
        repeat constructor; cbn; lia.
    + intros a b Ha Hb. pose proof (childrenAt_entries l k) as E.
      rewrite Forall_forall in E, F. destruct (E a Ha) as (-> & _).
      destruct (F b Hb) as (Hk & _). lia.
Qed.

End OutlineFacts.

Module SquashFacts.
Import Regex.

(** Replacing the pattern of a doubled unit is [squash]. *)
Lemma replace_pair c w :
  forall n s before,
    List.length s <= n ->
    concat (scan (Seq (Chr c) (Chr c)) (fun _ _ => w) (fun x => [x]) before s 0)
    = squash c w s.
Proof.
  induction n as [|n IH]; intros s before Hn.
  - destruct s; [|simpl in Hn; lia]. reflexivity.
  - destruct s as [|x t]; [reflexivity|].
    cbn [scan]. unfold matchAt. cbn [rmatch squash].
    destruct (Ascii.eqb x c) eqn:Ex; cbn [andb].
    + destruct t as [|y s'].
      * reflexivity.
      * destruct (Ascii.eqb y c) eqn:Ey.
        -- unfold matched. cbn [List.length].
           rewrite !Nat.sub_succ_l, Nat.sub_diag by lia.
           cbn [firstn List.length scan concat]. f_equal.
           apply IH. simpl in Hn |- *. lia.
        -- cbn [concat app]. f_equal. apply IH. simpl in Hn |- *. lia.
    + destruct t as [|y s']; [reflexivity|].
      cbn [concat app]. f_equal. apply IH. simpl in Hn |- *. lia.
Qed.

Lemma replaceAll_pair c w s :
  replaceAll (Seq (Chr c) (Chr c)) (fun _ _ => w) s = squash c w s.
Proof. unfold replaceAll. now apply (replace_pair c w (List.length s)). Qed.

Lemma pairFree_cons c x s :
  pairFree c (x :: s)
  = negb (Ascii.eqb x c && match s with y :: _ => Ascii.eqb y c | [] => false end)
    && pairFree c s.
Proof. destruct s; cbn [pairFree]; [now rewrite andb_false_r|reflexivity]. Qed.

Lemma pairFree_without c w : ~ In c w -> pairFree c w = true.
Proof.
  induction w as [|x w IH]; intros H; [reflexivity|].
  rewrite pairFree_cons, IH by (intros Hin; apply H; now right).
  destruct (Ascii.eqb_spec x c) as [->|]; [exfalso; apply H; now left|reflexivity].
Qed.

(** Joining two texts without a pair gives a text without a pair when
    the first one does not end in the unit. *)
Lemma pairFree_app c w s :
  ~ In c w -> w <> [] -> pairFree c s = true -> pairFree c (w ++ s) = true.
Proof.
  induction w as [|x w IH]; intros Hin Hne Hs; [contradiction|].
  assert (Hx : Ascii.eqb x c = false).
  { destruct (Ascii.eqb_spec x c) as [->|]; [exfalso; apply Hin; now left|reflexivity]. }
  cbn [app]. rewrite pairFree_cons, Hx. cbn [andb negb].
  destruct w as [|y w]; [exact Hs|].
  apply IH; [intros H; apply Hin; now right | discriminate | exact Hs].
Qed.

(** The first unit of a squashed text is [d] only if the text starts
    with [d]. *)
Lemma squash_head c w d :
  ~ In d w -> w <> [] ->
  forall n s, List.length s <= n ->
    match squash c w s with y :: _ => Ascii.eqb y d | [] => false end = true ->
    match s with y :: _ => Ascii.eqb y d | [] => false end = true.
Proof.
  intros Hin Hne. intros n s _. destruct s as [|x t]; [auto|].
  cbn [squash]. destruct t as [|y s']; [auto|].
  destruct (Ascii.eqb x c && Ascii.eqb y c); [|auto].
  destruct w as [|a w]; [contradiction|]. cbn [app]. intros H.
  apply Ascii.eqb_eq in H. subst a. exfalso. apply Hin. now left.
Qed.

(** A squashed text holds no pair of the squashed unit. *)
Lemma squash_free c w :
  ~ In c w -> w <> [] ->
  forall n s, List.length s <= n -> pairFree c (squash c w s) = true.
Proof.
  intros Hin Hne. induction n as [|n IH]; intros s Hn.
  - destruct s; [reflexivity|simpl in Hn; lia].
  - destruct s as [|x t]; [reflexivity|]. cbn [squash].
    destruct t as [|y s']; [reflexivity|].
    destruct (Ascii.eqb x c && Ascii.eqb y c) eqn:E.
    + apply pairFree_app; [assumption | assumption |]. apply IH. simpl in Hn |- *. lia.
    + rewrite pairFree_cons, IH by (simpl in Hn |- *; lia). rewrite andb_true_r.
      destruct (Ascii.eqb x c) eqn:Ex; [|reflexivity]. cbn [andb] in E |- *.
      destruct (match squash c w (y :: s') with
                | y0 :: _ => Ascii.eqb y0 c
                | [] => false
                end) eqn:Eh; [|reflexivity].
      apply (squash_head c w c Hin Hne (S (List.length s')) (y :: s')) in Eh;
        [|simpl; lia].
      cbn in Eh. congruence.
Qed.

(** Squashing pairs of one unit creates no pair of another. *)
Lemma squash_keeps c w d :
  ~ In d w -> w <> [] ->
  forall n s, List.length s <= n ->
    pairFree d s = true -> pairFree d (squash c w s) = true.
Proof.
  intros Hin Hne. induction n as [|n IH]; intros s Hn Hs.
  - destruct s; [reflexivity|simpl in Hn; lia].
  - destruct s as [|x t]; [reflexivity|]. cbn [squash].
    destruct t as [|y s']; [reflexivity|].
    rewrite pairFree_cons in Hs. apply andb_prop in Hs. destruct Hs as [Hxy Ht].
    destruct (Ascii.eqb x c && Ascii.eqb y c) eqn:E.
    + apply pairFree_app; [assumption | assumption |]. apply IH; [simpl in Hn |- *; lia|].
      rewrite pairFree_cons in Ht. apply andb_prop in Ht. tauto.
    + rewrite pairFree_cons, IH by (assumption || (simpl in Hn |- *; lia)).
      rewrite andb_true_r.
      destruct (Ascii.eqb x d) eqn:Ex; [|reflexivity]. cbn [andb negb] in Hxy |- *.
      destruct (match squash c w (y :: s') with
                | y0 :: _ => Ascii.eqb y0 d
                | [] => false
                end) eqn:Eh; [|reflexivity].
      apply (squash_head c w d Hin Hne (S (List.length s')) (y :: s')) in Eh;
        [|simpl; lia].
      rewrite Eh in Hxy. discriminate.
Qed.

(** A text without a pair does not include the doubled unit. *)
Lemma pairFree_includes c s : pairFree c s = true -> Js.includes s [c; c] = false.
Proof.
  intros H. destruct (Js.includes s [c; c]) eqn:E; [|reflexivity].
  apply LineFacts.includes_spec in E. destruct E as (u & v & ->).
  exfalso. induction u as [|x u IH].
  - cbn [app pairFree] in H. rewrite Ascii.eqb_refl in H. discriminate.
  - cbn [app] in H. rewrite pairFree_cons in H. apply andb_prop in H. tauto.
Qed.

End SquashFacts.

Module EndingFacts.
Import Js.

(** A line is white space, its trimmed text, and white space. *)
Lemma trim_split line :
  exists u v, blank u /\ blank v /\ line = u ++ trim line ++ v.
Proof.
  destruct (TextFacts.trimStart_split line) as (u & Hu & E).
  destruct (TextFacts.trimEnd_split (trimStart line)) as (v & Hv & E').
  exists u, v. split; [exact Hu|]. split; [exact Hv|].
  unfold trim. now rewrite <- E', <- E.
Qed.

Lemma nonblank_last t : trim t <> [] -> exists r c, trim t = r ++ [c] /\ isSpace c = false.
Proof.
  intros H. destruct (@exists_last _ (trim t) H) as (r & c & E).
  exists r, c. split; [exact E|]. unfold trim in E. eapply TextFacts.trimEnd_last. exact E.
Qed.

(** Appending a mark to a line trimmed at the end gives a line whose
    trimmed text ends in the mark. *)
Lemma trim_marked line c :
  isSpace c = false -> trim line <> [] ->
  trim (trimEnd line ++ [c]) = trim line ++ [c].
Proof.
  intros Hc Hne. destruct (trim_split line) as (u & v & Hu & Hv & E).
  destruct (nonblank_last line Hne) as (r & x & Er & Hx).
  assert (Te : trimEnd line = u ++ trim line).
  { rewrite E at 1. rewrite app_assoc, TextFacts.trimEnd_blank by exact Hv.
    rewrite Er, app_assoc. now apply TextFacts.trimEnd_fixed. }
  rewrite Te, <- app_assoc, TextFacts.trim_blank by exact Hu.
  destruct (trim line) as [|a t] eqn:Et; [contradiction|].
  pose proof (TextFacts.trim_head _ _ _ Et) as Ha.
  unfold trim. change ((a :: t) ++ [c]) with (a :: (t ++ [c])).
  rewrite TextFacts.trimStart_fixed by exact Ha.
  change (a :: (t ++ [c])) with ((a :: t) ++ [c]). now apply TextFacts.trimEnd_fixed.
Qed.

End EndingFacts.

Module IncludeFacts.
Import Js.

Lemma includes_intro s u p v : s = u ++ p ++ v -> includes s p = true.
Proof. intros H. apply LineFacts.includes_spec. now exists u, v. Qed.

Lemma includes_app_l s t p : includes s p = true -> includes (s ++ t) p = true.
Proof.
  intros H. apply LineFacts.includes_spec in H. destruct H as (u & v & ->).
  apply (includes_intro _ u p (v ++ t)). now rewrite <- !app_assoc.
Qed.

Lemma includes_app_r s t p : includes t p = true -> includes (s ++ t) p = true.
Proof.
  intros H. apply LineFacts.includes_spec in H. destruct H as (u & v & ->).
  apply (includes_intro _ (s ++ u) p v). now rewrite <- !app_assoc.
Qed.

Lemma includes_rev s p : includes s p = true -> includes (rev s) (rev p) = true.
Proof.
  intros H. apply LineFacts.includes_spec in H. destruct H as (u & v & ->).
  apply (includes_intro _ (rev v) (rev p) (rev u)).
  now rewrite !rev_app_distr, <- app_assoc.
Qed.

Lemma solid_head w : solid w -> exists c t, w = c :: t /\ isSpace c = false.
Proof.
  intros [Hne Hs]. destruct w as [|c t]; [contradiction|].
  exists c, t. split; [reflexivity|]. cbn [forallb] in Hs.
  apply andb_prop in Hs. destruct Hs as [Hc _]. now apply negb_true_iff in Hc.
Qed.

Lemma solid_rev w : solid w -> solid (rev w).
Proof.
  intros [Hne Hs]. split.
  - intros H. apply Hne. apply (f_equal (@rev ascii)) in H.
    now rewrite rev_involutive in H.
  - rewrite forallb_forall in *. intros x Hx. apply Hs. now apply in_rev.
Qed.

(** A word in a text is in the text trimmed. *)
Lemma includes_trimStart s w :
  solid w -> includes s w = true -> includes (trimStart s) w = true.
Proof.
  intros Hw. destruct (solid_head w Hw) as (c & t & -> & Hc).
  induction s as [|x s IH]; intros H; [exact H|].
  cbn [trimStart]. destruct (isSpace x) eqn:Ex; [|exact H].
  apply IH. cbn [includes startsWith] in H.
  destruct (Ascii.eqb_spec c x) as [->|]; [congruence|]. exact H.
Qed.

Lemma includes_trimEnd s w :
  solid w -> includes s w = true -> includes (trimEnd s) w = true.
Proof.
  intros Hw H. unfold trimEnd.
  rewrite <- (rev_involutive w). apply includes_rev.
  apply includes_trimStart; [now apply solid_rev | now apply includes_rev].
Qed.

Lemma includes_trim s w : solid w -> includes s w = true -> includes (trim s) w = true.
Proof.
  intros Hw H. unfold trim. now apply includes_trimEnd, includes_trimStart.
Qed.

Lemma includes_nil_solid w : solid w -> includes [] w = false.
Proof. intros [Hne _]. destruct w; [contradiction | reflexivity]. Qed.

(** A text without line break that occurs in a text occurs in one of
    its lines. *)
Lemma includes_line w :
  ~ In "010"%char w -> w <> [] ->
  forall s, includes s w = true -> exists l, In l (split "010" s) /\ includes l w = true.
Proof.
  intros Hnl Hne. induction s as [|x s IH]; intros H.
  - destruct w; [contradiction | discriminate].
  - cbn [split]. destruct (JsFacts.split_cons "010" s) as (l & ls & E).
    rewrite E in *. cbn [includes] in H. apply orb_true_iff in H.
    destruct (Ascii.eqb_spec x "010") as [->|Hx].
    + destruct H as [H|H].
      * destruct w as [|c t]; [contradiction|]. cbn [startsWith] in H.
        apply andb_prop in H. destruct H as [Hc _]. apply Ascii.eqb_eq in Hc.
        subst c. exfalso. apply Hnl. now left.
      * destruct (IH H) as (l' & Hl' & Hi). exists l'. split; [now right | exact Hi].
    + cbn [hd tl]. destruct H as [H|H].
      * exists (x :: l). split; [now left|].
        (* the word starts the text, so it starts its first line *)
        apply LineFacts.startsWith_spec in H. destruct H as (v & Hv).
        destruct w as [|c t]; [contradiction|]. inversion Hv; subst c.
        assert (G : forall t s l ls, ~ In "010"%char t -> split "010" s = l :: ls ->
                                     (exists v, s = t ++ v) -> exists v', l = t ++ v').
        { clear. induction t as [|c t IHt]; intros s l ls Hn Es (v & ->).
          - now exists l.
          - cbn [app split] in Es. destruct (Ascii.eqb_spec c "010") as [->|Hc].
            + exfalso. apply Hn. now left.
            + destruct (JsFacts.split_cons "010" (t ++ v)) as (l0 & ls0 & E0).
              rewrite E0 in Es. cbn [hd tl] in Es.
              destruct (IHt (t ++ v) l0 ls0) as (v' & E1);
                [intros Hin; apply Hn; now right | exact E0 | now exists v |].
              inversion Es; subst. now exists v'. }
        destruct (G t s l ls) as (v' & ->);
          [intros Hin; apply Hnl; now right | exact E | now exists v |].
        apply (includes_intro _ [] (x :: t) v'). reflexivity.
      * destruct (IH H) as (l' & Hl' & Hi). destruct Hl' as [<-|Hl'].
        -- exists (x :: l). split; [now left|].
           change (x :: l) with ([x] ++ l). now apply includes_app_r.
        -- exists l'. split; [now right | exact Hi].
Qed.

Lemma includes_join l ls w :
  In l ls -> includes l w = true -> includes (join nl ls) w = true.
Proof.
  induction ls as [|x ls IH]; intros Hin H; [destruct Hin|].
  destruct ls as [|y ls].
  - destruct Hin as [<-|[]]. exact H.
  - change (join nl (x :: y :: ls)) with (x ++ nl ++ join nl (y :: ls)).
    destruct Hin as [<-|Hin]; [now apply includes_app_l|].
    apply includes_app_r, includes_app_r. now apply IH.
Qed.

Lemma Forall2_in {A B} (R : A -> B -> Prop) l l' x :
  Forall2 R l l' -> In x l -> exists y, In y l' /\ R x y.
Proof.
  induction 1 as [|a b l l' Hab F IH]; intros Hin; [destruct Hin|].
  destruct Hin as [<-|Hin]; [exists b; split; [now left | exact Hab]|].
  destruct (IH Hin) as (y & Hy & Hr). exists y. split; [now right | exact Hr].
Qed.

(** A word of the text is still there after the indentation pass. *)
Lemma reindent_keeps_word q ls w :
  solid w -> ~ In "010"%char w ->
  reindent (split "010" q) 0 = Ok ls ->
  includes q w = true -> includes (join nl ls) w = true.
Proof.
  intros Hw Hnl R H.
  destruct (includes_line w Hnl (proj1 Hw) q H) as (l & Hl & Hi).
  destruct (IndentFacts.reindent_lines (split "010" q) 0%Z) as (out & R' & F); [lia|].
  rewrite R in R'. inversion R'; subst out. clear R'.
  destruct (Forall2_in _ _ _ _ F Hl) as (o & Ho & [(Ht & _)|(_ & k & ->)]).
  - apply (includes_trim l w Hw) in Hi. rewrite Ht in Hi.
    now rewrite (includes_nil_solid w Hw) in Hi.
  - apply (includes_join _ _ _ Ho). apply includes_app_r. now apply includes_trim.
Qed.

End IncludeFacts.

(** ** The properties *)

(** X1. The lines of a result account for it: their originals spell the
    text the rules were applied to (the input on the fast path, the
    normalized input otherwise), and the code is the post-processed text
    of their transformed lines (on the fast path, that text itself). *)
Theorem lines_account_for_the_code (text sourceLang targetLang : str) :
  exists r,
    transformCode text sourceLang targetLang = Js.Ok r
    /\ Js.join Js.nl (map original (lines r))
       = (if Js.eqs (languageOf sourceLang) (languageOf targetLang)
          then text else normalized (normalizeCode text))
    /\ (if Js.eqs (languageOf sourceLang) (languageOf targetLang)
        then Js.Ok (Js.join Js.nl (map transformed (lines r)))
        else postProcessCode (Js.join Js.nl (map transformed (lines r)))
                             (languageOf targetLang))
       = Js.Ok (code r).
Proof.
  destruct (Js.eqs (languageOf sourceLang) (languageOf targetLang)) eqn:E.
  - destruct (OrchestratorFacts.transformCode_equal text _ _ E)
      as (r & R & C & L & _).
    exists r. split; [exact R|]. rewrite L, C.
    rewrite !(OrchestratorFacts.map_mapi _ _ (fun l => l)) by reflexivity.
    now rewrite map_id, JsFacts.join_split.
  - destruct (OrchestratorFacts.transformCode_different text _ _ E)
      as (r & R & L & _ & P & _).
    exists r. split; [exact R|]. rewrite L. split; [|exact P].
    unfold transformLines.
    rewrite (OrchestratorFacts.map_mapi _ _ (fun l => l))
      by (intros; apply OrchestratorFacts.transformLine_original).
    now rewrite map_id, JsFacts.join_split.
Qed.

(** X2. The counter [linesTransformed] is exact: it is the number of lines
    whose text was rewritten or that raised a warning. *)
Theorem linesTransformed_counts_rewritten (text sourceLang targetLang : str) :
  exists r,
    transformCode text sourceLang targetLang = Js.Ok r
    /\ linesTransformed (statistics r) = countIf rewritten (lines r).
Proof.
  destruct (Js.eqs (languageOf sourceLang) (languageOf targetLang)) eqn:E.
  - destruct (OrchestratorFacts.transformCode_equal text _ _ E)
      as (r & R & _ & L & _ & _ & N).
    exists r. split; [exact R|]. rewrite N, L. symmetry.
    apply OrchestratorFacts.kept_lines_not_rewritten.
  - destruct (OrchestratorFacts.transformCode_different text _ _ E)
      as (r & R & L & _ & _ & _ & N).
    exists r. split; [exact R|]. rewrite N, L.
    apply OrchestratorFacts.transformLines_counted.
Qed.

(** X3. The warnings of a result: no warning occurs twice, and there are at
    most two: the mixed-language warning, and, only for a Python source
    and the target Go, the struct warning. *)
Theorem warnings_at_most_two (text sourceLang targetLang : str) :
  exists r,
    transformCode text sourceLang targetLang = Js.Ok r
    /\ NoDup (warnings r)
    /\ Forall (fun w => w = mixedWarning text
                        \/ (w = structWarning /\ languageOf targetLang = "go"
                            /\ languageOf sourceLang = "python"))
              (warnings r)
    /\ List.length (warnings r) <= 2.
Proof.
  destruct (OrchestratorFacts.warnings_spec text sourceLang targetLang)
    as (r & R & Hn & Hf).
  exists r. repeat split; try assumption.
  change 2 with (List.length [mixedWarning text; structWarning]).
  apply NoDup_incl_length; [exact Hn|].
  intros w Hw. rewrite Forall_forall in Hf.
  destruct (Hf w Hw) as [->|(-> & _)]; simpl; auto.
Qed.

(** X4. Only four source languages have rules of their own. For any other
    source language (C++, Go, Rust, C#, PHP, Ruby, or a name that is not
    registered), the conditional rule and the assignment rule are the
    only rules that can rewrite a line, no terminator is added and no
    warning is raised. *)
Theorem rules_of_other_sources (line source target : str) :
  Js.eqs source "python" = false ->
  Js.eqs source "javascript" = false ->
  Js.eqs source "typescript" = false ->
  Js.eqs source "java" = false ->
  applyRules line source target
  = (transformVariableDeclaration (transformConditionals line source target)
                                  source target, []).
Proof.
  intros Hp Hj Ht Hv. unfold applyRules.
  unfold transformFunctionDef, transformClassDef, transformImportStatement,
    transformPrintStatement, transformLoops, transformBooleanConstants,
    transformOperators, transformStatementEndings.
  rewrite Hp, Hj, Ht, Hv. cbn [orb andb]. rewrite !andb_false_r. reflexivity.
Qed.

Lemma rules_of_other_sources_witness :
  applyRules "print(True and x)" "ruby" "javascript"
  = (transformVariableDeclaration
       (transformConditionals "print(True and x)" "ruby" "javascript")
       "ruby" "javascript", []).
Proof. apply rules_of_other_sources; reflexivity. Defined.

(** X5. The terminator rule is idempotent: a line it has terminated is left
    as it is, so no line gets two semicolons from it. *)
Theorem transformStatementEndings_idempotent (line source target : str) :
  transformStatementEndings (transformStatementEndings line source target) source target
  = transformStatementEndings line source target.
Proof.
  assert (H : transformStatementEndings line source target = line
              \/ (transformStatementEndings line source target
                  = Js.trimEnd line ++ [";"%char]
                  /\ Js.trim line <> [])).
  { unfold transformStatementEndings.
    destruct (_ && _ && _ && _ && _); [|now left].
    destruct (negb (isEmpty (Js.trim line)) && _ && _) eqn:E2; [|now left].
    right. split; [reflexivity|]. intros E. rewrite E in E2. discriminate. }
  destruct H as [H|[H Hne]]; rewrite H; [exact H|].
  unfold transformStatementEndings.
  rewrite (EndingFacts.trim_marked line ";" eq_refl Hne).
  replace (Js.endsWith (Js.trim line ++ [";"%char]) ";") with true.
  - cbn [negb]. now rewrite andb_false_r.
  - symmetry. apply LineFacts.endsWith_spec. now exists (Js.trim line).
Qed.

(** X6. Normalized text holds neither [&&] nor [||]: the last two steps
    replace every such pair, and the replacements bring in none. *)
Theorem normalized_has_no_double_operators (text : str) :
  Js.includes (normalized (normalizeCode text)) "&&" = false
  /\ Js.includes (normalized (normalizeCode text)) "||" = false.
Proof.
  unfold normalizeCode, preprocessCode. cbn [normalized].
  unfold re_andand, re_oror. rewrite !SquashFacts.replaceAll_pair.
  set (s := Regex.replaceAll re_semis _ _).
  split; apply SquashFacts.pairFree_includes.
  - apply (SquashFacts.squash_free "&" "and" ) with (n := List.length (squash "|" "or" s));
      [|discriminate|lia].
    intros [H|[H|[H|[]]]]; discriminate.
  - apply (SquashFacts.squash_keeps "&" "and" "|")
      with (n := List.length (squash "|" "or" s)); [|discriminate|lia|].
    + intros [H|[H|[H|[]]]]; discriminate.
    + apply (SquashFacts.squash_free "|" "or") with (n := List.length s);
        [|discriminate|lia].
      intros [H|[H|[]]]; discriminate.
Qed.

(** X7. The shape of post-processed code: every line is empty or is a text
    without white space at either end, indented by two-space units; no
    line ends in white space and none holds white space only. *)
Theorem postProcessCode_lines_indented (p t : str) :
  exists out,
    postProcessCode p t = Js.Ok out
    /\ Forall indented (Js.split "010" out).
Proof.
  destruct (IndentFacts.postProcessCode_reindents p t) as (q & ls & R & P & _).
  exists (Js.join Js.nl ls). split; [exact P|].
  destruct (IndentFacts.reindent_split (Js.split "010" q) 0%Z ls) as [S I];
    [lia | apply LineFacts.split_nonempty | apply LineFacts.split_oneLine | exact R |].
  now rewrite S.
Qed.

(** X8. For a target that is neither brace-delimited nor Python nor Ruby
    (PHP, or a name that is not registered), post-processing is
    idempotent. *)
Theorem postProcessCode_idempotent (p t : str) :
  isOneOf t braceLanguages = false ->
  Js.eqs t "python" = false ->
  Js.eqs t "ruby" = false ->
  exists out,
    postProcessCode p t = Js.Ok out /\ postProcessCode out t = Js.Ok out.
Proof.
  intros Hb Hp Hr.
  destruct (IndentFacts.postProcessCode_reindents p t) as (q & ls & R & P & Q & _ & _).
  rewrite (Q Hb Hp Hr) in R. clear Q.
  exists (Js.join Js.nl ls). split; [exact P|].
  destruct (IndentFacts.postProcessCode_reindents (Js.join Js.nl ls) t)
    as (q' & ls' & R' & P' & Q' & _ & _).
  rewrite (Q' Hb Hp Hr) in R'. rewrite P'. clear Q' P'.
  destruct (IndentFacts.reindent_split (Js.split "010" p) 0%Z ls) as [S _];
    [lia | apply LineFacts.split_nonempty | apply LineFacts.split_oneLine | exact R |].
  rewrite S in R'. rewrite (IndentFacts.reindent_again _ _ _ R) in R'.
  now inversion R'.
Qed.

Lemma postProcessCode_idempotent_witness :
  exists out,
    postProcessCode ("if x {" ++ Js.nl ++ "   y" : str) "php" = Js.Ok out
    /\ postProcessCode out "php" = Js.Ok out.
Proof. apply (postProcessCode_idempotent _ "php"); reflexivity. Defined.

(** X9. Code translated to Ruby holds no brace: post-processing erases
    every opening and closing brace, whatever the rules wrote. *)
Theorem ruby_code_has_no_braces (text sourceLang targetLang : str) :
  languageOf targetLang = "ruby" ->
  Js.eqs (languageOf sourceLang) "ruby" = false ->
  exists r,
    transformCode text sourceLang targetLang = Js.Ok r
    /\ occ "{" (code r) = 0 /\ occ "}" (code r) = 0.
Proof.
  intros Ht Hs.
  destruct (OrchestratorFacts.transformCode_different text sourceLang targetLang)
    as (r & R & _ & _ & P & _); [now rewrite Ht|].
  exists r. split; [exact R|]. rewrite Ht in P.
  destruct (IndentFacts.postProcessCode_reindents
              (rewrittenText text (languageOf sourceLang) "ruby") "ruby")
    as (q & ls & Rq & P' & _ & Q & _).
  rewrite P' in P. inversion P as [C]. clear P P'.
  destruct (Q eq_refl) as (p' & ->). clear Q.
  destruct (PostFacts.reindent_spec (Js.split "010" (Regex.replaceAll re_semi_eol
              (fun _ _ => "" : str)
              (Regex.replaceAll re_close (fun _ _ => "" : str)
                 (Regex.replaceAll re_open (fun _ _ => "" : str) p')))) 0%Z)
    as (ls' & R' & K); [lia|].
  rewrite Rq in R'. inversion R'; subst ls'. clear R'.
  split.
  - rewrite JsFacts.occ_join, K, JsFacts.occ_split by (congruence || reflexivity).
    rewrite EraseFacts.semi_eol_occ by congruence.
    unfold re_close. rewrite EraseFacts.replaceAll_erase_other by congruence.
    apply EraseFacts.replaceAll_erase.
  - rewrite JsFacts.occ_join, K, JsFacts.occ_split by (congruence || reflexivity).
    rewrite EraseFacts.semi_eol_occ by congruence.
    apply EraseFacts.replaceAll_erase.
Qed.

Lemma ruby_code_has_no_braces_witness :
  exists r,
    transformCode ("class A:" ++ Js.nl ++ "  x = {}" : str) "python" "Ruby" = Js.Ok r
    /\ occ "{" (code r) = 0 /\ occ "}" (code r) = 0.
Proof. apply ruby_code_has_no_braces; reflexivity. Defined.

(** X10. Code translated to Go mentions [package]: post-processing puts
    [package main] first unless the text has a package clause, and the
    indentation pass keeps the word. *)
Theorem go_code_has_package (text sourceLang targetLang : str) :
  languageOf targetLang = "go" ->
  Js.eqs (languageOf sourceLang) "go" = false ->
  exists r,
    transformCode text sourceLang targetLang = Js.Ok r
    /\ Js.includes (code r) "package" = true.
Proof.
  intros Ht Hs.
  destruct (OrchestratorFacts.transformCode_different text sourceLang targetLang)
    as (r & R & _ & _ & P & _); [now rewrite Ht|].
  exists r. split; [exact R|]. rewrite Ht in P.
  destruct (IndentFacts.postProcessCode_reindents
              (rewrittenText text (languageOf sourceLang) "go") "go")
    as (q & ls & Rq & P' & _ & _ & G).
  rewrite P' in P. inversion P as [C]. clear P P'.
  apply (IncludeFacts.reindent_keeps_word q); [| |exact Rq|].
  - split; [discriminate | reflexivity].
  - intros H. simpl in H. intuition discriminate.
  - specialize (G eq_refl). apply LineFacts.includes_spec in G.
    destruct G as (u & v & ->).
    apply (IncludeFacts.includes_intro _ u "package" (" " ++ v)). reflexivity.
Qed.

Lemma go_code_has_package_witness :
  exists r,
    transformCode "x = 1" "python" "Go" = Js.Ok r
    /\ Js.includes (code r) "package" = true.
Proof. apply go_code_has_package; reflexivity. Defined.

(** X11. The scoring detector answers one of eight languages: a text is
    never detected as Rust or as Ruby. Rust is scored 3 only when
    [let ] occurs, which scores JavaScript 3 or more, and JavaScript
    comes first; Ruby is scored 2 only when [def ] occurs, which scores
    Python 3 or more. *)
Theorem detectLanguage_detectable (text : str) :
  In (detectLanguage text) detectable
  /\ detectLanguage text <> "rust" /\ detectLanguage text <> "ruby".
Proof.
  assert (H : In (detectLanguage text) detectable).
  { apply OrchestratorFacts.existsb_eqs. fold (isOneOf (detectLanguage text) detectable).
    change (detectLanguage text) with (pick (languageScores text)).
    rewrite DetectFacts.languageScores_from. apply DetectFacts.pick_detectable. }
  split; [exact H|].
  split; intros E; rewrite E in H; simpl in H;
    repeat (destruct H as [H|H]; [discriminate|]); exact H.
Qed.

(** X12. The scoring detector answers a language with the highest score, or
    JavaScript when nothing scored. *)
Theorem detectLanguage_highest_score (text : str) :
  (languageScores text = [] /\ detectLanguage text = "javascript")
  \/ exists n,
       In (detectLanguage text, n) (languageScores text)
       /\ forall lang m, In (lang, m) (languageScores text) -> m <= n.
Proof.
  unfold detectLanguage.
  destruct (sortDesc (languageScores text)) as [|[lang n] rest] eqn:E.
  - left. split; [|reflexivity].
    pose proof (DetectFacts.sortDesc_perm (languageScores text)) as P.
    rewrite E in P. now apply Permutation_nil in P.
  - right. exists n. destruct (DetectFacts.sortDesc_head _ _ _ E) as [Hin Hmax].
    split; [exact Hin|]. intros l m Hl. apply (Hmax (l, m) Hl).
Qed.

(** X13. The report of the mixed-language detector: [languages] lists each
    language with a nonzero indicator count once, in descending order of
    count; [detected] holds exactly when two or more are listed, and the
    confidence is 0.7 then and 1 otherwise. *)
Theorem detectMixedLanguages_report (text : str) :
  let m := detectMixedLanguages text in
  Permutation (languages m)
              (map fst (filter (fun e => 0 <? snd e) (indicators text)))
  /\ NoDup (languages m)
  /\ StronglySorted (fun a b => scoreOf (indicators text) b <= scoreOf (indicators text) a)
                    (languages m)
  /\ detected m = (2 <=? List.length (languages m))
  /\ confidence m = (if detected m then 7 # 10 else 1)%Q.
Proof.
  intros m.
  destruct (DetectFacts.sorted_keys (indicators text)) as (P & N & S).
  { unfold indicators. cbn [map fst].
    repeat constructor; simpl; intuition discriminate. }
  split; [exact P|]. split; [exact N|]. split; [exact S|]. split; [|reflexivity].
  unfold m, detectMixedLanguages. cbn [detected languages].
  rewrite length_map, (Permutation_length (DetectFacts.sortDesc_perm _)).
  reflexivity.
Qed.

(** X14. The structure tree has one node for each line that is not white
    space only, in the order of the lines: the node holds the trimmed
    line, its type, the language, and the line index as both start and
    end. *)
Theorem buildAST_one_node_per_line (text lang : str) :
  exists tree,
    buildAST text lang = Js.Ok tree
    /\ map plain (store tree) = lineNodes lang (Js.split "010" text) 0.
Proof.
  destruct (TreeFacts.buildAST_spec text lang) as (tree & R & N & _).
  now exists tree.
Qed.

(** X15. The structure tree nests by adjacency only: a node has no child or
    one child, the node of the line right after it, and it has one only
    if its line opens a block; every node is either a root or the child
    of one node. *)
Theorem buildAST_chains (text lang : str) :
  exists tree,
    buildAST text lang = Js.Ok tree
    /\ Forall (linked (store tree)) (store tree)
    /\ Permutation (roots tree ++ concat (map children (store tree)))
                   (seq 0 (List.length (store tree))).
Proof.
  destruct (TreeFacts.buildAST_spec text lang) as (tree & R & _ & L & P).
  now exists tree.
Qed.

(** X16. The entries of the line diff: where the after text has a line of
    the same index, the type compares the two lines; a before line past
    the end of the after text is [removed], or [changed] when it is
    empty. No entry is of type [warning]. *)
Theorem calculateLineChanges_entries (before after : str) :
  let afterLines := Js.split "010" after in
  calculateLineChanges before after
  = mapi (fun src i =>
            {| type := if i <? List.length afterLines
                       then compareLines src (lineAt afterLines i)
                       else if isEmpty src then changed else removed;
               source := src;
               translated := lineAt afterLines i |})
         (Js.split "010" before) 0.
Proof.
  intros afterLines. unfold calculateLineChanges. fold afterLines.
  apply DiffLineFacts.mapi_ext. intros src i. unfold lineAt, compareLines, nonEmpty.
  destruct (nth_error afterLines i) as [t|] eqn:E.
  - assert (H : i < List.length afterLines) by (apply nth_error_Some; congruence).
    apply Nat.ltb_lt in H. rewrite H. f_equal.
    rewrite DiffFacts.orElse_some. destruct t; reflexivity.
  - apply nth_error_None in E. apply Nat.ltb_ge in E. rewrite E. f_equal.
    cbn [truthy sameAs]. destruct src; reflexivity.
Qed.

(** X17. The line diff of a text with itself: every line unchanged. *)
Theorem calculateLineChanges_same (text : str) :
  calculateLineChanges text text
  = map (fun l => {| type := unchanged; source := l; translated := l |})
        (Js.split "010" text).
Proof.
  unfold calculateLineChanges.
  etransitivity;
    [exact (DiffLineFacts.mapi_self
              (fun src o =>
                 {| type := if isEmpty src && truthy o then added
                            else if negb (isEmpty src) && negb (truthy o) then removed
                            else if sameAs src o then unchanged else changed;
                    source := src; translated := Js.orElse o "" |})
              (Js.split "010" text) [])|].
  apply map_ext. intros l. cbn [sameAs]. rewrite RegexFacts.eqs_refl.
  destruct l; reflexivity.
Qed.

(** X18. The diff view loses no text: the non-empty lines of the source
    appear, in order, as the source lines of the entries, and the
    non-empty lines of the translation as their translated lines. *)
Theorem computeDiff_keeps_lines (before after : str) :
  filter nonEmpty (map DiffViewer.sourceLine (DiffViewer.computeDiff before after))
  = filter nonEmpty (Js.split "010" before)
  /\ filter nonEmpty (map DiffViewer.translatedLine (DiffViewer.computeDiff before after))
     = filter nonEmpty (Js.split "010" after).
Proof.
  unfold DiffViewer.computeDiff.
  set (sl := Js.split "010" before). set (tl := Js.split "010" after).
  set (lc := calculateLineChanges before after).
  split.
  - rewrite (DiffFacts.flat_map_filter _ _ (lineAt sl))
      by (intros; apply DiffFacts.diffAt_source).
    rewrite DiffFacts.lineAt_seq by lia. apply DiffFacts.filter_blank_tail.
  - rewrite (DiffFacts.flat_map_filter _ _ (lineAt tl))
      by (intros; apply DiffFacts.diffAt_translated).
    rewrite DiffFacts.lineAt_seq by lia. apply DiffFacts.filter_blank_tail.
Qed.

(** X19. The diff of a text with itself: one entry per line, each unchanged,
    numbered from 1. *)
Theorem computeDiff_same (text : str) :
  DiffViewer.computeDiff text text
  = mapi (fun l i => {| DiffViewer.type := unchanged; DiffViewer.sourceLine := l;
                        DiffViewer.translatedLine := l;
                        DiffViewer.lineNumber := i + 1 |})
         (Js.split "010" text) 0.
Proof.
  unfold DiffViewer.computeDiff. rewrite Nat.max_id, DiffFacts.mapi_seq.
  generalize (calculateLineChanges text text) as lc.
  generalize (Js.split "010" text) as ls. intros ls lc.
  induction (seq 0 (List.length ls)) as [|i idxs IH]; [reflexivity|].
  cbn [flat_map map]. rewrite IH. rewrite Nat.sub_0_r.
  unfold DiffViewer.diffAt. fold (lineAt ls i).
  rewrite RegexFacts.eqs_refl. destruct (lineAt ls i); reflexivity.
Qed.

(** X20. The entries of the diff view: the type of each agrees with its texts
    (added: no source text; removed: no translated text; unchanged: equal
    texts), so none is [changed] or [warning]; an index yields one entry,
    or two when both lines are non-empty and differ; line numbers run
    from 1 to the length of the longer text. *)
Theorem computeDiff_entries (before after : str) :
  let n := Nat.max (List.length (Js.split "010" before))
                   (List.length (Js.split "010" after)) in
  let diffs := DiffViewer.computeDiff before after in
  Forall coherent diffs
  /\ Forall (fun d => 1 <= DiffViewer.lineNumber d <= n) diffs
  /\ n <= List.length diffs <= 2 * n.
Proof. apply DiffFacts.computeDiff_spec. Qed.

(** X21. The counters of the diff view are exact: since no entry has another
    type, the counter that takes every entry neither added nor removed
    counts the unchanged entries. *)
Theorem stats_exact (before after : str) :
  let diffs := DiffViewer.computeDiff before after in
  DiffViewer.stats diffs
  = (countIf DiffViewer.isAdded diffs, countIf DiffViewer.isRemoved diffs,
     countIf (fun d => match DiffViewer.type d with unchanged => true | _ => false end)
             diffs).
Proof.
  intros diffs. unfold DiffViewer.stats. rewrite DiffFacts.stats_count. cbn [Nat.add].
  f_equal. unfold countIf. f_equal. apply filter_ext_in.
  intros d Hd. destruct (DiffFacts.computeDiff_spec before after) as (C & _).
  cbv zeta in C. fold diffs in C. rewrite Forall_forall in C.
  unfold DiffViewer.isAdded, DiffViewer.isRemoved.
  destruct (C d Hd) as [(-> & _)|[(-> & _)|(-> & _)]]; reflexivity.
Qed.

(** X22. The stream of the endpoint ends, and it delivers the code: the events
    are deltas followed by the completion signal; the deltas, in order,
    spell [result.code]; each delta carries as [fullText] the text sent
    so far; a delta is never empty and never longer than 50 units, and
    only the last one can be shorter. *)
Theorem stream_delivers_code (result : TransformationResult) :
  exists events,
    Route.start result = Some (events ++ [Route.Done])
    /\ concat (map deltaOf events) = code result
    /\ forall i e,
         nth_error events i = Some e ->
         exists d,
           e = Route.Delta d (concat (map deltaOf (firstn (S i) events)))
           /\ 0 < List.length d <= Route.chunkSize
           /\ (S i < List.length events -> List.length d = Route.chunkSize).
Proof.
  destruct (RouteFacts.sendChunk_spec result (S (List.length (code result))) 0)
    as (events & E & C & P); [lia|].
  exists events. split; [exact E|]. split; [exact C|].
  intros i e Hi. destruct (P i e Hi) as (d & -> & H). now exists d.
Qed.


(** X24. Warnings shown as issues: every warning of a result is shown as
    [Mixed language code detected] or as [Language feature conversion],
    on line 1; the entry for normalization and the generic entry are
    never produced from the transformer's warnings. *)
Theorem issues_of_a_result (text sourceLang targetLang : str) :
  exists r,
    transformCode text sourceLang targetLang = Js.Ok r
    /\ List.length (ErrorHighlighter.extractErrorsFromWarnings (warnings r))
       = List.length (warnings r)
    /\ Forall (fun e =>
                 ErrorHighlighter.lineNumber e = 1
                 /\ ((ErrorHighlighter.severity e = ErrorHighlighter.SWarning
                      /\ ErrorHighlighter.message e = "Mixed language code detected")
                     \/ (ErrorHighlighter.severity e = ErrorHighlighter.SInfo
                         /\ ErrorHighlighter.message e = "Language feature conversion"
                         /\ ErrorHighlighter.suggestion e = Some structWarning)))
              (ErrorHighlighter.extractErrorsFromWarnings (warnings r)).
Proof.
  destruct (OrchestratorFacts.warnings_spec text sourceLang targetLang)
    as (r & R & _ & Hf).
  exists r. split; [exact R|]. unfold ErrorHighlighter.extractErrorsFromWarnings.
  split; [apply length_map|]. apply Forall_map.
  eapply Forall_impl; [|exact Hf]. cbv beta. intros w [->|(-> & _)].
  - unfold ErrorHighlighter.classify.
    replace (Js.includes (mixedWarning text) "Mixed languages") with true.
    + split; [reflexivity|]. left. split; reflexivity.
    + symmetry. apply LineFacts.includes_spec. exists []. eexists. reflexivity.
  - split; [reflexivity|]. right. repeat split.
Qed.

(** X25. For a pair with a rule list, the older transformer returns text
    without white space at the end of any line. *)
Theorem legacy_output_trimmed (text sourceLanguage targetLanguage : str) rules :
  Js.eqs (Js.toLowerCase sourceLanguage) (Js.toLowerCase targetLanguage) = false ->
  Legacy.rulesFor (Js.toLowerCase sourceLanguage) (Js.toLowerCase targetLanguage)
  = Some rules ->
  Forall (fun l => Js.trimEnd l = l)
         (Js.split "010" (Legacy.transformCode text sourceLanguage targetLanguage)).
Proof.
  intros Hne Hr. unfold Legacy.transformCode. rewrite Hne, Hr.
  rewrite LineFacts.split_join.
  - apply Forall_map, Forall_forall. intros l _. apply TextFacts.trimEnd_idem.
  - destruct (JsFacts.split_cons "010"
                (fold_left (fun t r => Regex.replaceAll (Legacy.pattern r)
                                         (Legacy.replacement r) t) rules text))
      as (l & ls & ->). discriminate.
  - apply Forall_map. eapply Forall_impl; [|apply LineFacts.split_oneLine].
    intros l. apply LineFacts.oneLine_trimEnd.
Qed.

Lemma legacy_output_trimmed_witness :
  Forall (fun l => Js.trimEnd l = l)
         (Js.split "010" (Legacy.transformCode ("x = 1   " ++ Js.nl ++ "y  " : str)
                                               "Python" "JavaScript")).
Proof.
  eapply legacy_output_trimmed; [reflexivity | vm_compute; reflexivity].
Defined.

(** X26. The older detector lower-cases the text before it looks for
    [System.out], so that test never holds: a text is detected as Java
    only through [public class] or [private void]. *)
Theorem legacy_java_detection (text : str) :
  let has := Js.includes (Js.toLowerCase text) in
  has "System.out" = false
  /\ Js.eqs (LegacyDetection.detectLanguage text) "java"
     = negb (has "def " || has "import "
             || Regex.test LegacyDetection.re_indented_line (Js.toLowerCase text))
       && negb (has "function" || has "const " || has "let ")
       && (has "public class" || has "private void").
Proof.
  intros has.
  assert (H : has "System.out" = false) by apply (LowerFacts.lower_excludes text [] "ystem.out").
  split; [exact H|].
  unfold LegacyDetection.detectLanguage. fold has. rewrite H, orb_false_r.
  destruct (has "def " || has "import " || _); [reflexivity|].
  destruct (has "function" || has "const " || has "let "); [reflexivity|].
  destruct (has "public class" || has "private void"); [reflexivity|].
  cbn [negb andb].
  destruct (has "#include" || has "std::"); [reflexivity|].
  destruct (has "func " || has ":= "); [reflexivity|].
  destruct (has "fn " || has "fn main"); reflexivity.
Qed.

(** X27. The second detector never answers Ruby: its Ruby test asks for
    [def ], and a text with [def ] is taken for Python before. *)
Theorem comprehensive_detection_never_ruby (text : str) :
  In (Comprehensive.detectLanguage text)
     ["python" : str; "go" : str; "rust" : str; "cpp" : str; "java" : str;
      "csharp" : str; "typescript" : str; "php" : str; "javascript" : str]
  /\ Comprehensive.detectLanguage text <> "ruby".
Proof.
  assert (H : In (Comprehensive.detectLanguage text)
                 ["python" : str; "go" : str; "rust" : str; "cpp" : str; "java" : str;
                  "csharp" : str; "typescript" : str; "php" : str; "javascript" : str]).
  { unfold Comprehensive.detectLanguage.
    set (has := Js.includes (Js.toLowerCase text)).
    destruct (has "def ") eqn:Ed; cbn [orb andb]; [simpl; auto|].
    repeat match goal with
           | |- In (if ?b then _ else _) _ => destruct b
           end; simpl; auto 10. }
  split; [exact H|]. intros E. rewrite E in H. simpl in H.
  repeat (destruct H as [H|H]; [discriminate|]). exact H.
Qed.

(** X28. The outline of a text: the root spans all lines; its children are
    function and class entries, each for one line (its trimmed text),
    spanning that line only and without children, in the order of the
    lines. *)
Theorem parseToAST_outline (text lang : str) :
  let lines := Js.split "010" text in
  let root := Comprehensive.parseToAST text lang in
  Comprehensive.type root = Comprehensive.NStatement
  /\ Comprehensive.content root = text
  /\ Comprehensive.lineStart root = 0
  /\ Comprehensive.lineEnd root = List.length lines
  /\ Forall (fun c => outlineEntry lines c
                      /\ Comprehensive.lineEnd c <= Comprehensive.lineEnd root)
            (Comprehensive.children root)
  /\ StronglySorted (fun a b => Comprehensive.lineStart a <= Comprehensive.lineStart b)
                    (Comprehensive.children root).
Proof.
  intros lines root. unfold root, Comprehensive.parseToAST. fold lines. cbn.
  repeat (split; [reflexivity|]).
  destruct (OutlineFacts.outline_from lines 0) as [F S]. cbv zeta in F, S.
  split; [|exact S].
  eapply Forall_impl; [|exact F]. cbv beta.
  intros c (_ & (l & Hl & Hc) & Ht & Hn & He & Hk). rewrite Nat.sub_0_r in Hl.
  split.
  - unfold outlineEntry. repeat split; try assumption. now exists l.
  - assert (Comprehensive.lineStart c < List.length lines)
      by (apply nth_error_Some; congruence). lia.
Qed.

(** X29. The line diff of the second transformer covers the longer of the two
    texts: one entry per index, carrying the transformed line (empty past
    its end), of kind [normal] exactly when the two lines are equal, a
    missing line counting as empty. *)
Theorem comprehensive_line_changes (original transformed : str) :
  let origLines := Js.split "010" original in
  let transLines := Js.split "010" transformed in
  let n := Nat.max (List.length origLines) (List.length transLines) in
  let changes := Comprehensive.calculateLineChanges original transformed in
  map Comprehensive.text changes = transLines ++ List.repeat [] (n - List.length transLines)
  /\ map Comprehensive.kind changes
     = map (fun i => if Js.eqs (lineAt origLines i) (lineAt transLines i)
                     then Comprehensive.normal else Comprehensive.changed)
           (seq 0 n)
  /\ List.length changes = n.
Proof.
  intros origLines transLines n changes.
  unfold changes, Comprehensive.calculateLineChanges. fold origLines transLines n.
  fold (lineAt origLines) (lineAt transLines).
  rewrite !map_map, length_map, length_seq. split; [|split; [|reflexivity]].
  - rewrite <- DiffFacts.lineAt_seq by lia. apply map_ext. intros i.
    unfold lineAt. destruct (Js.eqs _ _); reflexivity.
  - apply map_ext. intros i. unfold lineAt. destruct (Js.eqs _ _); reflexivity.
Qed.
